(** * btc_fun: the symbolic script analyzer

    A shallow embedding of the script analyzer (ScriptAnalyzer, ConditionStack,
    ScriptConv, Util.exprCompareFn / Util.normalizeExprs) and the properties
    established about it.

    Conventions.
    - A JavaScript number that the analyzer only ever uses as an integer is a [Z].
      The 32-bit operators ([&], [|], [<<], [>>]) are written with their
      ToInt32 wrap-around.
    - A [Uint8Array] is a [list Z] of bytes, index 0 first.
    - A JavaScript array used as a stack is a [list] whose LAST element is the
      top ([push] appends, [pop] removes the last element, [unshift] conses). *)

From Stdlib Require Import ZArith List Bool Lia Sorted Permutation.
Import ListNotations.
Local Open Scope Z_scope.
Local Set Warnings "-register-all".

(* ================================================================== *)
(** * Definitions *)
(* ================================================================== *)

(** ** JavaScript 32-bit integer operators *)

Module JS.

(** ToInt32 of an integral number. *)
Definition ToInt32 (z : Z) : Z := (z + 2 ^ 31) mod 2 ^ 32 - 2 ^ 31.

(** [a & b] *)
Definition and (a b : Z) : Z := Z.land (ToInt32 a) (ToInt32 b).

(** [a | b] *)
Definition or (a b : Z) : Z := Z.lor (ToInt32 a) (ToInt32 b).

(** [a << c]: the shift count is taken modulo 32, the result wraps. *)
Definition shl (a c : Z) : Z := ToInt32 (Z.shiftl (ToInt32 a) (c mod 32)).

(** [a >> c]: sign-propagating shift. *)
Definition sar (a c : Z) : Z := Z.shiftr (ToInt32 a) (c mod 32).

(** [new Uint8Array(arr)]: every element is stored modulo 256. *)
Definition Uint8Array (arr : list Z) : list Z := map (fun x => x mod 256) arr.

(** [arr[arr.length - 1]], [None] standing for [undefined]. *)
Definition last_elem {A} (arr : list A) : option A :=
  match rev arr with
  | [] => None
  | x :: _ => Some x
  end.

(** [arr[arr.length - 1] = v] on a non-empty array.  On an empty array the
    assignment creates the property "-1" and no element: the sequence of
    elements is unchanged. *)
Definition set_last {A} (arr : list A) (v : A) : list A :=
  match arr with
  | [] => []
  | _ => removelast arr ++ [v]
  end.

(** [arr.pop()]: the last element and the remaining array. *)
Definition pop {A} (arr : list A) : option (A * list A) :=
  match rev arr with
  | [] => None
  | x :: r => Some (x, rev r)
  end.

(** The index a relative [start] of [slice] or [splice] stands for:
    a negative one counts from the end, and both ends clamp. *)
Definition clamp_index (start : Z) (len : nat) : nat :=
  if start <? 0 then Z.to_nat (Z.max (Z.of_nat len + start) 0)
  else Z.to_nat (Z.min start (Z.of_nat len)).

(** [arr.slice(start)] *)
Definition slice_from {A} (start : Z) (arr : list A) : list A :=
  skipn (clamp_index start (length arr)) arr.

(** [arr.slice(0, stop)] *)
Definition slice_to {A} (stop : Z) (arr : list A) : list A :=
  firstn (clamp_index stop (length arr)) arr.

(** [arr.splice(start, 1)]: the array without the element at [start]. *)
Definition splice1 {A} (start : Z) (arr : list A) : list A :=
  let i := clamp_index start (length arr) in
  firstn i arr ++ skipn (S i) arr.

End JS.

(** ** ScriptConv: the numeric and boolean codecs *)

Module ScriptConv.

Module Int.

(** The loop [while (abs) { buf.push(abs & 0xff); abs >>= 8; }].
    The loop need not terminate (after the first [>>=] a negative [abs]
    stays negative for ever), so it is run with fuel; [None] is "the fuel
    ran out". *)
Fixpoint encode_loop (fuel : nat) (abs : Z) (buf : list Z) : option (list Z) :=
  match fuel with
  | O => None
  | S fuel' =>
      if abs =? 0 then Some buf
      else encode_loop fuel' (JS.sar abs 8) (buf ++ [JS.and abs 0xff])
  end.

(** What follows the loop: the sign byte or the sign bit. *)
Definition encode_sign (neg : bool) (buf : list Z) : list Z :=
  let top := match JS.last_elem buf with
             | Some b => JS.and b 0x80
             | None => 0 (* undefined & 0x80 *)
             end in
  if negb (top =? 0) then buf ++ [if neg then 0x80 else 0x00]
  else if neg then
    match JS.last_elem buf with
    | Some b => JS.set_last buf (JS.or b 0x80)
    | None => buf
    end
  else buf.

Definition encode_fuel (fuel : nat) (n : Z) : option (list Z) :=
  let neg := n <? 0 in
  match encode_loop fuel (Z.abs n) [] with
  | Some buf => Some (JS.Uint8Array (encode_sign neg buf))
  | None => None
  end.

(** [Int.encode].  Six rounds decide the loop: see [encode_loop_diverges]
    and [encode_loop_enough] below; [None] is a call that does not
    return. *)
Definition encode (n : Z) : option (list Z) := encode_fuel 6 n.

(** The loop [for (i = 0; i != buf.length; ++i) n |= buf[i] << (i * 8)],
    entered at index [i]. *)
Fixpoint decode_loop (i : Z) (buf : list Z) (n : Z) : Z :=
  match buf with
  | [] => n
  | b :: rest => decode_loop (i + 1) rest (JS.or n (JS.shl b (i * 8)))
  end.

(** [Int.decode].  JavaScript's [-0] (a negative zero buffer) is [0] here:
    the analyzer only compares the result and encodes it again, and both
    treat the two zeros alike. *)
Definition decode (buf : list Z) : Z :=
  match JS.last_elem buf with
  | None => 0
  | Some top =>
      let neg := JS.and top 0x80 in
      let buf' := if neg =? 0 then buf
                  else JS.set_last buf ((JS.and top 0x7f) mod 256) in
      let n := decode_loop 0 buf' 0 in
      if neg =? 0 then n else - n
  end.

End Int.

Module Bool.

Definition FALSE : list Z := [].
Definition TRUE : list Z := [1].

Definition encode (b : bool) : list Z := if b then TRUE else FALSE.

(** [i !== buf.length - 1] holds exactly when bytes follow the one at [i]. *)
Fixpoint decode (buf : list Z) : bool :=
  match buf with
  | [] => false
  | b :: rest =>
      if b =? 0 then decode rest
      else negb (match rest with [] => true | _ => false end) || negb (b =? 0x80)
  end.

Definition not (buf : list Z) : list Z := encode (negb (decode buf)).

End Bool.

End ScriptConv.

(** ** ConditionStack *)

(** What the analyzer can leave its normal control flow with: the three
    strings the code throws, and a call of [Int.encode] that does not
    return. *)
Inductive Abort :=
| pop_back_stack_size      (* throw 'pop_back: stack size <= 0' *)
| toggle_top_stack_size    (* throw 'toggle_top: stack size <= 0' *)
| depth_not_concrete (op : Z)
    (* throw `${opcodeName(op)} can't use stack/output values as depth (yet)` *)
| encode_diverges.         (* Int.encode loops for ever *)

Module ConditionStack.

(** A constant for m_first_false_pos to indicate there are no falses. *)
Definition NO_FALSE : Z := -1.

Record t := mk {
  m_stack_size : Z;       (* The size of the implied stack. *)
  m_first_false_pos : Z   (* The position of the first false value, or NO_FALSE. *)
}.

Definition new : t := mk 0 NO_FALSE.

Definition empty (cs : t) : bool := m_stack_size cs =? 0.

Definition all_true (cs : t) : bool := m_first_false_pos cs =? NO_FALSE.

Definition push_back (cs : t) (f : bool) : t :=
  let pos := if (m_first_false_pos cs =? NO_FALSE) && negb f
             then m_stack_size cs
             else m_first_false_pos cs in
  mk (m_stack_size cs + 1) pos.

Definition pop_back (cs : t) : Abort + t :=
  if m_stack_size cs <=? 0 then inl pop_back_stack_size
  else
    let size := m_stack_size cs - 1 in
    inr (mk size (if m_first_false_pos cs =? size then NO_FALSE
                  else m_first_false_pos cs)).

Definition toggle_top (cs : t) : Abort + t :=
  if m_stack_size cs <=? 0 then inl toggle_top_stack_size
  else if m_first_false_pos cs =? NO_FALSE then
    inr (mk (m_stack_size cs) (m_stack_size cs - 1))
  else if m_first_false_pos cs =? m_stack_size cs - 1 then
    inr (mk (m_stack_size cs) NO_FALSE)
  else inr cs.

Definition clone (cs : t) : t := mk (m_stack_size cs) (m_first_false_pos cs).

End ConditionStack.

(** ** The materialized condition stack

    The vector of booleans the comment on [ConditionStack] speaks of ("it acts
    like a vector of booleans, one for each level of nested IF/THEN/ELSE"),
    written after the specification's words; [ConditionStack] is compared
    with it. *)

Module BoolVector.

Definition t := list bool.

Definition new : t := [].

Definition empty (v : t) : bool := match v with [] => true | _ => false end.

(** The conjunction of all elements. *)
Definition all_true (v : t) : bool := forallb (fun b => b) v.

Definition push_back (v : t) (f : bool) : t := v ++ [f].

(** Fails on the empty vector. *)
Definition pop_back (v : t) : option t :=
  match JS.pop v with
  | Some (_, rest) => Some rest
  | None => None
  end.

(** Flips the last value; fails on the empty vector. *)
Definition toggle_top (v : t) : option t :=
  match JS.pop v with
  | Some (b, rest) => Some (rest ++ [negb b])
  | None => None
  end.

End BoolVector.

(** The operations of a condition stack, to speak of sequences of them. *)
Inductive CsOp :=
| Push_back (f : bool)
| Pop_back
| Toggle_top.

Definition cs_apply (cs : ConditionStack.t) (o : CsOp) : Abort + ConditionStack.t :=
  match o with
  | Push_back f => inr (ConditionStack.push_back cs f)
  | Pop_back => ConditionStack.pop_back cs
  | Toggle_top => ConditionStack.toggle_top cs
  end.

Fixpoint cs_run (ops : list CsOp) (cs : ConditionStack.t) : Abort + ConditionStack.t :=
  match ops with
  | [] => inr cs
  | o :: ops' =>
      match cs_apply cs o with
      | inr cs' => cs_run ops' cs'
      | inl a => inl a
      end
  end.

Definition vec_apply (v : BoolVector.t) (o : CsOp) : option BoolVector.t :=
  match o with
  | Push_back f => Some (BoolVector.push_back v f)
  | Pop_back => BoolVector.pop_back v
  | Toggle_top => BoolVector.toggle_top v
  end.

(** [None]: the sequence pops or toggles an empty vector. *)
Fixpoint vec_run (ops : list CsOp) (v : BoolVector.t) : option BoolVector.t :=
  match ops with
  | [] => Some v
  | o :: ops' =>
      match vec_apply v o with
      | Some v' => vec_run ops' v'
      | None => None
      end
  end.

(** The position of the first [false] of a vector, [-1] when there is none. *)
Fixpoint first_false (v : list bool) : Z :=
  match v with
  | [] => -1
  | b :: rest =>
      if b then (let p := first_false rest in if p =? -1 then -1 else p + 1)
      else 0
  end.

(** The simulation relation between the two representations. *)
Definition cs_represents (cs : ConditionStack.t) (v : BoolVector.t) : Prop :=
  ConditionStack.m_stack_size cs = Z.of_nat (length v) /\
  ConditionStack.m_first_false_pos cs = first_false v.

(** ** Opcodes, errors, versions *)

Module opcodes.
(* push value *)
Definition OP_0 : Z := 0x00.
Definition OP_FALSE : Z := 0x00.
Definition OP_PUSHDATA1 : Z := 0x4c.
Definition OP_PUSHDATA2 : Z := 0x4d.
Definition OP_PUSHDATA4 : Z := 0x4e.
Definition OP_1NEGATE : Z := 0x4f.
Definition OP_1 : Z := 0x51.
Definition OP_TRUE : Z := 0x51.
Definition OP_2 : Z := 0x52.
Definition OP_3 : Z := 0x53.
Definition OP_4 : Z := 0x54.
Definition OP_5 : Z := 0x55.
Definition OP_6 : Z := 0x56.
Definition OP_7 : Z := 0x57.
Definition OP_8 : Z := 0x58.
Definition OP_9 : Z := 0x59.
Definition OP_10 : Z := 0x5a.
Definition OP_11 : Z := 0x5b.
Definition OP_12 : Z := 0x5c.
Definition OP_13 : Z := 0x5d.
Definition OP_14 : Z := 0x5e.
Definition OP_15 : Z := 0x5f.
Definition OP_16 : Z := 0x60.
(* control *)
Definition OP_NOP : Z := 0x61.
Definition OP_VER : Z := 0x62.
Definition OP_IF : Z := 0x63.
Definition OP_NOTIF : Z := 0x64.
Definition OP_VERIF : Z := 0x65.
Definition OP_VERNOTIF : Z := 0x66.
Definition OP_ELSE : Z := 0x67.
Definition OP_ENDIF : Z := 0x68.
Definition OP_VERIFY : Z := 0x69.
Definition OP_RETURN : Z := 0x6a.
(* stack ops *)
Definition OP_TOALTSTACK : Z := 0x6b.
Definition OP_FROMALTSTACK : Z := 0x6c.
Definition OP_2DROP : Z := 0x6d.
Definition OP_2DUP : Z := 0x6e.
Definition OP_3DUP : Z := 0x6f.
Definition OP_2OVER : Z := 0x70.
Definition OP_2ROT : Z := 0x71.
Definition OP_2SWAP : Z := 0x72.
Definition OP_IFDUP : Z := 0x73.
Definition OP_DEPTH : Z := 0x74.
Definition OP_DROP : Z := 0x75.
Definition OP_DUP : Z := 0x76.
Definition OP_NIP : Z := 0x77.
Definition OP_OVER : Z := 0x78.
Definition OP_PICK : Z := 0x79.
Definition OP_ROLL : Z := 0x7a.
Definition OP_ROT : Z := 0x7b.
Definition OP_SWAP : Z := 0x7c.
Definition OP_TUCK : Z := 0x7d.
(* splice ops *)
Definition OP_CAT : Z := 0x7e.
Definition OP_SUBSTR : Z := 0x7f.
Definition OP_LEFT : Z := 0x80.
Definition OP_RIGHT : Z := 0x81.
Definition OP_SIZE : Z := 0x82.
(* bit logic *)
Definition OP_INVERT : Z := 0x83.
Definition OP_AND : Z := 0x84.
Definition OP_OR : Z := 0x85.
Definition OP_XOR : Z := 0x86.
Definition OP_EQUAL : Z := 0x87.
Definition OP_EQUALVERIFY : Z := 0x88.
Definition OP_RESERVED1 : Z := 0x89.
Definition OP_RESERVED2 : Z := 0x8a.
(* numeric *)
Definition OP_1ADD : Z := 0x8b.
Definition OP_1SUB : Z := 0x8c.
Definition OP_2MUL : Z := 0x8d.
Definition OP_2DIV : Z := 0x8e.
Definition OP_NEGATE : Z := 0x8f.
Definition OP_ABS : Z := 0x90.
Definition OP_NOT : Z := 0x91.
Definition OP_0NOTEQUAL : Z := 0x92.
Definition OP_ADD : Z := 0x93.
Definition OP_SUB : Z := 0x94.
Definition OP_MUL : Z := 0x95.
Definition OP_DIV : Z := 0x96.
Definition OP_MOD : Z := 0x97.
Definition OP_LSHIFT : Z := 0x98.
Definition OP_RSHIFT : Z := 0x99.
Definition OP_BOOLAND : Z := 0x9a.
Definition OP_BOOLOR : Z := 0x9b.
Definition OP_NUMEQUAL : Z := 0x9c.
Definition OP_NUMEQUALVERIFY : Z := 0x9d.
Definition OP_NUMNOTEQUAL : Z := 0x9e.
Definition OP_LESSTHAN : Z := 0x9f.
Definition OP_GREATERTHAN : Z := 0xa0.
Definition OP_LESSTHANOREQUAL : Z := 0xa1.
Definition OP_GREATERTHANOREQUAL : Z := 0xa2.
Definition OP_MIN : Z := 0xa3.
Definition OP_MAX : Z := 0xa4.
Definition OP_WITHIN : Z := 0xa5.
(* crypto *)
Definition OP_RIPEMD160 : Z := 0xa6.
Definition OP_SHA1 : Z := 0xa7.
Definition OP_SHA256 : Z := 0xa8.
Definition OP_HASH160 : Z := 0xa9.
Definition OP_HASH256 : Z := 0xaa.
Definition OP_CODESEPARATOR : Z := 0xab.
Definition OP_CHECKSIG : Z := 0xac.
Definition OP_CHECKSIGVERIFY : Z := 0xad.
Definition OP_CHECKMULTISIG : Z := 0xae.
Definition OP_CHECKMULTISIGVERIFY : Z := 0xaf.
(* expansion *)
Definition OP_NOP1 : Z := 0xb0.
Definition OP_CHECKLOCKTIMEVERIFY : Z := 0xb1.
Definition OP_NOP2 : Z := 0xb1.
Definition OP_CHECKSEQUENCEVERIFY : Z := 0xb2.
Definition OP_NOP3 : Z := 0xb2.
Definition OP_NOP4 : Z := 0xb3.
Definition OP_NOP5 : Z := 0xb4.
Definition OP_NOP6 : Z := 0xb5.
Definition OP_NOP7 : Z := 0xb6.
Definition OP_NOP8 : Z := 0xb7.
Definition OP_NOP9 : Z := 0xb8.
Definition OP_NOP10 : Z := 0xb9.
(* Opcode added by BIP 342 (Tapscript) *)
Definition OP_CHECKSIGADD : Z := 0xba.
Definition OP_INVALIDOPCODE : Z := 0xff.
(* internal opcodes (not used in bitcoin core) *)
Definition INTERNAL_NOT : Z := -1.
End opcodes.

Inductive ScriptError :=
| SCRIPT_ERR_OK
| SCRIPT_ERR_UNKNOWN_ERROR
| SCRIPT_ERR_EVAL_FALSE
| SCRIPT_ERR_OP_RETURN
| SCRIPT_ERR_SCRIPT_SIZE
| SCRIPT_ERR_PUSH_SIZE
| SCRIPT_ERR_OP_COUNT
| SCRIPT_ERR_STACK_SIZE
| SCRIPT_ERR_SIG_COUNT
| SCRIPT_ERR_PUBKEY_COUNT
| SCRIPT_ERR_VERIFY
| SCRIPT_ERR_EQUALVERIFY
| SCRIPT_ERR_CHECKMULTISIGVERIFY
| SCRIPT_ERR_CHECKSIGVERIFY
| SCRIPT_ERR_NUMEQUALVERIFY
| SCRIPT_ERR_BAD_OPCODE
| SCRIPT_ERR_DISABLED_OPCODE
| SCRIPT_ERR_INVALID_STACK_OPERATION
| SCRIPT_ERR_INVALID_ALTSTACK_OPERATION
| SCRIPT_ERR_UNBALANCED_CONDITIONAL
| SCRIPT_ERR_NEGATIVE_LOCKTIME
| SCRIPT_ERR_UNSATISFIED_LOCKTIME
| SCRIPT_ERR_SIG_HASHTYPE
| SCRIPT_ERR_SIG_DER
| SCRIPT_ERR_MINIMALDATA
| SCRIPT_ERR_SIG_PUSHONLY
| SCRIPT_ERR_SIG_HIGH_S
| SCRIPT_ERR_SIG_NULLDUMMY
| SCRIPT_ERR_PUBKEYTYPE
| SCRIPT_ERR_CLEANSTACK
| SCRIPT_ERR_MINIMALIF
| SCRIPT_ERR_SIG_NULLFAIL
| SCRIPT_ERR_DISCOURAGE_UPGRADABLE_NOPS
| SCRIPT_ERR_DISCOURAGE_UPGRADABLE_WITNESS_PROGRAM
| SCRIPT_ERR_DISCOURAGE_UPGRADABLE_TAPROOT_VERSION
| SCRIPT_ERR_DISCOURAGE_OP_SUCCESS
| SCRIPT_ERR_DISCOURAGE_UPGRADABLE_PUBKEYTYPE
| SCRIPT_ERR_WITNESS_PROGRAM_WRONG_LENGTH
| SCRIPT_ERR_WITNESS_PROGRAM_WITNESS_EMPTY
| SCRIPT_ERR_WITNESS_PROGRAM_MISMATCH
| SCRIPT_ERR_WITNESS_MALLEATED
| SCRIPT_ERR_WITNESS_MALLEATED_P2SH
| SCRIPT_ERR_WITNESS_UNEXPECTED
| SCRIPT_ERR_WITNESS_PUBKEYTYPE
| SCRIPT_ERR_SCHNORR_SIG_SIZE
| SCRIPT_ERR_SCHNORR_SIG_HASHTYPE
| SCRIPT_ERR_SCHNORR_SIG
| SCRIPT_ERR_TAPROOT_WRONG_CONTROL_SIZE
| SCRIPT_ERR_TAPSCRIPT_VALIDATION_WEIGHT
| SCRIPT_ERR_TAPSCRIPT_CHECKMULTISIG
| SCRIPT_ERR_TAPSCRIPT_MINIMALIF
| SCRIPT_ERR_OP_CODESEPARATOR
| SCRIPT_ERR_SIG_FINDANDDELETE
| SCRIPT_ERR_ERROR_COUNT
| SCRIPT_ERR_NUM_OVERFLOW.

Inductive ScriptVersion := LEGACY | SEGWITV0 | SEGWITV1.

(** The numeric value of the enum member, for [this.version < SEGWITV1]. *)
Definition ScriptVersion_value (v : ScriptVersion) : Z :=
  match v with LEGACY => 0 | SEGWITV0 => 1 | SEGWITV1 => 2 end.

Definition ScriptVersion_eqb (a b : ScriptVersion) : bool :=
  ScriptVersion_value a =? ScriptVersion_value b.

Inductive ScriptRules := ALL | CONSENSUS_ONLY.

Definition ScriptRules_eqb (a b : ScriptRules) : bool :=
  match a, b with
  | ALL, ALL | CONSENSUS_ONLY, CONSENSUS_ONLY => true
  | _, _ => false
  end.

(** ** Expressions *)

(** [type Expr = Uint8Array | { var: number } | { opcode, args, error? }]. *)
Inductive Expr :=
| Bytes (buf : list Z)
| Var (var : Z)
| App (opcode : Z) (args : list Expr) (error : option ScriptError).

(** A script item: a data push or an opcode. *)
Inductive Item :=
| Push (data : list Z)
| Op (code : Z).

Module Util.

(** The loop of [bufferCompare] over the common prefix; [None] when it
    runs to its end. *)
Fixpoint bufferCompare_loop (buf1 buf2 : list Z) : option Z :=
  match buf1, buf2 with
  | x :: r1, y :: r2 =>
      if x <? y then Some (-1)
      else if x >? y then Some 1
      else bufferCompare_loop r1 r2
  | _, _ => None
  end.

Definition bufferCompare (buf1 buf2 : list Z) : Z :=
  match bufferCompare_loop buf1 buf2 with
  | Some r => r
  | None =>
      if (length buf1 <? length buf2)%nat then -1
      else if (length buf2 <? length buf1)%nat then 1
      else 0
  end.

Inductive ExprType := type_opcode | type_var | type_value.

Definition exprPriority (t : ExprType) : Z :=
  match t with
  | type_var => 2
  | type_opcode => 1
  | type_value => 0
  end.

Definition exprType (expr : Expr) : ExprType :=
  match expr with
  | App _ _ _ => type_opcode
  | Var _ => type_var
  | Bytes _ => type_value
  end.

(** The loop of [exprCompareFn] over the arguments of two applications of
    equal arity: the first comparison that is not 0, [None] when there is
    none. *)
Fixpoint args_compare (compareFn : Expr -> Expr -> Z) (xs ys : list Expr) : option Z :=
  match xs, ys with
  | x :: xs', y :: ys' =>
      let s_1 := compareFn x y in
      if negb (s_1 =? 0) then Some s_1 else args_compare compareFn xs' ys'
  | _, _ => None
  end.

(** [exprCompareFn].  When the loop over the arguments finds no difference,
    control reaches the last [return]. *)
Fixpoint exprCompareFn (a b : Expr) : Z :=
  let by_priority := exprPriority (exprType b) - exprPriority (exprType a) in
  match a, b with
  | App opa argsa _, App opb argsb _ =>
      let s := opa - opb in
      if negb (s =? 0) then s
      else
        let ldiff := Z.of_nat (length argsa) - Z.of_nat (length argsb) in
        if negb (ldiff =? 0) then ldiff
        else
          match args_compare exprCompareFn argsa argsb with
          | Some s_1 => s_1
          | None => by_priority
          end
  | Var va, Var vb => va - vb
  | Bytes ba, Bytes bb => bufferCompare ba bb
  | _, _ => by_priority
  end.

(** [Array.prototype.sort(compareFn)] is stable; this is the stable
    insertion sort: an element goes in front of the first later element it
    does not compare greater than.  What is proved of the order of variants
    holds of every arrangement that is sorted by [exprCompareFn], whichever
    algorithm produced it ([sorted_by_exprCompareFn_priority] below). *)
Fixpoint sort_insert {A} (compareFn : A -> A -> Z) (x : A) (l : list A) : list A :=
  match l with
  | [] => [x]
  | y :: l' =>
      if compareFn x y <=? 0 then x :: l
      else y :: sort_insert compareFn x l'
  end.

Fixpoint sort {A} (compareFn : A -> A -> Z) (l : list A) : list A :=
  match l with
  | [] => []
  | x :: l' => sort_insert compareFn x (sort compareFn l')
  end.

(** The opcodes whose argument order [normalizeExprs] leaves alone. *)
Definition keepsArgOrder (opcode : Z) : bool :=
  existsb (Z.eqb opcode)
    [opcodes.OP_CHECKMULTISIG; opcodes.OP_CHECKSIG; opcodes.OP_GREATERTHAN;
     opcodes.OP_GREATERTHANOREQUAL; opcodes.OP_LESSTHAN;
     opcodes.OP_LESSTHANOREQUAL; opcodes.OP_SUB; opcodes.OP_WITHIN].

(** [normalizeExprs] sorts the list by the expressions as they are, then
    normalizes the argument list of every application in it.  To keep the
    recursion structural each argument travels with its normalized form
    while the list is sorted by the argument itself; that this is
    "sort, then normalize each" is [normalizeExpr_App] below.  Expressions
    are values here: an object that occurs at two places of a list is
    normalized at each place. *)
Fixpoint normalizeExpr (expr : Expr) : Expr :=
  match expr with
  | App opcode args error =>
      if keepsArgOrder opcode then expr
      else
        App opcode
          (map snd
             (sort (fun p q => exprCompareFn (fst p) (fst q))
                (map (fun a => (a, normalizeExpr a)) args)))
          error
  | _ => expr
  end.

Definition normalizeExprs (exprs : list Expr) : list Expr :=
  map normalizeExpr (sort exprCompareFn exprs).

(** The loop of [exprEqual] over the arguments of two applications of equal
    arity: [false] at the first pair that is not equal. *)
Fixpoint args_equal (equal : Expr -> Expr -> bool) (xs ys : list Expr) : bool :=
  match xs, ys with
  | x :: xs', y :: ys' =>
      if negb (equal x y) then false else args_equal equal xs' ys'
  | _, _ => true
  end.

(** [exprEqual]; [!bufferCompare(a, b)] is true when the comparison is 0. *)
Fixpoint exprEqual (a b : Expr) : bool :=
  match a, b with
  | App opa argsa _, App opb argsb _ =>
      if negb (length argsa =? length argsb)%nat then false
      else if negb (args_equal exprEqual argsa argsb) then false
      else opa =? opb
  | Var va, Var vb => va =? vb
  | Bytes ba, Bytes bb => bufferCompare ba bb =? 0
  | _, _ => false
  end.

(** [overlap(list1, list2)], on lists of numbers: "Returns true if at least
    1 element of the first list is present in the second list". *)
Fixpoint overlap (list1 list2 : list Z) : bool :=
  match list1 with
  | [] => false
  | e :: rest => if existsb (Z.eqb e) list2 then true else overlap rest list2
  end.

End Util.

(** ** The analyzer's effects: state and abrupt exits *)

(** A method of an object with state [S]: it either leaves by an [Abort]
    or returns a value and the mutated object. *)
Definition M (S A : Type) : Type := S -> Abort + (A * S).

Definition ret {S A} (x : A) : M S A := fun st => inr (x, st).

Definition bind {S A B} (m : M S A) (k : A -> M S B) : M S B :=
  fun st =>
    match m st with
    | inl a => inl a
    | inr (x, st') => k x st'
    end.

Definition get {S} : M S S := fun st => inr (st, st).

Definition modify {S} (f : S -> S) : M S unit := fun st => inr (tt, f st).

Definition abort {S A} (a : Abort) : M S A := fun _ => inl a.

Notation "x <- m ;; k" := (bind m (fun x => k))
  (at level 61, m at next level, right associativity).
Notation "m ;; k" := (bind m (fun _ => k))
  (at level 61, right associativity).

(** ** ScriptAnalyzer *)

Module ScriptAnalyzer.

(** The fields of an analyzer.  [script] is shared and never written, it is
    an argument of [analyze]; [branches], the shared registry every fork
    appends itself to, is the list [analyze] returns. *)
Record t := mk {
  version : ScriptVersion;
  rules : ScriptRules;
  stack : list Expr;
  altstack : list Expr;
  spendingConditions : list Expr;
  varCounter : Z;
  scriptOffset : Z;
  path : Z;
  cs : ConditionStack.t
}.

Definition with_stack (s : list Expr) (a : t) : t :=
  mk (version a) (rules a) s (altstack a) (spendingConditions a)
     (varCounter a) (scriptOffset a) (path a) (cs a).

Definition with_altstack (s : list Expr) (a : t) : t :=
  mk (version a) (rules a) (stack a) s (spendingConditions a)
     (varCounter a) (scriptOffset a) (path a) (cs a).

Definition with_spendingConditions (c : list Expr) (a : t) : t :=
  mk (version a) (rules a) (stack a) (altstack a) c
     (varCounter a) (scriptOffset a) (path a) (cs a).

Definition with_varCounter (n : Z) (a : t) : t :=
  mk (version a) (rules a) (stack a) (altstack a) (spendingConditions a)
     n (scriptOffset a) (path a) (cs a).

Definition with_scriptOffset (n : Z) (a : t) : t :=
  mk (version a) (rules a) (stack a) (altstack a) (spendingConditions a)
     (varCounter a) n (path a) (cs a).

Definition with_cs (c : ConditionStack.t) (a : t) : t :=
  mk (version a) (rules a) (stack a) (altstack a) (spendingConditions a)
     (varCounter a) (scriptOffset a) (path a) c.

(** [new ScriptAnalyzer(script)], with what [getScriptVersion()] and
    [getScriptRules()] answer. *)
Definition new (v : ScriptVersion) (r : ScriptRules) : t :=
  mk v r [] [] [] 0 0 0 ConditionStack.new.

(** [new ScriptAnalyzer(arg)] for an analyzer [arg]: the fork. *)
Definition fork_of (arg : t) : t :=
  mk (version arg) (rules arg) (stack arg) (altstack arg) (spendingConditions arg)
     (varCounter arg) (scriptOffset arg) (path arg + 1) (ConditionStack.clone (cs arg)).

(** [this.stack.push(e)], [this.stack.push(...es)] and the like. *)
Definition push (e : Expr) : M t unit :=
  modify (fun a => with_stack (stack a ++ [e]) a).

Definition push_all (es : list Expr) : M t unit :=
  modify (fun a => with_stack (stack a ++ es) a).

Definition push_alt (e : Expr) : M t unit :=
  modify (fun a => with_altstack (altstack a ++ [e]) a).

Definition push_condition (e : Expr) : M t unit :=
  modify (fun a => with_spendingConditions (spendingConditions a ++ [e]) a).

(** [fork.spendingConditions.push(e)] *)
Definition fork_push_condition (e : Expr) (fork : t) : t :=
  with_spendingConditions (spendingConditions fork ++ [e]) fork.

(** [elems[i]] where the array is known to hold more than [i] elements
    (see [takeElements_length] and [readElements_length]); the default is
    never read. *)
Definition at_index (elems : list Expr) (i : nat) : Expr := nth i elems (Bytes []).

(** [ScriptConv.Int.encode(n)] as a step of a method. *)
Definition encode (n : Z) : M t (list Z) :=
  fun a =>
    match ScriptConv.Int.encode n with
    | Some buf => inr (buf, a)
    | None => inl encode_diverges
    end.

(** The loop of [takeElements], with [n] rounds left. *)
Fixpoint takeElements_loop (n : nat) (res : list Expr) (a : t) : list Expr * t :=
  match n with
  | O => (res, a)
  | S n' =>
      match JS.pop (stack a) with
      | Some (x, rest) => takeElements_loop n' (x :: res) (with_stack rest a)
      | None =>
          takeElements_loop n' (Var (varCounter a) :: res)
            (with_varCounter (varCounter a + 1) a)
      end
  end.

Definition takeElements (amount : Z) : M t (list Expr) :=
  fun a => inr (takeElements_loop (Z.to_nat amount) [] a).

(** The loop [while (this.stack.length < amount) this.stack.unshift(...)].
    Every round lengthens the stack, so [amount] rounds of fuel are never
    used up (see [readElements_pad_done]). *)
Fixpoint readElements_pad (fuel : nat) (amount : Z) (a : t) : t :=
  match fuel with
  | O => a
  | S fuel' =>
      if Z.of_nat (length (stack a)) <? amount then
        readElements_pad fuel' amount
          (with_varCounter (varCounter a + 1)
             (with_stack (Var (varCounter a) :: stack a) a))
      else a
  end.

Definition readElements (amount : Z) : M t (list Expr) :=
  fun a =>
    let a' := readElements_pad (Z.to_nat amount) amount a in
    inr (JS.slice_from (Z.of_nat (length (stack a')) - amount) (stack a'), a').

(** OP_VERIFY *)
Definition verify : M t bool :=
  elems <- takeElements 1 ;;
  match at_index elems 0 with
  | Bytes elem =>
      if negb (ScriptConv.Bool.decode elem) then ret false else ret true
  | elem => push_condition elem ;; ret true
  end.

(** [None] is the method returning [undefined]. *)
Definition numFromStack (op : Z) : M t (option Z) :=
  elems <- takeElements 1 ;;
  match at_index elems 0 with
  | Bytes top =>
      if (length top <=? 4)%nat then ret (Some (ScriptConv.Int.decode top))
      else ret None
  | _ => abort (depth_not_concrete op)
  end.

(** How a case of the [switch] in [analyze] ends: with [break], after
    possibly having created a fork whose [analyze()] is then run, or with
    [return e]. *)
Inductive Flow :=
| Break (fork : option t)
| Return (e : ScriptError).

Definition break : M t Flow := ret (Break None).

Definition is_one_of (op : Z) (cases : list Z) : bool := existsb (Z.eqb op) cases.

(** [if (op === V && !this.verify()) return e; break;] *)
Definition verify_if (cond : bool) (e : ScriptError) : M t Flow :=
  if cond then
    ok <- verify ;;
    if negb ok then ret (Return e) else break
  else break.

Import opcodes.

(** The case [OP_IF] / [OP_NOTIF] of the [switch]. *)
Definition exec_if (fExec : bool) (op : Z) : M t Flow :=
  if fExec then
    this0 <- get ;;
    let minimalIf :=
      ScriptVersion_eqb (version this0) SEGWITV1 ||
      (ScriptVersion_eqb (version this0) SEGWITV0 && ScriptRules_eqb (rules this0) ALL) in
    elems <- takeElements 1 ;;
    let elem := at_index elems 0 in
    this1 <- get ;;
    let fork := fork_of this1 in
    modify (fun a => with_cs (ConditionStack.push_back (cs a) (op =? OP_IF)) a) ;;
    let fork := with_cs (ConditionStack.push_back (cs fork) (negb (op =? OP_IF))) fork in
    if minimalIf then
      let error := if ScriptVersion_eqb (version this0) SEGWITV1
                   then SCRIPT_ERR_TAPSCRIPT_MINIMALIF
                   else SCRIPT_ERR_MINIMALIF in
      push_condition (App OP_EQUAL [elem; Bytes ScriptConv.Bool.TRUE] (Some error)) ;;
      ret (Break (Some (fork_push_condition
                          (App OP_EQUAL [elem; Bytes ScriptConv.Bool.FALSE] (Some error))
                          fork)))
    else
      push_condition elem ;;
      ret (Break (Some (fork_push_condition (App INTERNAL_NOT [elem] None) fork)))
  else
    modify (fun a => with_cs (ConditionStack.push_back (cs a) false) a) ;;
    break.

(** The case [OP_ELSE]. *)
Definition exec_else : M t Flow :=
  this <- get ;;
  if ConditionStack.empty (cs this) then ret (Return SCRIPT_ERR_UNBALANCED_CONDITIONAL)
  else
    match ConditionStack.toggle_top (cs this) with
    | inl a => abort a
    | inr c => modify (with_cs c) ;; break
    end.

(** The case [OP_ENDIF]. *)
Definition exec_endif : M t Flow :=
  this <- get ;;
  if ConditionStack.empty (cs this) then ret (Return SCRIPT_ERR_UNBALANCED_CONDITIONAL)
  else
    match ConditionStack.pop_back (cs this) with
    | inl a => abort a
    | inr c => modify (with_cs c) ;; break
    end.

(** The case [OP_PICK] / [OP_ROLL]. *)
Definition exec_pick_roll (op : Z) : M t Flow :=
  index <- numFromStack op ;;
  match index with
  | None => ret (Return SCRIPT_ERR_NUM_OVERFLOW)
  | Some n =>
      if n <? 0 then ret (Return SCRIPT_ERR_INVALID_STACK_OPERATION)
      else
        elems <- readElements (n + 1) ;;
        let elem := at_index elems 0 in
        (if op =? OP_ROLL then
           modify (fun a =>
             with_stack (JS.splice1 (Z.of_nat (length (stack a)) - n - 1) (stack a)) a)
         else ret tt) ;;
        push elem ;;
        break
  end.

(** The case [OP_CHECKMULTISIG] / [OP_CHECKMULTISIGVERIFY]. *)
Definition exec_checkmultisig (op : Z) : M t Flow :=
  this <- get ;;
  if ScriptVersion_eqb (version this) SEGWITV1 then
    ret (Return SCRIPT_ERR_TAPSCRIPT_CHECKMULTISIG)
  else
    kcount <- numFromStack op ;;
    match kcount with
    | None => ret (Return SCRIPT_ERR_NUM_OVERFLOW)
    | Some k =>
        if (k <? 0) || (k >? 20) then ret (Return SCRIPT_ERR_PUBKEY_COUNT)
        else
          pks <- takeElements k ;;
          scount <- numFromStack op ;;
          match scount with
          | None => ret (Return SCRIPT_ERR_NUM_OVERFLOW)
          | Some s =>
              if (s <? 0) || (s >? k) then ret (Return SCRIPT_ERR_SIG_COUNT)
              else
                sigs <- takeElements s ;;
                dummies <- takeElements 1 ;;
                let dummy := at_index dummies 0 in
                push_condition
                  (App OP_EQUAL [dummy; Bytes ScriptConv.Bool.FALSE]
                     (Some SCRIPT_ERR_SIG_NULLDUMMY)) ;;
                es <- encode s ;;
                ek <- encode k ;;
                push (App OP_CHECKMULTISIG
                        (sigs ++ [Bytes es] ++ pks ++ [Bytes ek]) None) ;;
                verify_if (op =? OP_CHECKMULTISIGVERIFY) SCRIPT_ERR_CHECKMULTISIGVERIFY
          end
    end.

(** The [switch (op)] of [analyze], case by case in the order of the
    source. *)
Definition execOp (fExec : bool) (op : Z) : M t Flow :=
  if op =? OP_0 then
    push (Bytes (JS.Uint8Array [])) ;; break
  else if is_one_of op [OP_1; OP_2; OP_3; OP_4; OP_5; OP_6; OP_7; OP_8; OP_9;
                        OP_10; OP_11; OP_12; OP_13; OP_14; OP_15; OP_16] then
    push (Bytes (JS.Uint8Array [op - 0x50])) ;; break
  else if op =? OP_NOP then break
  else if is_one_of op [OP_IF; OP_NOTIF] then exec_if fExec op
  else if op =? OP_ELSE then exec_else
  else if op =? OP_ENDIF then exec_endif
  else if op =? OP_VERIFY then
    ok <- verify ;;
    if negb ok then ret (Return SCRIPT_ERR_VERIFY) else break
  else if op =? OP_RETURN then ret (Return SCRIPT_ERR_OP_RETURN)
  else if op =? OP_TOALTSTACK then
    elems <- takeElements 1 ;;
    push_alt (at_index elems 0) ;; break
  else if op =? OP_FROMALTSTACK then
    this <- get ;;
    match JS.pop (altstack this) with
    | None => ret (Return SCRIPT_ERR_INVALID_ALTSTACK_OPERATION)
    | Some (x, rest) => modify (with_altstack rest) ;; push x ;; break
    end
  else if op =? OP_2DROP then takeElements 2 ;; break
  else if op =? OP_2DUP then
    elems <- readElements 2 ;; push_all elems ;; break
  else if op =? OP_3DUP then
    elems <- readElements 3 ;; push_all elems ;; break
  else if op =? OP_2OVER then
    elems <- readElements 4 ;; push_all (JS.slice_to 2 elems) ;; break
  else if op =? OP_2ROT then
    elems <- takeElements 6 ;;
    push_all (JS.slice_from 2 elems ++ JS.slice_to 2 elems) ;; break
  else if op =? OP_2SWAP then
    elems <- takeElements 4 ;;
    push_all (JS.slice_from 2 elems ++ JS.slice_to 2 elems) ;; break
  else if op =? OP_IFDUP then
    elems <- readElements 1 ;;
    let elem := at_index elems 0 in
    this <- get ;;
    let fork := fork_of this in
    push_condition elem ;;
    push elem ;;
    ret (Break (Some (fork_push_condition (App INTERNAL_NOT [elem] None) fork)))
  else if op =? OP_DEPTH then
    this <- get ;;
    buf <- encode (Z.of_nat (length (stack this))) ;;
    push (Bytes buf) ;; break
  else if op =? OP_DROP then takeElements 1 ;; break
  else if op =? OP_DUP then
    elems <- readElements 1 ;; push (at_index elems 0) ;; break
  else if op =? OP_NIP then
    elems <- takeElements 2 ;; push (at_index elems 1) ;; break
  else if op =? OP_OVER then
    elems <- readElements 2 ;; push (at_index elems 0) ;; break
  else if is_one_of op [OP_PICK; OP_ROLL] then exec_pick_roll op
  else if op =? OP_ROT then
    elems <- takeElements 3 ;;
    push_all (JS.slice_from 1 elems ++ [at_index elems 0]) ;; break
  else if op =? OP_SWAP then
    elems <- takeElements 2 ;;
    push_all [at_index elems 1; at_index elems 0] ;; break
  else if op =? OP_TUCK then
    elems <- takeElements 2 ;;
    push_all (at_index elems 1 :: elems) ;; break
  else if op =? OP_SIZE then
    elems <- readElements 1 ;; push (App op elems None) ;; break
  else if is_one_of op [OP_EQUAL; OP_EQUALVERIFY] then
    elems <- takeElements 2 ;;
    push (App OP_EQUAL elems None) ;;
    verify_if (op =? OP_EQUALVERIFY) SCRIPT_ERR_EQUALVERIFY
  else if is_one_of op [OP_1ADD; OP_1SUB; OP_NEGATE; OP_ABS; OP_NOT; OP_0NOTEQUAL] then
    elems <- takeElements 1 ;; push (App op elems None) ;; break
  else if is_one_of op [OP_ADD; OP_SUB; OP_BOOLAND; OP_BOOLOR; OP_NUMEQUAL;
                        OP_NUMEQUALVERIFY; OP_NUMNOTEQUAL; OP_LESSTHAN;
                        OP_GREATERTHAN; OP_LESSTHANOREQUAL; OP_GREATERTHANOREQUAL;
                        OP_MIN; OP_MAX] then
    elems <- takeElements 2 ;;
    push (App (if op =? OP_NUMEQUALVERIFY then OP_NUMEQUAL else op) elems None) ;;
    verify_if (op =? OP_EQUALVERIFY) SCRIPT_ERR_NUMEQUALVERIFY
  else if op =? OP_WITHIN then
    elems <- takeElements 3 ;; push (App op elems None) ;; break
  else if is_one_of op [OP_RIPEMD160; OP_SHA1; OP_SHA256; OP_HASH160; OP_HASH256] then
    elems <- takeElements 1 ;; push (App op elems None) ;; break
  else if op =? OP_CODESEPARATOR then break
  else if is_one_of op [OP_CHECKSIG; OP_CHECKSIGVERIFY] then
    elems <- takeElements 2 ;;
    push (App OP_CHECKSIG elems None) ;;
    verify_if (op =? OP_CHECKSIGVERIFY) SCRIPT_ERR_CHECKSIGVERIFY
  else if is_one_of op [OP_CHECKMULTISIG; OP_CHECKMULTISIGVERIFY] then
    exec_checkmultisig op
  else if is_one_of op [OP_CHECKLOCKTIMEVERIFY; OP_CHECKSEQUENCEVERIFY] then
    elems <- readElements 1 ;; push_condition (App op elems None) ;; break
  else if is_one_of op [OP_NOP1; OP_NOP4; OP_NOP5; OP_NOP6; OP_NOP7; OP_NOP8;
                        OP_NOP9; OP_NOP10] then break
  else if op =? OP_CHECKSIGADD then
    this <- get ;;
    if ScriptVersion_value (version this) <? ScriptVersion_value SEGWITV1 then
      ret (Return SCRIPT_ERR_BAD_OPCODE)
    else
      elems <- takeElements 3 ;;
      let sig := at_index elems 0 in
      let n := at_index elems 1 in
      let pk := at_index elems 2 in
      push (App OP_ADD [n; App OP_CHECKSIG [sig; pk] None] None) ;; break
  else ret (Return SCRIPT_ERR_BAD_OPCODE).

(** What the loop body does with an item it does not skip. *)
Definition execItem (fExec : bool) (item : Item) : M t Flow :=
  match item with
  | Push data => push (Bytes data) ;; break
  | Op op => execOp fExec op
  end.

(** [op instanceof Uint8Array || op < opcodes.OP_IF || op > opcodes.OP_ENDIF]:
    what a branch that is not executing passes over. *)
Definition skipped_when_not_executing (item : Item) : bool :=
  match item with
  | Push _ => true
  | Op op => (op <? OP_IF) || (op >? OP_ENDIF)
  end.

(** What follows the loop of [analyze]; [None] is the method returning
    nothing. *)
Definition at_end_of_script : M t (option ScriptError) :=
  this <- get ;;
  if negb (ConditionStack.empty (cs this)) then
    ret (Some SCRIPT_ERR_UNBALANCED_CONDITIONAL)
  else if (1 <? length (stack this))%nat then ret (Some SCRIPT_ERR_CLEANSTACK)
  else
    ok <- verify ;;
    if negb ok then ret (Some SCRIPT_ERR_EVAL_FALSE) else ret None.

(** The outcome of a call of [analyze]: it returns ([returned] is the error
    code, [None] for no value), leaving the analyzer as [this] and having
    appended [registered] to [branches], the forks it created and theirs in
    the order of their creation; or it is left by an [Abort]. *)
Inductive Outcome :=
| Finished (returned : option ScriptError) (this : t) (registered : list t)
| Aborted (a : Abort).

(** The loop of [analyze] over the items from [scriptOffset] on.  A fork
    starts at the item after the one that created it, and its [analyze()]
    runs to its end before the creator goes on. *)
Fixpoint analyze_from (items : list Item) (this : t) : Outcome :=
  match items with
  | [] =>
      match at_end_of_script this with
      | inl a => Aborted a
      | inr (r, this') => Finished r this' []
      end
  | op :: items' =>
      let fExec := ConditionStack.all_true (cs this) in
      let this := with_scriptOffset (scriptOffset this + 1) this in
      if negb fExec && skipped_when_not_executing op then analyze_from items' this
      else
        match execItem fExec op this with
        | inl a => Aborted a
        | inr (Return e, this') => Finished (Some e) this' []
        | inr (Break fork, this') =>
            let forked :=
              match fork with
              | None => Finished None this' []
              | Some f =>
                  match analyze_from items' f with
                  | Finished r f' fs => Finished r this' (f' :: fs)
                  | Aborted a => Aborted a
                  end
              end in
            match forked with
            | Aborted a => Aborted a
            | Finished _ _ forks =>
                if (1000 <? length (stack this') + length (altstack this'))%nat then
                  Finished (Some SCRIPT_ERR_STACK_SIZE) this' forks
                else
                  match analyze_from items' this' with
                  | Finished r this'' fs => Finished r this'' (forks ++ fs)
                  | Aborted a => Aborted a
                  end
            end
        end
  end.

(** [ScriptAnalyzer.prototype.analyze]: the loop reads [script[scriptOffset]]
    onwards.  [scriptOffset] starts at 0 and only grows; the statements
    below that depend on it assume it is not negative. *)
Definition analyze (script : list Item) (this : t) : Outcome :=
  analyze_from (skipn (Z.to_nat (scriptOffset this)) script) this.

(** Disabled because of CVE-2010-5137 *)
Definition disabledOpcodes : list Z :=
  [OP_CAT; OP_SUBSTR; OP_LEFT; OP_RIGHT; OP_INVERT; OP_AND; OP_OR; OP_XOR;
   OP_2MUL; OP_2DIV; OP_MUL; OP_DIV; OP_MOD; OP_LSHIFT; OP_RSHIFT].

(** [ScriptAnalyzer.analyzeScript] up to the call of [cleanupConditions]:
    the pre-scan for disabled opcodes, then the root analysis. *)
Definition analyzeScript (v : ScriptVersion) (r : ScriptRules) (script : list Item)
  : ScriptError + Outcome :=
  if existsb (fun item => match item with
                          | Op op => is_one_of op disabledOpcodes
                          | Push _ => false
                          end) script
  then inl SCRIPT_ERR_DISABLED_OPCODE
  else inr (analyze script (new v r)).

End ScriptAnalyzer.

(** ** The classification of opcodes *)

Inductive OpcodeType :=
| DATA | NUMBER | CONSTANT | FLOW | STACK | SPLICE | BITWISE | ARITHMETIC
| CRYPTO | LOCKTIME | DISABLED | INVALID.

(** [opcodeType(op)] *)
Definition opcodeType (op : Z) : OpcodeType :=
  if ScriptAnalyzer.is_one_of op ScriptAnalyzer.disabledOpcodes then DISABLED
  else if ScriptAnalyzer.is_one_of op
            [opcodes.OP_VER; opcodes.OP_VERIF; opcodes.OP_VERNOTIF] then INVALID
  else if (op >=? 0) && (op <=? opcodes.OP_PUSHDATA4) then CONSTANT
  else if (op >=? opcodes.OP_NOP) && (op <=? opcodes.OP_RETURN) then FLOW
  else if (op >=? opcodes.OP_TOALTSTACK) && (op <=? opcodes.OP_TUCK) then STACK
  else if (op >=? opcodes.OP_CAT) && (op <=? opcodes.OP_SIZE) then SPLICE
  else if (op >=? opcodes.OP_INVERT) && (op <=? opcodes.OP_EQUALVERIFY) then BITWISE
  else if (op >=? opcodes.OP_1ADD) && (op <=? opcodes.OP_WITHIN) then ARITHMETIC
  else if ((op >=? opcodes.OP_RIPEMD160) && (op <=? opcodes.OP_CHECKMULTISIGVERIFY))
          || (op =? opcodes.OP_CHECKSIGADD) then CRYPTO
  else if (op >=? opcodes.OP_CHECKLOCKTIMEVERIFY)
          && (op <=? opcodes.OP_CHECKSEQUENCEVERIFY) then LOCKTIME
  else INVALID.

(** ** Vocabulary of the statements *)

(** A well-formed element of a [Uint8Array]. *)
Definition is_byte (b : Z) : Prop := 0 <= b < 256.

(** The number a little-endian magnitude stands for. *)
Fixpoint le_value (bs : list Z) : Z :=
  match bs with
  | [] => 0
  | b :: rest => b + 256 * le_value rest
  end.

(** The variables drawn when [count] slots are missing and the counter
    stands at [first], listed bottom to top: the slot nearest the top holds
    [Var first], the one below it [Var (first + 1)], and so on. *)
Fixpoint fresh_vars (first : Z) (count : nat) : list Expr :=
  match count with
  | O => []
  | S count' => fresh_vars (first + 1) count' ++ [Var first]
  end.

(** The two exceptions of [ConditionStack]. *)
Definition cs_throw (ab : Abort) : Prop :=
  ab = pop_back_stack_size \/ ab = toggle_top_stack_size.

(** The size of the implied condition stack is not negative: true of a new
    analyzer and kept by every operation. *)
Definition cs_sound (a : ScriptAnalyzer.t) : Prop :=
  0 <= ConditionStack.m_stack_size (ScriptAnalyzer.cs a).

(** A method keeps [cs_sound], returns values satisfying [Q], and is not left
    by an exception of [ConditionStack]. *)
Definition keeps {A} (m : M ScriptAnalyzer.t A) (Q : A -> Prop) : Prop :=
  forall a, cs_sound a ->
    match m a with
    | inl ab => ~ cs_throw ab
    | inr (x, a') => cs_sound a' /\ Q x
    end.

(** A fork handed to the loop is sound as well. *)
Definition flow_sound (fl : ScriptAnalyzer.Flow) : Prop :=
  match fl with
  | ScriptAnalyzer.Break (Some f) => cs_sound f
  | _ => True
  end.

(** The value of the comparison of two applications, once opcodes and
    arities are equal. *)
Definition args_order (xs ys : list Expr) : Z :=
  match Util.args_compare Util.exprCompareFn xs ys with
  | Some s_1 => s_1
  | None => 0
  end.

(** What makes [exprCompareFn] a consistent comparator, at one first
    argument. *)
Definition antisym_at (a : Expr) : Prop :=
  forall b,
    (Util.exprCompareFn a b < 0 <-> 0 < Util.exprCompareFn b a) /\
    (Util.exprCompareFn a b = 0 <-> Util.exprCompareFn b a = 0).

Definition trans_at (a : Expr) : Prop :=
  forall b c,
    Util.exprCompareFn a b <= 0 -> Util.exprCompareFn b c <= 0 ->
    Util.exprCompareFn a c <= 0 /\
    (Util.exprCompareFn a b < 0 \/ Util.exprCompareFn b c < 0 -> Util.exprCompareFn a c < 0).

(** An expression without its error tags. *)
Fixpoint erase_error (e : Expr) : Expr :=
  match e with
  | App opcode args _ => App opcode (map erase_error args) None
  | _ => e
  end.

(** Induction over expressions that reaches the arguments of an
    application. *)
Fixpoint Expr_nested_ind (P : Expr -> Prop)
  (HBytes : forall buf, P (Bytes buf))
  (HVar : forall var, P (Var var))
  (HApp : forall opcode args error, Forall P args -> P (App opcode args error))
  (e : Expr) : P e :=
  match e with
  | Bytes buf => HBytes buf
  | Var var => HVar var
  | App opcode args error =>
      HApp opcode args error
        ((fix all (l : list Expr) : Forall P l :=
            match l with
            | [] => Forall_nil P
            | x :: l' => Forall_cons x (Expr_nested_ind P HBytes HVar HApp x) (all l')
            end) args)
  end.

(** A stretch of script that closes every conditional it opens, [depth]
    being the number of conditionals open at its start, and that holds
    neither OP_VERIF nor OP_VERNOTIF; OP_ELSE and OP_ENDIF occur only inside
    a conditional of the stretch (or, for positive [depth], of the
    conditionals open at its start). *)
Fixpoint well_nested (depth : nat) (items : list Item) : bool :=
  match items with
  | [] => (depth =? 0)%nat
  | Push _ :: items' => well_nested depth items'
  | Op op :: items' =>
      if (op =? opcodes.OP_IF) || (op =? opcodes.OP_NOTIF) then well_nested (S depth) items'
      else if op =? opcodes.OP_ELSE then
        match depth with O => false | S _ => well_nested depth items' end
      else if op =? opcodes.OP_ENDIF then
        match depth with O => false | S depth' => well_nested depth' items' end
      else if (op =? opcodes.OP_VERIF) || (op =? opcodes.OP_VERNOTIF) then false
      else well_nested depth items'
  end.

(** A method keeps the invariant [I], returns values satisfying [Q], and is
    left only by exceptions satisfying [E]. *)
Definition holds (I : ScriptAnalyzer.t -> Prop) (E : Abort -> Prop) {A}
  (m : M ScriptAnalyzer.t A) (Q : A -> Prop) : Prop :=
  forall a, I a ->
    match m a with
    | inl ab => E ab
    | inr (x, a') => I a' /\ Q x
    end.

(** The error codes behind a [return] in the [switch] of [analyze] that can
    be reached. *)
Definition switch_errors : list ScriptError :=
  [SCRIPT_ERR_UNBALANCED_CONDITIONAL; SCRIPT_ERR_VERIFY; SCRIPT_ERR_OP_RETURN;
   SCRIPT_ERR_INVALID_ALTSTACK_OPERATION; SCRIPT_ERR_NUM_OVERFLOW;
   SCRIPT_ERR_INVALID_STACK_OPERATION; SCRIPT_ERR_TAPSCRIPT_CHECKMULTISIG;
   SCRIPT_ERR_PUBKEY_COUNT; SCRIPT_ERR_SIG_COUNT; SCRIPT_ERR_BAD_OPCODE].

(** Those and the ones behind the [return]s after the [switch] and after
    the loop. *)
Definition analyze_errors : list ScriptError :=
  switch_errors ++ [SCRIPT_ERR_STACK_SIZE; SCRIPT_ERR_CLEANSTACK; SCRIPT_ERR_EVAL_FALSE].

(** What the flow of a case may be when only the codes of [switch_errors]
    are returned. *)
Definition flow_errors (fl : ScriptAnalyzer.Flow) : Prop :=
  match fl with
  | ScriptAnalyzer.Return e => In e switch_errors
  | ScriptAnalyzer.Break _ => True
  end.

(** The fields no case of the [switch] assigns: [version], [rules], [path]
    and, within one round of the loop, [scriptOffset]. *)
Definition same_frame (a b : ScriptAnalyzer.t) : Prop :=
  ScriptAnalyzer.version b = ScriptAnalyzer.version a /\
  ScriptAnalyzer.rules b = ScriptAnalyzer.rules a /\
  ScriptAnalyzer.path b = ScriptAnalyzer.path a /\
  ScriptAnalyzer.scriptOffset b = ScriptAnalyzer.scriptOffset a.

(** A fork made in a round of the loop of [a]: one level deeper, at the same
    offset. *)
Definition flow_frame (a : ScriptAnalyzer.t) (fl : ScriptAnalyzer.Flow) : Prop :=
  match fl with
  | ScriptAnalyzer.Break (Some f) =>
      ScriptAnalyzer.version f = ScriptAnalyzer.version a /\
      ScriptAnalyzer.rules f = ScriptAnalyzer.rules a /\
      ScriptAnalyzer.path f = ScriptAnalyzer.path a + 1 /\
      ScriptAnalyzer.scriptOffset f = ScriptAnalyzer.scriptOffset a
  | _ => True
  end.

(** A fork registered during the analysis of [a]. *)
Definition registered_by (a f : ScriptAnalyzer.t) : Prop :=
  ScriptAnalyzer.version f = ScriptAnalyzer.version a /\
  ScriptAnalyzer.rules f = ScriptAnalyzer.rules a /\
  ScriptAnalyzer.path a < ScriptAnalyzer.path f /\
  ScriptAnalyzer.scriptOffset a < ScriptAnalyzer.scriptOffset f.

(** The opcodes that read a count or an index from the stack with
    [numFromStack]. *)
Definition depth_ops : list Z :=
  [opcodes.OP_PICK; opcodes.OP_ROLL; opcodes.OP_CHECKMULTISIG;
   opcodes.OP_CHECKMULTISIGVERIFY].

(** The exception of [numFromStack], thrown for one of [depth_ops]. *)
Definition depth_throw (ab : Abort) : Prop :=
  exists op, In op depth_ops /\ ab = depth_not_concrete op.

(** A case that hands no fork to the loop. *)
Definition no_fork (fl : ScriptAnalyzer.Flow) : Prop :=
  match fl with
  | ScriptAnalyzer.Break (Some _) => False
  | _ => True
  end.

(** Every variable of [e] has an index below [n]. *)
Fixpoint vars_below (n : Z) (e : Expr) : bool :=
  match e with
  | Bytes _ => true
  | Var var => var <? n
  | App _ args _ => forallb (vars_below n) args
  end.

Definition all_below (n : Z) (es : list Expr) : Prop :=
  Forall (fun e => vars_below n e = true) es.

(** The variables on the stacks and in the spending conditions were all
    drawn from the counter: their indices are below [varCounter], so the
    next variable drawn occurs nowhere yet. *)
Definition fresh_state (a : ScriptAnalyzer.t) : Prop :=
  all_below (ScriptAnalyzer.varCounter a) (ScriptAnalyzer.stack a) /\
  all_below (ScriptAnalyzer.varCounter a) (ScriptAnalyzer.altstack a) /\
  all_below (ScriptAnalyzer.varCounter a) (ScriptAnalyzer.spendingConditions a).

(** Run from a state that is fresh with the counter at [n], a method leaves
    a fresh state, does not lower the counter, and returns a value
    satisfying [Q] at the counter it leaves. *)
Definition keeps_fresh (n : Z) {A} (m : M ScriptAnalyzer.t A) (Q : Z -> A -> Prop) : Prop :=
  forall a, fresh_state a -> ScriptAnalyzer.varCounter a = n ->
    match m a with
    | inl _ => True
    | inr (x, a') => fresh_state a' /\ n <= ScriptAnalyzer.varCounter a' /\
                     Q (ScriptAnalyzer.varCounter a') x
    end.

(** A fork handed to the loop is fresh and its counter is not below [n]. *)
Definition flow_fresh (n : Z) (fl : ScriptAnalyzer.Flow) : Prop :=
  match fl with
  | ScriptAnalyzer.Break (Some f) => fresh_state f /\ n <= ScriptAnalyzer.varCounter f
  | _ => True
  end.

(** The [case] labels of the [switch] in [analyze], in the order of the
    source. *)
Definition switch_cases : list Z :=
  [opcodes.OP_0;
   opcodes.OP_1; opcodes.OP_2; opcodes.OP_3; opcodes.OP_4; opcodes.OP_5; opcodes.OP_6;
   opcodes.OP_7; opcodes.OP_8; opcodes.OP_9; opcodes.OP_10; opcodes.OP_11; opcodes.OP_12;
   opcodes.OP_13; opcodes.OP_14; opcodes.OP_15; opcodes.OP_16;
   opcodes.OP_NOP; opcodes.OP_IF; opcodes.OP_NOTIF; opcodes.OP_ELSE; opcodes.OP_ENDIF;
   opcodes.OP_VERIFY; opcodes.OP_RETURN; opcodes.OP_TOALTSTACK; opcodes.OP_FROMALTSTACK;
   opcodes.OP_2DROP; opcodes.OP_2DUP; opcodes.OP_3DUP; opcodes.OP_2OVER; opcodes.OP_2ROT;
   opcodes.OP_2SWAP; opcodes.OP_IFDUP; opcodes.OP_DEPTH; opcodes.OP_DROP; opcodes.OP_DUP;
   opcodes.OP_NIP; opcodes.OP_OVER; opcodes.OP_PICK; opcodes.OP_ROLL; opcodes.OP_ROT;
   opcodes.OP_SWAP; opcodes.OP_TUCK; opcodes.OP_SIZE; opcodes.OP_EQUAL;
   opcodes.OP_EQUALVERIFY;
   opcodes.OP_1ADD; opcodes.OP_1SUB; opcodes.OP_NEGATE; opcodes.OP_ABS; opcodes.OP_NOT;
   opcodes.OP_0NOTEQUAL;
   opcodes.OP_ADD; opcodes.OP_SUB; opcodes.OP_BOOLAND; opcodes.OP_BOOLOR;
   opcodes.OP_NUMEQUAL; opcodes.OP_NUMEQUALVERIFY; opcodes.OP_NUMNOTEQUAL;
   opcodes.OP_LESSTHAN; opcodes.OP_GREATERTHAN; opcodes.OP_LESSTHANOREQUAL;
   opcodes.OP_GREATERTHANOREQUAL; opcodes.OP_MIN; opcodes.OP_MAX;
   opcodes.OP_WITHIN;
   opcodes.OP_RIPEMD160; opcodes.OP_SHA1; opcodes.OP_SHA256; opcodes.OP_HASH160;
   opcodes.OP_HASH256;
   opcodes.OP_CODESEPARATOR; opcodes.OP_CHECKSIG; opcodes.OP_CHECKSIGVERIFY;
   opcodes.OP_CHECKMULTISIG; opcodes.OP_CHECKMULTISIGVERIFY;
   opcodes.OP_CHECKLOCKTIMEVERIFY; opcodes.OP_CHECKSEQUENCEVERIFY;
   opcodes.OP_NOP1; opcodes.OP_NOP4; opcodes.OP_NOP5; opcodes.OP_NOP6; opcodes.OP_NOP7;
   opcodes.OP_NOP8; opcodes.OP_NOP9; opcodes.OP_NOP10;
   opcodes.OP_CHECKSIGADD].

(** The types [opcodeType] gives to the opcodes that operate on the
    stacks. *)
Definition is_operation_type (t : OpcodeType) : bool :=
  match t with
  | FLOW | STACK | SPLICE | BITWISE | ARITHMETIC | CRYPTO | LOCKTIME => true
  | _ => false
  end.

(** The opcodes whose case pushes the application of the opcode to the one
    element taken, and those whose case pushes its application to the two
    elements taken and does nothing else. *)
Definition unary_ops : list Z :=
  [opcodes.OP_1ADD; opcodes.OP_1SUB; opcodes.OP_NEGATE; opcodes.OP_ABS; opcodes.OP_NOT;
   opcodes.OP_0NOTEQUAL; opcodes.OP_RIPEMD160; opcodes.OP_SHA1; opcodes.OP_SHA256;
   opcodes.OP_HASH160; opcodes.OP_HASH256].

Definition binary_ops : list Z :=
  [opcodes.OP_EQUAL; opcodes.OP_ADD; opcodes.OP_SUB; opcodes.OP_BOOLAND; opcodes.OP_BOOLOR;
   opcodes.OP_NUMEQUAL; opcodes.OP_NUMNOTEQUAL; opcodes.OP_LESSTHAN;
   opcodes.OP_GREATERTHAN; opcodes.OP_LESSTHANOREQUAL; opcodes.OP_GREATERTHANOREQUAL;
   opcodes.OP_MIN; opcodes.OP_MAX; opcodes.OP_CHECKSIG].

(** The items whose case creates a fork: OP_IF, OP_NOTIF and OP_IFDUP. *)
Definition forking (item : Item) : bool :=
  match item with
  | Op op => ScriptAnalyzer.is_one_of op [opcodes.OP_IF; opcodes.OP_NOTIF; opcodes.OP_IFDUP]
  | Push _ => false
  end.

(* ================================================================== *)
(** * Properties *)
(* ================================================================== *)

(** ** JavaScript operators on small values *)

Lemma ToInt32_small (z : Z) : - 2 ^ 31 <= z < 2 ^ 31 -> JS.ToInt32 z = z.
Proof.
  intros H. unfold JS.ToInt32.
  rewrite Z.mod_small; lia.
Qed.

Lemma last_elem_snoc {A} (l : list A) (x : A) : JS.last_elem (l ++ [x]) = Some x.
Proof. unfold JS.last_elem. now rewrite rev_app_distr. Qed.

Lemma set_last_snoc {A} (l : list A) (x y : A) : JS.set_last (l ++ [x]) y = l ++ [y].
Proof.
  unfold JS.set_last. destruct (l ++ [x]) eqn:E.
  - now destruct l.
  - rewrite <- E. now rewrite removelast_last.
Qed.

Lemma pop_snoc {A} (l : list A) (x : A) : JS.pop (l ++ [x]) = Some (x, l).
Proof. unfold JS.pop. rewrite rev_app_distr. simpl. now rewrite rev_involutive. Qed.

Lemma pop_nil {A} : JS.pop (@nil A) = None.
Proof. reflexivity. Qed.

Lemma bytes_all (P : Z -> bool) :
  forallb P (map Z.of_nat (seq 0 256)) = true ->
  forall b, 0 <= b < 256 -> P b = true.
Proof.
  intros H b Hb. rewrite forallb_forall in H. apply H.
  apply in_map_iff. exists (Z.to_nat b). split; [lia|].
  apply in_seq. lia.
Qed.

Lemma and_0x80 (b : Z) : 0 <= b < 256 ->
  JS.and b 0x80 = if b <? 128 then 0 else 128.
Proof.
  intros Hb. apply Z.eqb_eq.
  apply (bytes_all (fun b => JS.and b 0x80 =? (if b <? 128 then 0 else 128))); [|exact Hb].
  vm_compute. reflexivity.
Qed.

Lemma and_0x7f (b : Z) : 0 <= b < 256 ->
  JS.and b 0x7f = if b <? 128 then b else b - 128.
Proof.
  intros Hb. apply Z.eqb_eq.
  apply (bytes_all (fun b => JS.and b 0x7f =? (if b <? 128 then b else b - 128))); [|exact Hb].
  vm_compute. reflexivity.
Qed.

Lemma or_0x80 (b : Z) : 0 <= b < 128 -> JS.or b 0x80 = b + 128.
Proof.
  intros Hb.
  assert (G : (128 <=? b) || (JS.or b 0x80 =? b + 128) = true).
  { apply (bytes_all (fun b => (128 <=? b) || (JS.or b 0x80 =? b + 128)));
      [vm_compute; reflexivity | lia]. }
  apply orb_true_iff in G. destruct G as [G|G]; [apply Z.leb_le in G; lia | now apply Z.eqb_eq].
Qed.

Lemma and_0xff (a : Z) : 0 <= a < 2 ^ 31 -> JS.and a 0xff = a mod 256.
Proof.
  intros Ha. unfold JS.and.
  rewrite (ToInt32_small a) by lia. rewrite (ToInt32_small 255) by lia.
  change 255 with (Z.ones 8). rewrite Z.land_ones by lia. reflexivity.
Qed.

Lemma sar_8 (a : Z) : - 2 ^ 31 <= a < 2 ^ 31 -> JS.sar a 8 = a / 256.
Proof.
  intros Ha. unfold JS.sar. rewrite ToInt32_small by lia.
  change (8 mod 32) with 8. rewrite Z.shiftr_div_pow2 by lia. reflexivity.
Qed.

Lemma lor_disjoint (k x y : Z) :
  0 <= k -> 0 <= x < 2 ^ k -> 0 <= y -> Z.lor x (y * 2 ^ k) = x + y * 2 ^ k.
Proof.
  intros Hk Hx Hy.
  assert (D : Z.land x (y * 2 ^ k) = 0).
  { apply Z.bits_inj'. intros m Hm. rewrite Z.land_spec, Z.bits_0.
    destruct (Z.ltb_spec m k).
    - rewrite Z.mul_pow2_bits_low by lia. apply andb_false_r.
    - destruct (Z.eq_dec x 0) as [->|Hx0]; [now rewrite Z.bits_0|].
      assert (2 ^ k <= 2 ^ m) by (apply Z.pow_le_mono_r; lia).
      rewrite (Z.bits_above_log2 x m); [reflexivity | lia |].
      apply Z.log2_lt_pow2; lia. }
  rewrite <- Z.lxor_lor by exact D.
  symmetry. apply Z.add_nocarry_lxor. exact D.
Qed.

(** ** The integer codec *)

Lemma last_elem_cons {A} (x y : A) (l : list A) :
  JS.last_elem (x :: y :: l) = JS.last_elem (y :: l).
Proof.
  destruct (exists_last (l:=y :: l)) as (init & z & E); [discriminate|].
  rewrite E. change (x :: init ++ [z]) with ((x :: init) ++ [z]).
  now rewrite !last_elem_snoc.
Qed.

Lemma le_value_app (xs ys : list Z) :
  le_value (xs ++ ys) = le_value xs + 256 ^ Z.of_nat (length xs) * le_value ys.
Proof.
  induction xs as [|x xs IH].
  - cbn [app le_value length]. change (Z.of_nat 0) with 0. rewrite Z.pow_0_r. lia.
  - cbn [app le_value length]. rewrite IH.
    rewrite Nat2Z.inj_succ, Z.pow_succ_r by lia. ring.
Qed.

Lemma le_value_nonneg (bs : list Z) : Forall is_byte bs -> 0 <= le_value bs.
Proof.
  induction 1 as [|b bs Hb _ IH]; cbn [le_value]; [lia|]. unfold is_byte in Hb. lia.
Qed.

Lemma Uint8Array_bytes (bs : list Z) : Forall is_byte bs -> JS.Uint8Array bs = bs.
Proof.
  unfold JS.Uint8Array.
  induction 1 as [|b bs Hb _ IH]; cbn [map]; [reflexivity|].
  rewrite IH. rewrite Z.mod_small by exact Hb. reflexivity.
Qed.

Lemma shl_byte (b i : Z) :
  0 <= i <= 3 -> 0 <= b < 256 -> (i = 3 -> b < 128) ->
  JS.shl b (i * 8) = b * 2 ^ (8 * i) /\ 0 <= b * 2 ^ (8 * i) < 2 ^ 31.
Proof.
  intros Hi Hb Htop. unfold JS.shl.
  rewrite (ToInt32_small b) by lia.
  replace ((i * 8) mod 32) with (8 * i) by (rewrite Z.mod_small; lia).
  rewrite Z.shiftl_mul_pow2 by lia.
  assert (C : i = 0 \/ i = 1 \/ i = 2 \/ i = 3) by lia.
  destruct C as [-> | [-> | [-> | ->]]].
  - change (2 ^ (8 * 0)) with 1. rewrite ToInt32_small by lia. lia.
  - change (2 ^ (8 * 1)) with 256. rewrite ToInt32_small by lia. lia.
  - change (2 ^ (8 * 2)) with 65536. rewrite ToInt32_small by lia. lia.
  - specialize (Htop eq_refl).
    change (2 ^ (8 * 3)) with 16777216. rewrite ToInt32_small by lia. lia.
Qed.

(** The decoding loop reads a magnitude of at most four bytes, the fourth
    below 128, as its little-endian value. *)
Lemma decode_loop_spec (bs : list Z) : forall i n,
  0 <= i ->
  Forall is_byte bs ->
  i + Z.of_nat (length bs) <= 4 ->
  (i + Z.of_nat (length bs) = 4 -> forall top, JS.last_elem bs = Some top -> top < 128) ->
  0 <= n < 2 ^ (8 * i) ->
  ScriptConv.Int.decode_loop i bs n = n + 2 ^ (8 * i) * le_value bs.
Proof.
  induction bs as [|b r IH]; intros i n Hi Hbs Hlen Htop Hn.
  - simpl. lia.
  - cbn [ScriptConv.Int.decode_loop le_value].
    inversion Hbs as [|? ? Hb Hr]; subst. unfold is_byte in Hb.
    cbn [length] in Hlen, Htop. rewrite Nat2Z.inj_succ in Hlen, Htop.
    assert (Hi3 : i = 3 -> b < 128).
    { intros ->. destruct r; [|cbn [length] in Hlen; lia].
      apply Htop; [simpl; lia | reflexivity]. }
    destruct (shl_byte b i ltac:(lia) Hb Hi3) as [-> Hrange].
    assert (Hpow : 2 ^ (8 * i) <= 2 ^ 24) by (apply Z.pow_le_mono_r; lia).
    assert (Hstep : 2 ^ (8 * (i + 1)) = 256 * 2 ^ (8 * i)).
    { replace (8 * (i + 1)) with (8 + 8 * i) by lia.
      rewrite Z.pow_add_r by lia. reflexivity. }
    unfold JS.or. rewrite (ToInt32_small n), ToInt32_small by lia.
    rewrite lor_disjoint by lia.
    assert (Htop' : i + 1 + Z.of_nat (length r) = 4 ->
                    forall top, JS.last_elem r = Some top -> top < 128).
    { intros E top Htopr. apply Htop; [lia|].
      destruct r as [|y r']; [discriminate|]. now rewrite last_elem_cons. }
    assert (Hn' : 0 <= n + b * 2 ^ (8 * i) < 2 ^ (8 * (i + 1))).
    { rewrite Hstep. nia. }
    rewrite (IH (i + 1) (n + b * 2 ^ (8 * i)) ltac:(lia) Hr ltac:(lia) Htop' Hn').
    rewrite Hstep. ring.
Qed.

(** The encoding loop, on a magnitude below [2^31] that fits [k] bytes,
    stops within [k] rounds and appends the little-endian bytes. *)
Lemma encode_loop_spec (k : nat) : forall fuel a buf,
  0 <= a < 2 ^ (8 * Z.of_nat k) -> a < 2 ^ 31 -> (k < fuel)%nat ->
  exists bs, ScriptConv.Int.encode_loop fuel a buf = Some (buf ++ bs)
             /\ le_value bs = a /\ Forall is_byte bs /\ (length bs <= k)%nat.
Proof.
  induction k as [|k IH]; intros fuel a buf Ha H31 Hfuel.
  - change (2 ^ (8 * Z.of_nat 0)) with 1 in Ha. assert (a = 0) by lia. subst a.
    destruct fuel; [lia|]. exists []. simpl. rewrite app_nil_r. repeat split; auto.
  - destruct fuel as [|fuel]; [lia|]. cbn [ScriptConv.Int.encode_loop].
    destruct (Z.eqb_spec a 0) as [->|Hnz].
    + exists []. simpl. rewrite app_nil_r. repeat split; auto. lia.
    + rewrite sar_8, and_0xff by lia.
      assert (Hstep : 2 ^ (8 * Z.of_nat (S k)) = 256 * 2 ^ (8 * Z.of_nat k)).
      { replace (8 * Z.of_nat (S k)) with (8 + 8 * Z.of_nat k) by lia.
        rewrite Z.pow_add_r by lia. reflexivity. }
      assert (Hdiv : 0 <= a / 256 < 2 ^ (8 * Z.of_nat k)).
      { split; [apply Z.div_pos; lia|]. apply Z.div_lt_upper_bound; lia. }
      assert (Hdiv31 : a / 256 < 2 ^ 31).
      { apply Z.div_lt_upper_bound; lia. }
      destruct (IH fuel (a / 256) (buf ++ [a mod 256]) Hdiv Hdiv31 ltac:(lia))
        as (bs & E & Hv & Hb & Hl).
      exists ((a mod 256) :: bs). rewrite E, <- app_assoc.
      cbn [app le_value length]. split; [reflexivity|]. split; [|split].
      * rewrite Hv. pose proof (Z.div_mod a 256 ltac:(lia)). lia.
      * constructor; [|exact Hb]. unfold is_byte. apply Z.mod_pos_bound. lia.
      * lia.
Qed.

Lemma ToInt32_range (z : Z) : - 2 ^ 31 <= JS.ToInt32 z < 2 ^ 31.
Proof.
  unfold JS.ToInt32.
  pose proof (Z.mod_pos_bound (z + 2 ^ 31) (2 ^ 32) ltac:(lia)). lia.
Qed.

Lemma sar_8_range (a : Z) : - 2 ^ 23 <= JS.sar a 8 < 2 ^ 23.
Proof.
  unfold JS.sar. change (8 mod 32) with 8.
  rewrite Z.shiftr_div_pow2 by lia. pose proof (ToInt32_range a).
  change (2 ^ 8) with 256. split.
  - apply Z.div_le_lower_bound; lia.
  - apply Z.div_lt_upper_bound; lia.
Qed.

Lemma encode_loop_S (fuel : nat) (a : Z) (buf : list Z) :
  ScriptConv.Int.encode_loop (S fuel) a buf =
  if a =? 0 then Some buf
  else ScriptConv.Int.encode_loop fuel (JS.sar a 8) (buf ++ [JS.and a 0xff]).
Proof. reflexivity. Qed.

Lemma encode_loop_more_fuel (fuel : nat) : forall a buf r fuel',
  ScriptConv.Int.encode_loop fuel a buf = Some r -> (fuel <= fuel')%nat ->
  ScriptConv.Int.encode_loop fuel' a buf = Some r.
Proof.
  induction fuel as [|fuel IH]; intros a buf r fuel' H Hle; [discriminate|].
  destruct fuel' as [|fuel']; [lia|].
  cbn [ScriptConv.Int.encode_loop] in *.
  destruct (a =? 0); [exact H|]. apply (IH _ _ _ _ H). lia.
Qed.

(** Once [abs] is a negative 32-bit integer the loop never stops. *)
Lemma encode_loop_diverges (fuel : nat) : forall x buf,
  - 2 ^ 31 <= x < 0 -> ScriptConv.Int.encode_loop fuel x buf = None.
Proof.
  induction fuel as [|fuel IH]; intros x buf Hx; [reflexivity|].
  cbn [ScriptConv.Int.encode_loop].
  destruct (Z.eqb_spec x 0); [lia|].
  apply IH. rewrite sar_8 by lia. split.
  - apply Z.div_le_lower_bound; lia.
  - apply Z.div_lt_upper_bound; lia.
Qed.

(** Five rounds decide the loop from any start: more fuel never changes
    the answer. *)
Lemma encode_loop_enough (fuel : nat) (a : Z) (buf : list Z) :
  (5 <= fuel)%nat ->
  ScriptConv.Int.encode_loop fuel a buf = ScriptConv.Int.encode_loop 5 a buf.
Proof.
  intros Hf. destruct fuel as [|fuel]; [lia|].
  rewrite (encode_loop_S fuel), (encode_loop_S 4).
  destruct (a =? 0); [reflexivity|].
  pose proof (sar_8_range a) as R.
  destruct (Z.ltb_spec (JS.sar a 8) 0) as [Hneg|Hpos].
  - rewrite !encode_loop_diverges by lia. reflexivity.
  - destruct (encode_loop_spec 3 4 (JS.sar a 8) (buf ++ [JS.and a 255]))
      as (bs & E & _); [change (2 ^ (8 * Z.of_nat 3)) with (2 ^ 24); lia | lia | lia |].
    rewrite E. apply (encode_loop_more_fuel 4); [exact E | lia].
Qed.

Lemma encode_fuel_decided (fuel : nat) (n : Z) :
  (5 <= fuel)%nat -> ScriptConv.Int.encode_fuel fuel n = ScriptConv.Int.encode n.
Proof.
  intros Hf. unfold ScriptConv.Int.encode, ScriptConv.Int.encode_fuel.
  rewrite (encode_loop_enough fuel) by exact Hf.
  rewrite (encode_loop_enough 6) by lia. reflexivity.
Qed.

Lemma decode_loop_snoc (init : list Z) (L : Z) :
  Forall is_byte init -> 0 <= L < 128 -> (length init <= 3)%nat ->
  ScriptConv.Int.decode_loop 0 (init ++ [L]) 0 = le_value (init ++ [L]).
Proof.
  intros Hinit HL Hlen.
  assert (Hb : Forall is_byte (init ++ [L])).
  { apply Forall_app; split; [exact Hinit | constructor; [unfold is_byte; lia | constructor]]. }
  assert (Hl : 0 + Z.of_nat (length (init ++ [L])) <= 4).
  { rewrite length_app. cbn [length]. lia. }
  assert (Ht : 0 + Z.of_nat (length (init ++ [L])) = 4 ->
               forall top, JS.last_elem (init ++ [L]) = Some top -> top < 128).
  { intros _ top Ht. rewrite last_elem_snoc in Ht. injection Ht as <-. lia. }
  rewrite (decode_loop_spec _ 0 0 ltac:(lia) Hb Hl Ht) by (change (2 ^ (8 * 0)) with 1; lia).
  change (2 ^ (8 * 0)) with 1. lia.
Qed.

(** C8. Codec round trip: for every integer [n] with [|n| <= 0x7fffffff],
    [Int.encode n] returns a buffer and [Int.decode] reads [n] back from it. *)
Theorem C8_int_decode_encode (n : Z) :
  Z.abs n <= 0x7fffffff ->
  exists buf, ScriptConv.Int.encode n = Some buf /\ ScriptConv.Int.decode buf = n.
Proof.
  intros Hn.
  destruct (Z.eq_dec n 0) as [->|Hnz]; [exists []; split; reflexivity|].
  unfold ScriptConv.Int.encode, ScriptConv.Int.encode_fuel.
  destruct (encode_loop_spec 4 6 (Z.abs n) [])
    as (bs & E & Hv & Hb & Hl); [change (2 ^ (8 * Z.of_nat 4)) with (2 ^ 32); lia | lia | lia |].
  rewrite E. cbn [app]. eexists; split; [reflexivity|].
  destruct (exists_last (l:=bs)) as (init & L & ->).
  { intros ->. simpl in Hv. lia. }
  pose proof Hb as Hb'. apply Forall_app in Hb'. destruct Hb' as [Hinit HL].
  inversion HL as [|? ? HLb _]; subst. unfold is_byte in HLb.
  pose proof Hv as Hv'.
  rewrite le_value_app in Hv'. cbn [le_value] in Hv'. rewrite Z.mul_0_r, Z.add_0_r in Hv'.
  pose proof (le_value_nonneg init Hinit) as Hinit0.
  rewrite length_app in Hl. cbn [length] in Hl.
  assert (Hfour : length init = 3%nat -> L < 128).
  { intros E3. rewrite E3 in Hv'. change (256 ^ Z.of_nat 3) with 16777216 in Hv'. lia. }
  unfold ScriptConv.Int.encode_sign. rewrite last_elem_snoc, and_0x80 by exact HLb.
  destruct (Z.ltb_spec L 128) as [Hlow|Hhigh]; cbn [Z.eqb negb].
  - (* the top bit is free *)
    destruct (Z.ltb_spec n 0) as [Hneg|Hpos].
    + rewrite set_last_snoc, or_0x80 by lia.
      rewrite Uint8Array_bytes
        by (apply Forall_app; split; [exact Hinit | constructor; [unfold is_byte; lia | constructor]]).
      unfold ScriptConv.Int.decode. rewrite last_elem_snoc, and_0x80 by lia.
      destruct (Z.ltb_spec (L + 128) 128); [lia|]. cbn [Z.eqb].
      rewrite set_last_snoc, and_0x7f by lia.
      destruct (Z.ltb_spec (L + 128) 128); [lia|].
      replace ((L + 128 - 128) mod 256) with L by (rewrite Z.mod_small; lia).
      rewrite decode_loop_snoc by (try assumption; lia). lia.
    + rewrite Uint8Array_bytes by exact Hb.
      unfold ScriptConv.Int.decode. rewrite last_elem_snoc, and_0x80 by lia.
      destruct (Z.ltb_spec L 128); [|lia]. cbn [Z.eqb].
      rewrite decode_loop_snoc by (try assumption; lia). lia.
  - (* the top bit is taken: a sign byte is added *)
    assert (Hlen3 : (length init <= 2)%nat).
    { destruct (Nat.eq_dec (length init) 3) as [E3|]; [specialize (Hfour E3); lia | lia]. }
    assert (Hbytes : forall s, 0 <= s < 256 -> Forall is_byte ((init ++ [L]) ++ [s])).
    { intros s Hs. apply Forall_app; split; [exact Hb | constructor; [exact Hs | constructor]]. }
    assert (Hdec : ScriptConv.Int.decode_loop 0 ((init ++ [L]) ++ [0]) 0 = Z.abs n).
    { rewrite decode_loop_snoc; [| exact Hb | lia | rewrite length_app; cbn [length]; lia].
      rewrite le_value_app. cbn [le_value]. lia. }
    destruct (Z.ltb_spec n 0) as [Hneg|Hpos].
    + rewrite Uint8Array_bytes by (apply Hbytes; lia).
      unfold ScriptConv.Int.decode. rewrite last_elem_snoc.
      change (JS.and 128 128) with 128. cbn [Z.eqb].
      rewrite set_last_snoc. change (JS.and 128 127 mod 256) with 0.
      rewrite Hdec. lia.
    + rewrite Uint8Array_bytes by (apply Hbytes; lia).
      unfold ScriptConv.Int.decode. rewrite last_elem_snoc.
      change (JS.and 0 128) with 0. cbn [Z.eqb].
      rewrite Hdec. lia.
Qed.

Lemma C8_int_decode_encode_witness :
  Z.abs (-32768) <= 0x7fffffff /\
  exists buf, ScriptConv.Int.encode (-32768) = Some buf /\ ScriptConv.Int.decode buf = -32768.
Proof.
  split; [vm_compute; discriminate | apply (C8_int_decode_encode (-32768)); vm_compute; discriminate].
Defined.

(** ** The condition stack *)

Lemma first_false_bounds (v : list bool) :
  -1 <= first_false v < Z.of_nat (length v).
Proof.
  induction v as [|b v IH]; cbn [first_false length]; [lia|].
  rewrite Nat2Z.inj_succ. destruct b; [|lia].
  destruct (Z.eqb_spec (first_false v) (-1)); lia.
Qed.

Ltac eqb_cases :=
  repeat match goal with
         | |- context [?a =? ?b] => destruct (Z.eqb_spec a b)
         | |- context [?a <=? ?b] => destruct (Z.leb_spec a b)
         | |- context [?a <? ?b] => destruct (Z.ltb_spec a b)
         end.

Lemma first_false_snoc (v : list bool) (f : bool) :
  first_false (v ++ [f]) =
  if first_false v =? -1 then (if f then -1 else Z.of_nat (length v))
  else first_false v.
Proof.
  induction v as [|b v IH]; cbn [app first_false length].
  - destruct f; reflexivity.
  - destruct b; [|reflexivity]. rewrite IH. cbv zeta.
    pose proof (first_false_bounds v). rewrite Nat2Z.inj_succ.
    destruct (Z.eqb_spec (first_false v) (-1)); destruct f; eqb_cases; lia.
Qed.

Lemma all_true_first_false (v : list bool) :
  BoolVector.all_true v = (first_false v =? -1).
Proof.
  unfold BoolVector.all_true.
  induction v as [|b v IH]; cbn [forallb first_false]; [reflexivity|].
  destruct b; cbn [andb]; [|reflexivity]. rewrite IH.
  pose proof (first_false_bounds v).
  destruct (Z.eqb_spec (first_false v) (-1)); [reflexivity|].
  symmetry. apply Z.eqb_neq. lia.
Qed.

Lemma pop_some_snoc {A} (l : list A) (x : A) (r : list A) :
  JS.pop l = Some (x, r) -> l = r ++ [x].
Proof.
  unfold JS.pop. intros H. destruct (rev l) as [|y rl] eqn:E; [discriminate|].
  injection H as -> <-. rewrite <- (rev_involutive l), E. reflexivity.
Qed.

Lemma pop_none_nil {A} (l : list A) : JS.pop l = None -> l = [].
Proof.
  unfold JS.pop. intros H. destruct (rev l) eqn:E; [|discriminate].
  rewrite <- (rev_involutive l), E. reflexivity.
Qed.

(** One operation keeps the two representations related, and the compact
    one throws only where the vector one fails. *)
Lemma cs_apply_simulates (cs : ConditionStack.t) (v v' : BoolVector.t) (o : CsOp) :
  cs_represents cs v -> vec_apply v o = Some v' ->
  exists cs', cs_apply cs o = inr cs' /\ cs_represents cs' v'.
Proof.
  destruct cs as [size pos]. unfold cs_represents. cbn [ConditionStack.m_stack_size
    ConditionStack.m_first_false_pos]. intros [Hs Hp] Hv. subst size pos.
  pose proof (first_false_bounds v) as Hb.
  destruct o as [f| |]; cbn [vec_apply cs_apply] in *.
  - injection Hv as <-. eexists; split; [reflexivity|].
    unfold ConditionStack.push_back, BoolVector.push_back, ConditionStack.NO_FALSE.
    cbn [ConditionStack.m_stack_size ConditionStack.m_first_false_pos].
    rewrite first_false_snoc, length_app. cbn [length]. split; [lia|].
    destruct (Z.eqb_spec (first_false v) (-1)), f; cbn [andb negb]; lia.
  - unfold BoolVector.pop_back in Hv.
    destruct (JS.pop v) as [[b rest]|] eqn:E; [|discriminate]. injection Hv as <-.
    apply pop_some_snoc in E. subst v.
    rewrite first_false_snoc in *. rewrite length_app in *. cbn [length] in *.
    pose proof (first_false_bounds rest) as Hb'.
    unfold ConditionStack.pop_back, ConditionStack.NO_FALSE.
    cbn [ConditionStack.m_stack_size ConditionStack.m_first_false_pos].
    destruct (Z.leb_spec (Z.of_nat (length rest + 1)) 0); [lia|].
    eexists; split; [reflexivity|].
    cbn [ConditionStack.m_stack_size ConditionStack.m_first_false_pos].
    split; [lia|].
    replace (Z.of_nat (length rest + 1) - 1) with (Z.of_nat (length rest)) by lia.
    destruct (Z.eqb_spec (first_false rest) (-1)) as [E1|E1].
    + destruct b.
      * destruct (Z.eqb_spec (-1) (Z.of_nat (length rest))); lia.
      * rewrite Z.eqb_refl. lia.
    + destruct (Z.eqb_spec (first_false rest) (Z.of_nat (length rest))); lia.
  - unfold BoolVector.toggle_top in Hv.
    destruct (JS.pop v) as [[b rest]|] eqn:E; [|discriminate]. injection Hv as <-.
    apply pop_some_snoc in E. subst v.
    rewrite !first_false_snoc in *. rewrite !length_app in *. cbn [length] in *.
    pose proof (first_false_bounds rest) as Hb'.
    unfold ConditionStack.toggle_top, ConditionStack.NO_FALSE.
    cbn [ConditionStack.m_stack_size ConditionStack.m_first_false_pos].
    destruct (Z.leb_spec (Z.of_nat (length rest + 1)) 0); [lia|].
    replace (Z.of_nat (length rest + 1) - 1) with (Z.of_nat (length rest)) by lia.
    destruct (Z.eqb_spec (first_false rest) (-1)) as [E1|E1].
    + destruct b; cbn [negb].
      * rewrite Z.eqb_refl. eexists; split; [reflexivity|].
        cbn [ConditionStack.m_stack_size ConditionStack.m_first_false_pos]. lia.
      * destruct (Z.eqb_spec (Z.of_nat (length rest)) (-1)); [lia|].
        rewrite Z.eqb_refl. eexists; split; [reflexivity|].
        cbn [ConditionStack.m_stack_size ConditionStack.m_first_false_pos]. lia.
    + destruct (Z.eqb_spec (first_false rest) (-1)); [lia|].
      destruct (Z.eqb_spec (first_false rest) (Z.of_nat (length rest))); [lia|].
      eexists; split; [reflexivity|].
      cbn [ConditionStack.m_stack_size ConditionStack.m_first_false_pos]. lia.
Qed.

Lemma cs_run_simulates (ops : list CsOp) : forall cs v v',
  cs_represents cs v -> vec_run ops v = Some v' ->
  exists cs', cs_run ops cs = inr cs' /\ cs_represents cs' v'.
Proof.
  induction ops as [|o ops IH]; intros cs v v' R Hv; cbn [vec_run cs_run] in *.
  - injection Hv as <-. eauto.
  - destruct (vec_apply v o) as [v1|] eqn:E; [|discriminate].
    destruct (cs_apply_simulates cs v v1 o R E) as (cs1 & -> & R1).
    eapply IH; eauto.
Qed.

(** C7. For every finite sequence of push_back / pop_back / toggle_top that
    never pops or toggles an empty stack, the ConditionStack run from the
    empty stack does not throw, and afterwards [empty()] tells whether the
    materialized vector is empty and [all_true()] is the conjunction of the
    vector's elements. *)
Theorem C7_condition_stack_refines_vector (ops : list CsOp) (v : BoolVector.t) :
  vec_run ops BoolVector.new = Some v ->
  exists cs, cs_run ops ConditionStack.new = inr cs
             /\ ConditionStack.empty cs = BoolVector.empty v
             /\ ConditionStack.all_true cs = BoolVector.all_true v.
Proof.
  intros Hv.
  destruct (cs_run_simulates ops ConditionStack.new BoolVector.new v) as (cs & E & Hs & Hp).
  - split; reflexivity.
  - exact Hv.
  - exists cs. split; [exact E|]. split.
    + unfold ConditionStack.empty. rewrite Hs. destruct v; cbn [length BoolVector.empty].
      * reflexivity.
      * apply Z.eqb_neq. lia.
    + unfold ConditionStack.all_true, ConditionStack.NO_FALSE.
      rewrite Hp. symmetry. apply all_true_first_false.
Qed.

Lemma C7_condition_stack_refines_vector_witness :
  let ops := [Push_back true; Push_back false; Push_back true; Toggle_top;
              Pop_back; Toggle_top; Push_back false; Pop_back] in
  vec_run ops BoolVector.new = Some [true; true] /\
  exists cs, cs_run ops ConditionStack.new = inr cs
             /\ ConditionStack.empty cs = BoolVector.empty [true; true]
             /\ ConditionStack.all_true cs = BoolVector.all_true [true; true].
Proof.
  split; [reflexivity|].
  apply (C7_condition_stack_refines_vector
           [Push_back true; Push_back false; Push_back true; Toggle_top;
            Pop_back; Toggle_top; Push_back false; Pop_back] [true; true]).
  reflexivity.
Defined.

(** ** The canonical ordering of the simplifier *)

Section StableSort.

Context {A : Type} (compareFn : A -> A -> Z).

Lemma sort_insert_perm (x : A) (l : list A) :
  Permutation (x :: l) (Util.sort_insert compareFn x l).
Proof.
  induction l as [|y l IH]; cbn [Util.sort_insert]; [reflexivity|].
  destruct (compareFn x y <=? 0); [reflexivity|].
  rewrite perm_swap. now constructor.
Qed.

Lemma sort_perm (l : list A) : Permutation l (Util.sort compareFn l).
Proof.
  induction l as [|x l IH]; cbn [Util.sort]; [constructor|].
  rewrite <- sort_insert_perm. now constructor.
Qed.

(** An order the comparison respects in both directions holds between the
    elements of the sorted list, earlier to later. *)
Context (R : A -> A -> Prop).
Hypothesis R_le : forall a b, compareFn a b <= 0 -> R a b.
Hypothesis R_gt : forall a b, 0 < compareFn a b -> R b a.
Hypothesis R_trans : forall a b c, R a b -> R b c -> R a c.

Lemma sort_insert_sorted (x : A) (l : list A) :
  StronglySorted R l -> StronglySorted R (Util.sort_insert compareFn x l).
Proof.
  induction 1 as [|y l Hl IH Hy]; cbn [Util.sort_insert].
  - repeat constructor.
  - destruct (Z.leb_spec (compareFn x y) 0) as [Hle|Hgt].
    + constructor; [now constructor|].
      constructor; [now apply R_le|].
      apply R_le in Hle. rewrite Forall_forall in *. intros z Hz.
      exact (R_trans _ _ _ Hle (Hy z Hz)).
    + constructor; [exact IH|].
      apply (Permutation_Forall (sort_insert_perm x l)).
      constructor; [now apply R_gt | exact Hy].
Qed.

Lemma sort_sorted (l : list A) : StronglySorted R (Util.sort compareFn l).
Proof.
  induction l as [|x l IH]; cbn [Util.sort]; [constructor|].
  now apply sort_insert_sorted.
Qed.

End StableSort.

(** Sorting pairs by their first component and keeping the second is
    sorting the first components and mapping. *)
Lemma sort_decorated {A B} (compareFn : A -> A -> Z) (f : A -> B) (l : list A) :
  map snd (Util.sort (fun p q => compareFn (fst p) (fst q)) (map (fun a => (a, f a)) l))
  = map f (Util.sort compareFn l).
Proof.
  assert (Hins : forall x l,
    Util.sort_insert (fun p q => compareFn (fst p) (fst q)) (x, f x) (map (fun a => (a, f a)) l)
    = map (fun a => (a, f a)) (Util.sort_insert compareFn x l)).
  { intros x l0. induction l0 as [|y l0 IH]; cbn [Util.sort_insert map fst]; [reflexivity|].
    destruct (compareFn x y <=? 0); cbn [map]; [reflexivity|]. now rewrite IH. }
  assert (Hsort : Util.sort (fun p q => compareFn (fst p) (fst q)) (map (fun a => (a, f a)) l)
                  = map (fun a => (a, f a)) (Util.sort compareFn l)).
  { induction l as [|x l IH]; cbn [Util.sort map]; [reflexivity|]. now rewrite IH, Hins. }
  rewrite Hsort, map_map. reflexivity.
Qed.

(** The code's recursion: an application outside the order-keeping set gets
    its argument list normalized by [normalizeExprs]. *)
Lemma normalizeExpr_App (opcode : Z) (args : list Expr) (error : option ScriptError) :
  Util.normalizeExpr (App opcode args error) =
  if Util.keepsArgOrder opcode then App opcode args error
  else App opcode (Util.normalizeExprs args) error.
Proof.
  cbn [Util.normalizeExpr]. destruct (Util.keepsArgOrder opcode); [reflexivity|].
  unfold Util.normalizeExprs. now rewrite sort_decorated.
Qed.

Lemma normalizeExpr_type (e : Expr) : Util.exprType (Util.normalizeExpr e) = Util.exprType e.
Proof.
  destruct e as [b|v|op args err]; try reflexivity.
  rewrite normalizeExpr_App. now destruct (Util.keepsArgOrder op).
Qed.

Lemma exprCompareFn_mixed (a b : Expr) :
  Util.exprType a <> Util.exprType b ->
  Util.exprCompareFn a b = Util.exprPriority (Util.exprType b) - Util.exprPriority (Util.exprType a).
Proof.
  destruct a, b; cbn [Util.exprType]; intros H; try reflexivity; congruence.
Qed.

Lemma exprCompareFn_le_priority (a b : Expr) :
  Util.exprCompareFn a b <= 0 ->
  Util.exprPriority (Util.exprType b) <= Util.exprPriority (Util.exprType a).
Proof.
  destruct a, b; cbn [Util.exprType Util.exprPriority];
    try (intros _; lia); cbn; lia.
Qed.

Lemma exprCompareFn_gt_priority (a b : Expr) :
  0 < Util.exprCompareFn a b ->
  Util.exprPriority (Util.exprType a) <= Util.exprPriority (Util.exprType b).
Proof.
  destruct a, b; cbn [Util.exprType Util.exprPriority];
    try (intros _; lia); cbn; lia.
Qed.

Lemma StronglySorted_nth_error {A} (R : A -> A -> Prop) (l : list A) :
  StronglySorted R l ->
  forall i j a b, (i < j)%nat -> nth_error l i = Some a -> nth_error l j = Some b -> R a b.
Proof.
  induction 1 as [|x l Hl IH Hx]; intros i j a b Hij Ha Hb.
  - destruct i; discriminate.
  - destruct j as [|j]; [lia|]. cbn [nth_error] in Hb.
    destruct i as [|i]; cbn [nth_error] in Ha.
    + injection Ha as <-. rewrite Forall_forall in Hx. apply Hx.
      eapply nth_error_In; eauto.
    + apply (IH i j); [lia | assumption | assumption].
Qed.

Lemma normalizeExprs_by_priority (exprs : list Expr) :
  StronglySorted
    (fun a b => Util.exprPriority (Util.exprType b) <= Util.exprPriority (Util.exprType a))
    (Util.normalizeExprs exprs).
Proof.
  unfold Util.normalizeExprs.
  pose proof (sort_sorted Util.exprCompareFn
                (fun a b => Util.exprPriority (Util.exprType b)
                            <= Util.exprPriority (Util.exprType a))
                exprCompareFn_le_priority exprCompareFn_gt_priority
                ltac:(cbv beta; intros; lia) exprs) as S.
  induction S as [|x l Hl IH Hx]; cbn [map]; constructor.
  - exact IH.
  - rewrite Forall_forall in *. intros y Hy. apply in_map_iff in Hy.
    destruct Hy as (z & <- & Hz). rewrite !normalizeExpr_type.
    exact (Hx z Hz).
Qed.

(** Any arrangement in which no earlier element compares greater than a later
    one has its variants in the order of [exprPriority]. *)
Lemma sorted_by_exprCompareFn_priority (l : list Expr) :
  (forall i j a b, (i < j)%nat -> nth_error l i = Some a -> nth_error l j = Some b ->
                   Util.exprCompareFn a b <= 0) ->
  forall i j a b, (i < j)%nat -> nth_error l i = Some a -> nth_error l j = Some b ->
                  Util.exprPriority (Util.exprType b) <= Util.exprPriority (Util.exprType a).
Proof.
  intros Hsorted i j a b Hij Ha Hb.
  exact (exprCompareFn_le_priority a b (Hsorted i j a b Hij Ha Hb)).
Qed.

(** *** [exprCompareFn] is a consistent comparator

    [Array.prototype.sort] promises a sorted result only for a comparator
    that is consistent; this one is, so the sorted list is the one the
    stable insertion sort gives, whatever algorithm the engine runs. *)

Lemma bufferCompare_nil_nil : Util.bufferCompare [] [] = 0.
Proof. reflexivity. Qed.

Lemma bufferCompare_nil_cons (y : Z) (r : list Z) : Util.bufferCompare [] (y :: r) = -1.
Proof. reflexivity. Qed.

Lemma bufferCompare_cons_nil (x : Z) (r : list Z) : Util.bufferCompare (x :: r) [] = 1.
Proof. reflexivity. Qed.

Lemma bufferCompare_cons_cons (x y : Z) (r1 r2 : list Z) :
  Util.bufferCompare (x :: r1) (y :: r2) =
  if x <? y then -1 else if x >? y then 1 else Util.bufferCompare r1 r2.
Proof.
  unfold Util.bufferCompare. cbn [Util.bufferCompare_loop length].
  destruct (x <? y); [reflexivity|]. destruct (x >? y); [reflexivity|].
  destruct (Util.bufferCompare_loop r1 r2); reflexivity.
Qed.

Lemma bufferCompare_antisym (a : list Z) : forall b,
  (Util.bufferCompare a b < 0 <-> 0 < Util.bufferCompare b a) /\
  (Util.bufferCompare a b = 0 <-> Util.bufferCompare b a = 0).
Proof.
  induction a as [|x a IH]; intros [|y b];
    rewrite ?bufferCompare_nil_nil, ?bufferCompare_nil_cons, ?bufferCompare_cons_nil,
      ?bufferCompare_cons_cons; try lia.
  rewrite !Z.gtb_ltb. specialize (IH b).
  destruct (Z.ltb_spec x y), (Z.ltb_spec y x); lia.
Qed.

Lemma bufferCompare_trans (a : list Z) : forall b c,
  Util.bufferCompare a b <= 0 -> Util.bufferCompare b c <= 0 ->
  Util.bufferCompare a c <= 0 /\
  (Util.bufferCompare a b < 0 \/ Util.bufferCompare b c < 0 -> Util.bufferCompare a c < 0).
Proof.
  induction a as [|x a IH]; intros [|y b] [|z c];
    rewrite ?bufferCompare_nil_nil, ?bufferCompare_nil_cons, ?bufferCompare_cons_nil,
      ?bufferCompare_cons_cons; try lia.
  rewrite !Z.gtb_ltb. specialize (IH b c).
  destruct (Z.ltb_spec x y), (Z.ltb_spec y x), (Z.ltb_spec y z), (Z.ltb_spec z y),
    (Z.ltb_spec x z), (Z.ltb_spec z x); lia.
Qed.

Lemma args_order_cons (x y : Expr) (xs ys : list Expr) :
  args_order (x :: xs) (y :: ys) =
  if Util.exprCompareFn x y =? 0 then args_order xs ys else Util.exprCompareFn x y.
Proof.
  unfold args_order. cbn [Util.args_compare]. cbv zeta.
  destruct (Util.exprCompareFn x y =? 0); reflexivity.
Qed.

Lemma exprCompareFn_App (opa opb : Z) (argsa argsb : list Expr) (ea eb : option ScriptError) :
  Util.exprCompareFn (App opa argsa ea) (App opb argsb eb) =
  if opa - opb =? 0 then
    if Z.of_nat (length argsa) - Z.of_nat (length argsb) =? 0 then args_order argsa argsb
    else Z.of_nat (length argsa) - Z.of_nat (length argsb)
  else opa - opb.
Proof.
  cbn [Util.exprCompareFn]. cbv zeta. unfold args_order.
  destruct (opa - opb =? 0); [|reflexivity]. cbn [negb].
  destruct (_ - _ =? 0); [|reflexivity]. cbn [negb].
  destruct (Util.args_compare _ _ _); reflexivity.
Qed.

Lemma args_order_antisym (xs : list Expr) : forall ys,
  Forall antisym_at xs -> length xs = length ys ->
  (args_order xs ys < 0 <-> 0 < args_order ys xs) /\
  (args_order xs ys = 0 <-> args_order ys xs = 0).
Proof.
  induction xs as [|x xs IH]; intros [|y ys] Hall Hlen; try discriminate.
  - unfold args_order. cbn. lia.
  - rewrite !args_order_cons. inversion Hall as [|? ? Hx Hxs]; subst.
    injection Hlen as Hlen. specialize (IH ys Hxs Hlen). specialize (Hx y).
    destruct (Z.eqb_spec (Util.exprCompareFn x y) 0), (Z.eqb_spec (Util.exprCompareFn y x) 0);
      lia.
Qed.

Lemma exprCompareFn_antisym (a : Expr) : antisym_at a.
Proof.
  induction a as [ba|va|opa argsa ea IH] using Expr_nested_ind; intros [bb|vb|opb argsb eb];
    try (cbn; lia).
  - cbn [Util.exprCompareFn]. apply bufferCompare_antisym.
  - rewrite !exprCompareFn_App.
    destruct (Z.eqb_spec (opa - opb) 0), (Z.eqb_spec (opb - opa) 0); try lia.
    destruct (Z.eqb_spec (Z.of_nat (length argsa) - Z.of_nat (length argsb)) 0),
      (Z.eqb_spec (Z.of_nat (length argsb) - Z.of_nat (length argsa)) 0); try lia.
    apply args_order_antisym; [exact IH | lia].
Qed.

Lemma args_order_trans (xs : list Expr) : forall ys zs,
  Forall trans_at xs -> length xs = length ys -> length ys = length zs ->
  args_order xs ys <= 0 -> args_order ys zs <= 0 ->
  args_order xs zs <= 0 /\
  (args_order xs ys < 0 \/ args_order ys zs < 0 -> args_order xs zs < 0).
Proof.
  induction xs as [|x xs IH]; intros [|y ys] [|z zs] Hall Hxy Hyz; try discriminate.
  - unfold args_order. cbn. lia.
  - rewrite !args_order_cons. inversion Hall as [|? ? Hx Hxs]; subst.
    injection Hxy as Hxy. injection Hyz as Hyz.
    specialize (IH ys zs Hxs Hxy Hyz).
    pose proof (Hx y z) as Txyz. pose proof (Hx z y) as Txzy.
    pose proof (exprCompareFn_antisym y z) as Ayz.
    destruct (Z.eqb_spec (Util.exprCompareFn x y) 0), (Z.eqb_spec (Util.exprCompareFn y z) 0),
      (Z.eqb_spec (Util.exprCompareFn x z) 0); lia.
Qed.

Lemma exprCompareFn_trans (a : Expr) : trans_at a.
Proof.
  induction a as [ba|va|opa argsa ea IH] using Expr_nested_ind;
    intros [bb|vb|opb argsb eb] [bc|vc|opc argsc ec];
    try (cbn [Util.exprCompareFn Util.exprType Util.exprPriority]; lia).
  - cbn [Util.exprCompareFn]. apply bufferCompare_trans.
  - rewrite !exprCompareFn_App.
    pose proof (args_order_trans argsa argsb argsc IH) as T.
    destruct (Z.eqb_spec (opa - opb) 0), (Z.eqb_spec (opb - opc) 0),
      (Z.eqb_spec (opa - opc) 0); try lia.
    destruct (Z.eqb_spec (Z.of_nat (length argsa) - Z.of_nat (length argsb)) 0),
      (Z.eqb_spec (Z.of_nat (length argsb) - Z.of_nat (length argsc)) 0),
      (Z.eqb_spec (Z.of_nat (length argsa) - Z.of_nat (length argsc)) 0); lia.
Qed.

Lemma exprCompareFn_refl (a : Expr) : Util.exprCompareFn a a = 0.
Proof.
  pose proof (exprCompareFn_antisym a a). lia.
Qed.

(** The list [exprs.sort(exprCompareFn)] leaves: no element compares greater
    than a later one. *)
Lemma sort_exprCompareFn_sorted (exprs : list Expr) :
  StronglySorted (fun a b => Util.exprCompareFn a b <= 0)
    (Util.sort Util.exprCompareFn exprs).
Proof.
  apply sort_sorted.
  - auto.
  - intros a b H. pose proof (exprCompareFn_antisym b a). lia.
  - intros a b c Hab Hbc. now apply (exprCompareFn_trans a b c).
Qed.

(** C3, in the order of [exprPriority].  After the canonical-ordering pass
    [normalizeExprs] has run on a conjunct list, the list holds the same
    variants as before, every [Var] expression precedes every [App]
    expression, and every [App] (and every [Var]) expression precedes every
    [Bytes] expression: Var < App < Bytes. *)
Theorem C3_normalizeExprs_var_app_bytes (exprs : list Expr) :
  Permutation (map Util.exprType exprs) (map Util.exprType (Util.normalizeExprs exprs)) /\
  forall i j a b,
    nth_error (Util.normalizeExprs exprs) i = Some a ->
    nth_error (Util.normalizeExprs exprs) j = Some b ->
    (Util.exprType a = Util.type_var /\ Util.exprType b = Util.type_opcode) \/
    (Util.exprType a = Util.type_opcode /\ Util.exprType b = Util.type_value) \/
    (Util.exprType a = Util.type_var /\ Util.exprType b = Util.type_value) ->
    (i < j)%nat.
Proof.
  split.
  - unfold Util.normalizeExprs. rewrite map_map.
    rewrite (map_ext _ Util.exprType normalizeExpr_type).
    apply Permutation_map. apply sort_perm.
  - intros i j a b Ha Hb Hty.
    destruct (Nat.lt_ge_cases i j) as [Hlt|Hge]; [exact Hlt|exfalso].
    destruct (Nat.eq_dec i j) as [->|Hne].
    + rewrite Ha in Hb. injection Hb as <-.
      destruct Hty as [[E1 E2]|[[E1 E2]|[E1 E2]]]; rewrite E1 in E2; discriminate.
    + pose proof (StronglySorted_nth_error _ _ (normalizeExprs_by_priority exprs)
                    j i b a ltac:(lia) Hb Ha) as Hord.
      cbv beta in Hord.
      destruct Hty as [[E1 E2]|[[E1 E2]|[E1 E2]]]; rewrite E1, E2 in Hord;
        cbn [Util.exprPriority] in Hord; lia.
Qed.

Lemma C3_normalizeExprs_var_app_bytes_witness :
  let exprs := [Bytes [1]; App opcodes.OP_CHECKSIG [Var 0; Var 1] None; Var 2] in
  nth_error (Util.normalizeExprs exprs) 0 = Some (Var 2) /\
  nth_error (Util.normalizeExprs exprs) 1 = Some (App opcodes.OP_CHECKSIG [Var 0; Var 1] None) /\
  (0 < 1)%nat.
Proof.
  split; [reflexivity|]. split; [reflexivity|].
  apply (proj2 (C3_normalizeExprs_var_app_bytes
                  [Bytes [1]; App opcodes.OP_CHECKSIG [Var 0; Var 1] None; Var 2])
           0%nat 1%nat (Var 2) (App opcodes.OP_CHECKSIG [Var 0; Var 1] None)).
  - reflexivity.
  - reflexivity.
  - left. split; reflexivity.
Defined.

(** The order is not App < Var: on a list holding an application followed
    by a variable the pass puts the variable first. *)
Lemma C3_counterexample :
  let exprs := [App opcodes.OP_CHECKSIG [Var 0; Var 1] None; Var 2] in
  Util.normalizeExprs exprs = [Var 2; App opcodes.OP_CHECKSIG [Var 0; Var 1] None] /\
  exists i j a b,
    nth_error (Util.normalizeExprs exprs) i = Some a /\
    nth_error (Util.normalizeExprs exprs) j = Some b /\
    Util.exprType a = Util.type_opcode /\ Util.exprType b = Util.type_var /\
    ~ (i < j)%nat.
Proof.
  split; [reflexivity|].
  exists 1%nat, 0%nat, (App opcodes.OP_CHECKSIG [Var 0; Var 1] None), (Var 2).
  repeat split; lia.
Qed.

(** ** The stack primitives of the analyzer *)

Lemma fresh_vars_length (first : Z) (count : nat) : length (fresh_vars first count) = count.
Proof.
  revert first. induction count as [|c IH]; intros first; cbn [fresh_vars]; [reflexivity|].
  rewrite length_app, IH. cbn [length]. lia.
Qed.

(** Counting from the top, the [j]-th fresh slot holds the [j]-th new index. *)
Lemma fresh_vars_nth (count : nat) : forall first j, (j < count)%nat ->
  nth_error (fresh_vars first count) (count - 1 - j) = Some (Var (first + Z.of_nat j)).
Proof.
  induction count as [|c IH]; intros first j Hj; [lia|]. cbn [fresh_vars].
  destruct j as [|j].
  - rewrite nth_error_app2 by (rewrite fresh_vars_length; lia).
    rewrite fresh_vars_length. replace (S c - 1 - 0 - c)%nat with 0%nat by lia.
    cbn [nth_error]. do 2 f_equal. lia.
  - rewrite nth_error_app1 by (rewrite fresh_vars_length; lia).
    replace (S c - 1 - S j)%nat with (c - 1 - j)%nat by lia.
    rewrite IH by lia. do 2 f_equal. lia.
Qed.

Ltac sa_unfold :=
  unfold ScriptAnalyzer.with_stack, ScriptAnalyzer.with_altstack,
    ScriptAnalyzer.with_spendingConditions, ScriptAnalyzer.with_varCounter,
    ScriptAnalyzer.with_scriptOffset, ScriptAnalyzer.with_cs,
    ScriptAnalyzer.fork_push_condition, ScriptAnalyzer.fork_of in *;
  cbn [ScriptAnalyzer.version ScriptAnalyzer.rules ScriptAnalyzer.stack
       ScriptAnalyzer.altstack ScriptAnalyzer.spendingConditions
       ScriptAnalyzer.varCounter ScriptAnalyzer.scriptOffset ScriptAnalyzer.path
       ScriptAnalyzer.cs] in *.

Lemma takeElements_loop_spec (n : nat) : forall res a,
  ScriptAnalyzer.takeElements_loop n res a =
  let m := length (ScriptAnalyzer.stack a) in
  (fresh_vars (ScriptAnalyzer.varCounter a) (n - m)
     ++ skipn (m - n) (ScriptAnalyzer.stack a) ++ res,
   ScriptAnalyzer.with_stack (firstn (m - n) (ScriptAnalyzer.stack a))
     (ScriptAnalyzer.with_varCounter
        (ScriptAnalyzer.varCounter a + Z.of_nat (n - m)) a)).
Proof.
  induction n as [|n IH]; intros res a; cbn [ScriptAnalyzer.takeElements_loop]; cbv zeta.
  - rewrite Nat.sub_0_r, skipn_all, firstn_all. cbn [fresh_vars app Nat.sub].
    destruct a; sa_unfold. change (Z.of_nat 0) with 0. rewrite Z.add_0_r. reflexivity.
  - destruct (JS.pop (ScriptAnalyzer.stack a)) as [[x rest]|] eqn:E.
    + apply pop_some_snoc in E. rewrite IH. cbv zeta.
      destruct a as [v r s al sc vc so p c]; sa_unfold. subst s.
      rewrite length_app. cbn [length].
      replace (S n - (length rest + 1))%nat with (n - length rest)%nat by lia.
      replace (length rest + 1 - S n)%nat with (length rest - n)%nat by lia.
      rewrite skipn_app, firstn_app.
      replace (length rest - n - length rest)%nat with 0%nat by lia.
      cbn [skipn firstn]. rewrite app_nil_r, <- !app_assoc. reflexivity.
    + apply pop_none_nil in E. rewrite IH. cbv zeta.
      destruct a as [v r s al sc vc so p c]; sa_unfold. subst s.
      cbn [length skipn firstn Nat.sub app]. rewrite Nat.sub_0_r.
      replace (vc + 1 + Z.of_nat n) with (vc + Z.of_nat (S n)) by lia.
      cbn [fresh_vars]. rewrite <- app_assoc. reflexivity.
Qed.

Lemma readElements_pad_spec (fuel : nat) : forall k a,
  (k - length (ScriptAnalyzer.stack a) <= fuel)%nat ->
  ScriptAnalyzer.readElements_pad fuel (Z.of_nat k) a =
  let d := (k - length (ScriptAnalyzer.stack a))%nat in
  ScriptAnalyzer.with_stack (fresh_vars (ScriptAnalyzer.varCounter a) d ++ ScriptAnalyzer.stack a)
    (ScriptAnalyzer.with_varCounter (ScriptAnalyzer.varCounter a + Z.of_nat d) a).
Proof.
  induction fuel as [|fuel IH]; intros k a Hf; cbn [ScriptAnalyzer.readElements_pad]; cbv zeta.
  - replace (k - length (ScriptAnalyzer.stack a))%nat with 0%nat by lia.
    destruct a; sa_unfold. change (Z.of_nat 0) with 0. rewrite Z.add_0_r. reflexivity.
  - destruct (Z.ltb_spec (Z.of_nat (length (ScriptAnalyzer.stack a))) (Z.of_nat k)) as [Hlt|Hge].
    + rewrite IH by (destruct a; sa_unfold; cbn [length]; lia). cbv zeta.
      destruct a as [v r s al sc vc so p c]; sa_unfold. cbn [length].
      replace (k - length s)%nat with (S (k - S (length s)))%nat by lia.
      cbn [fresh_vars]. rewrite <- app_assoc. cbn [app].
      replace (vc + 1 + Z.of_nat (k - S (length s)))
        with (vc + Z.of_nat (S (k - S (length s)))) by lia.
      reflexivity.
    + replace (k - length (ScriptAnalyzer.stack a))%nat with 0%nat by lia.
      destruct a; sa_unfold. change (Z.of_nat 0) with 0. rewrite Z.add_0_r. reflexivity.
Qed.

(** The fuel of the padding loop is never used up: the loop is left because
    its condition fails. *)
Lemma readElements_pad_done (k : nat) (a : ScriptAnalyzer.t) :
  (k <= length (ScriptAnalyzer.stack
                  (ScriptAnalyzer.readElements_pad (Z.to_nat (Z.of_nat k)) (Z.of_nat k) a)))%nat.
Proof.
  rewrite Nat2Z.id, readElements_pad_spec by lia. cbv zeta.
  destruct a; sa_unfold. rewrite length_app, fresh_vars_length. lia.
Qed.

(** The arrays the switch indexes hold as many elements as were asked for. *)
Lemma takeElements_length (k : nat) (a a' : ScriptAnalyzer.t) (elems : list Expr) :
  ScriptAnalyzer.takeElements (Z.of_nat k) a = inr (elems, a') -> length elems = k.
Proof.
  unfold ScriptAnalyzer.takeElements. rewrite Nat2Z.id, takeElements_loop_spec. cbv zeta.
  intros E. injection E as <- _.
  rewrite !length_app, fresh_vars_length, length_skipn. cbn [length]. lia.
Qed.

Lemma readElements_length (k : nat) (a a' : ScriptAnalyzer.t) (elems : list Expr) :
  ScriptAnalyzer.readElements (Z.of_nat k) a = inr (elems, a') -> length elems = k.
Proof.
  unfold ScriptAnalyzer.readElements. cbv zeta. intros E. injection E as <- _.
  pose proof (readElements_pad_done k a) as Hdone.
  unfold JS.slice_from, JS.clamp_index. rewrite length_skipn.
  destruct (Z.ltb_spec (Z.of_nat (length (ScriptAnalyzer.stack
              (ScriptAnalyzer.readElements_pad (Z.to_nat (Z.of_nat k)) (Z.of_nat k) a)))
              - Z.of_nat k) 0); lia.
Qed.

(** C10. From the same state and for every [k >= 0], [readElements(k)]
    returns the bottom-to-top list [takeElements(k)] returns, both leave the
    same variable counter, and both number the variables they draw so that
    the slot nearest the stack top gets the smallest new index;
    [takeElements] leaves the stack without those [k] slots, [readElements]
    leaves the padded stack that still holds them. *)
Theorem C10_readElements_takeElements (a : ScriptAnalyzer.t) (k : nat) :
  let m := length (ScriptAnalyzer.stack a) in
  let d := (k - m)%nat in
  let elems := fresh_vars (ScriptAnalyzer.varCounter a) d
                 ++ skipn (m - k) (ScriptAnalyzer.stack a) in
  let taken := ScriptAnalyzer.with_stack (firstn (m - k) (ScriptAnalyzer.stack a))
                 (ScriptAnalyzer.with_varCounter
                    (ScriptAnalyzer.varCounter a + Z.of_nat d) a) in
  ScriptAnalyzer.takeElements (Z.of_nat k) a = inr (elems, taken) /\
  ScriptAnalyzer.readElements (Z.of_nat k) a
    = inr (elems, ScriptAnalyzer.with_stack (ScriptAnalyzer.stack taken ++ elems) taken) /\
  length elems = k /\
  (forall j, (j < d)%nat ->
     nth_error elems (d - 1 - j) = Some (Var (ScriptAnalyzer.varCounter a + Z.of_nat j))).
Proof.
  cbv zeta. split; [|split; [|split]].
  - unfold ScriptAnalyzer.takeElements. rewrite Nat2Z.id, takeElements_loop_spec.
    cbv zeta. rewrite app_nil_r. reflexivity.
  - unfold ScriptAnalyzer.readElements. cbv zeta.
    rewrite Nat2Z.id, readElements_pad_spec by lia. cbv zeta.
    destruct a as [v r s al sc vc so p c]; sa_unfold.
    unfold JS.slice_from, JS.clamp_index.
    rewrite length_app, fresh_vars_length.
    destruct (Z.ltb_spec (Z.of_nat (k - length s + length s) - Z.of_nat k) 0); [lia|].
    replace (Z.to_nat (Z.min (Z.of_nat (k - length s + length s) - Z.of_nat k)
                         (Z.of_nat (k - length s + length s))))
      with (length s - k)%nat by lia.
    destruct (Nat.le_gt_cases k (length s)) as [Hle|Hgt].
    + replace (k - length s)%nat with 0%nat by lia. cbn [fresh_vars app].
      rewrite firstn_skipn. reflexivity.
    + replace (length s - k)%nat with 0%nat by lia. cbn [skipn firstn app].
      reflexivity.
  - rewrite length_app, fresh_vars_length, length_skipn. lia.
  - intros j Hj. rewrite nth_error_app1 by (rewrite fresh_vars_length; lia).
    now apply fresh_vars_nth.
Qed.

(** ** Single opcodes *)

Ltac run_method :=
  unfold ScriptAnalyzer.verify_if, ScriptAnalyzer.verify, ScriptAnalyzer.numFromStack,
    ScriptAnalyzer.break, ScriptAnalyzer.push, ScriptAnalyzer.push_all,
    ScriptAnalyzer.push_alt, ScriptAnalyzer.push_condition, ScriptAnalyzer.encode,
    ScriptAnalyzer.takeElements, ScriptAnalyzer.readElements,
    bind, ret, get, modify, abort.

Lemma execOp_NUMEQUALVERIFY (fExec : bool) :
  ScriptAnalyzer.execOp fExec opcodes.OP_NUMEQUALVERIFY =
  (elems <- ScriptAnalyzer.takeElements 2 ;;
   ScriptAnalyzer.push (App opcodes.OP_NUMEQUAL elems None) ;;
   ScriptAnalyzer.break).
Proof. reflexivity. Qed.

(** C2, as the code behaves.  OP_NUMEQUALVERIFY pushes
    [App(OP_NUMEQUAL, [a, b])] and stops there: the guard of its verify step
    tests [op === OP_EQUALVERIFY], which never holds in this case of the
    switch, so the result stays on the stack and nothing is appended to
    [spendingConditions].  On the script [<01> <02> OP_NUMEQUALVERIFY OP_1]
    the path therefore fails CLEANSTACK, where the sibling OP_EQUALVERIFY
    completes with its predicate recorded. *)
Theorem C2_numequalverify_never_verifies :
  (forall fExec a,
     exists elems a1,
       ScriptAnalyzer.takeElements 2 a = inr (elems, a1) /\
       ScriptAnalyzer.execOp fExec opcodes.OP_NUMEQUALVERIFY a
       = inr (ScriptAnalyzer.Break None,
              ScriptAnalyzer.with_stack
                (ScriptAnalyzer.stack a1 ++ [App opcodes.OP_NUMEQUAL elems None]) a1) /\
       ScriptAnalyzer.spendingConditions a1 = ScriptAnalyzer.spendingConditions a) /\
  ScriptAnalyzer.analyzeScript LEGACY ALL
    [Push [1]; Push [2]; Op opcodes.OP_NUMEQUALVERIFY; Op opcodes.OP_1]
  = inr (ScriptAnalyzer.Finished (Some SCRIPT_ERR_CLEANSTACK)
           (ScriptAnalyzer.mk LEGACY ALL
              [App opcodes.OP_NUMEQUAL [Bytes [1]; Bytes [2]] None; Bytes [1]]
              [] [] 0 4 0 ConditionStack.new)
           []) /\
  ScriptAnalyzer.analyzeScript LEGACY ALL
    [Push [1]; Push [2]; Op opcodes.OP_EQUALVERIFY; Op opcodes.OP_1]
  = inr (ScriptAnalyzer.Finished None
           (ScriptAnalyzer.mk LEGACY ALL []
              [] [App opcodes.OP_EQUAL [Bytes [1]; Bytes [2]] None] 0 4 0 ConditionStack.new)
           []).
Proof.
  split; [|split; reflexivity].
  intros fExec a. rewrite execOp_NUMEQUALVERIFY. run_method.
  rewrite takeElements_loop_spec. cbv zeta.
  eexists _, _. split; [reflexivity|]. split; [reflexivity|].
  sa_unfold. reflexivity.
Qed.

(** ** The loop of [analyze] *)

Lemma skipn_nth_error {A} (l : list A) : forall n x,
  nth_error l n = Some x -> skipn n l = x :: skipn (S n) l.
Proof.
  induction l as [|y l IH]; intros [|n] x H; try discriminate.
  - injection H as ->. reflexivity.
  - cbn [nth_error] in H. cbn [skipn]. now apply IH.
Qed.

(** The items [analyze] has before it when [scriptOffset] points at [item]. *)
Lemma items_at_scriptOffset (script : list Item) (off : Z) (item : Item) :
  0 <= off -> nth_error script (Z.to_nat off) = Some item ->
  skipn (Z.to_nat off) script = item :: skipn (Z.to_nat (off + 1)) script.
Proof.
  intros H0 Hn. replace (Z.to_nat (off + 1)) with (S (Z.to_nat off)) by lia.
  now apply skipn_nth_error.
Qed.

Lemma items_at_end (script : list Item) (off : Z) :
  Z.of_nat (length script) <= off -> skipn (Z.to_nat off) script = [].
Proof. intros H. apply skipn_all2. lia. Qed.

(** C1, over the range the gate tests.  While the condition stack is not all true, the next item is
    passed over when it is a data push or an opcode outside the numeric range
    OP_IF..OP_ENDIF (0x63..0x68): the analysis goes on from the same state
    with only [scriptOffset] advanced, so stack, altstack, spending
    conditions and condition stack are unchanged and no error is produced.
    OP_VER (0x62) is outside the range and is passed over; OP_VERIF and
    OP_VERNOTIF (0x65, 0x66) are inside it, are dispatched, and the path
    fails BAD_OPCODE. *)
Theorem C1_not_executing_skips (script : list Item) (a : ScriptAnalyzer.t) (item : Item) :
  0 <= ScriptAnalyzer.scriptOffset a ->
  nth_error script (Z.to_nat (ScriptAnalyzer.scriptOffset a)) = Some item ->
  ConditionStack.all_true (ScriptAnalyzer.cs a) = false ->
  let next := ScriptAnalyzer.with_scriptOffset (ScriptAnalyzer.scriptOffset a + 1) a in
  (match item with
   | Push _ => True
   | Op op => op < opcodes.OP_IF \/ opcodes.OP_ENDIF < op
   end ->
   ScriptAnalyzer.analyze script a = ScriptAnalyzer.analyze script next) /\
  (item = Op opcodes.OP_VER ->
   ScriptAnalyzer.analyze script a = ScriptAnalyzer.analyze script next) /\
  (item = Op opcodes.OP_VERIF \/ item = Op opcodes.OP_VERNOTIF ->
   ScriptAnalyzer.analyze script a
   = ScriptAnalyzer.Finished (Some SCRIPT_ERR_BAD_OPCODE) next []).
Proof.
  intros Hoff Hitem Hcs next.
  assert (Hskip : ScriptAnalyzer.skipped_when_not_executing item = true ->
                  ScriptAnalyzer.analyze script a = ScriptAnalyzer.analyze script next).
  { intros Hs. unfold ScriptAnalyzer.analyze.
    rewrite (items_at_scriptOffset script _ item Hoff Hitem).
    cbn [ScriptAnalyzer.analyze_from]. rewrite Hcs, Hs. reflexivity. }
  split; [|split].
  - intros Hrange. apply Hskip. destruct item as [d|op]; [reflexivity|].
    cbn [ScriptAnalyzer.skipped_when_not_executing]. apply orb_true_iff.
    destruct Hrange; [left; apply Z.ltb_lt | right; apply Z.gtb_lt]; assumption.
  - intros ->. apply Hskip. reflexivity.
  - intros Hv. unfold ScriptAnalyzer.analyze.
    rewrite (items_at_scriptOffset script _ item Hoff Hitem).
    cbn [ScriptAnalyzer.analyze_from]. rewrite Hcs.
    destruct Hv as [-> | ->]; reflexivity.
Qed.

Lemma C1_not_executing_skips_witness :
  let script := [Op opcodes.OP_1; Op opcodes.OP_NOTIF; Push [7]; Op opcodes.OP_ENDIF] in
  let a := ScriptAnalyzer.mk LEGACY ALL [] [] [Bytes [1]] 0 2 0
             (ConditionStack.push_back ConditionStack.new false) in
  ScriptAnalyzer.analyze script a
  = ScriptAnalyzer.analyze script (ScriptAnalyzer.with_scriptOffset 3 a).
Proof.
  exact (proj1 (C1_not_executing_skips
                  [Op opcodes.OP_1; Op opcodes.OP_NOTIF; Push [7]; Op opcodes.OP_ENDIF]
                  (ScriptAnalyzer.mk LEGACY ALL [] [] [Bytes [1]] 0 2 0
                     (ConditionStack.push_back ConditionStack.new false))
                  (Push [7])
                  ltac:(vm_compute; discriminate) eq_refl eq_refl) I).
Defined.

(** Skipping does not extend to every opcode other than OP_IF, OP_NOTIF,
    OP_ELSE and OP_ENDIF: in a branch that is not executing, OP_VERIF is not
    passed over but ends the path with BAD_OPCODE.  The state is the one the
    root analyzer is in after [OP_1 OP_NOTIF]. *)
Lemma C1_counterexample :
  let a := ScriptAnalyzer.mk LEGACY ALL [] [] [Bytes [1]] 0 2 0
             (ConditionStack.push_back ConditionStack.new false) in
  let script := [Op opcodes.OP_1; Op opcodes.OP_NOTIF; Op opcodes.OP_VERIF;
                 Op opcodes.OP_ENDIF; Op opcodes.OP_1] in
  ConditionStack.all_true (ScriptAnalyzer.cs a) = false /\
  ~ In opcodes.OP_VERIF
      [opcodes.OP_IF; opcodes.OP_NOTIF; opcodes.OP_ELSE; opcodes.OP_ENDIF] /\
  ScriptAnalyzer.analyze script a
  = ScriptAnalyzer.Finished (Some SCRIPT_ERR_BAD_OPCODE)
      (ScriptAnalyzer.with_scriptOffset 3 a) [] /\
  ScriptAnalyzer.analyze script a
  <> ScriptAnalyzer.analyze script (ScriptAnalyzer.with_scriptOffset 3 a) /\
  exists forks,
    ScriptAnalyzer.analyzeScript LEGACY ALL script
    = inr (ScriptAnalyzer.Finished (Some SCRIPT_ERR_BAD_OPCODE)
             (ScriptAnalyzer.with_scriptOffset 3 a) forks).
Proof.
  cbv zeta. split; [reflexivity|]. split.
  - cbn. intros [H|[H|[H|[H|[]]]]]; discriminate.
  - split; [reflexivity|]. split; [vm_compute; discriminate|].
    eexists. vm_compute. reflexivity.
Qed.

(** C6. When the loop of [analyze] has reached the end of the script: a
    non-empty condition stack fails UNBALANCED_CONDITIONAL; otherwise more
    than one stack element fails CLEANSTACK; otherwise the final verify
    takes the lone element, a fresh variable when the stack is empty: a
    concrete element that decodes to false fails EVAL_FALSE, a symbolic one
    is appended to [spendingConditions] and the path completes (as it does,
    with nothing appended, on a concrete element that decodes to true). *)
Theorem C6_end_of_script (script : list Item) (a : ScriptAnalyzer.t) :
  Z.of_nat (length script) <= ScriptAnalyzer.scriptOffset a ->
  (ConditionStack.empty (ScriptAnalyzer.cs a) = false ->
   ScriptAnalyzer.analyze script a
   = ScriptAnalyzer.Finished (Some SCRIPT_ERR_UNBALANCED_CONDITIONAL) a []) /\
  (ConditionStack.empty (ScriptAnalyzer.cs a) = true ->
   (1 < length (ScriptAnalyzer.stack a))%nat ->
   ScriptAnalyzer.analyze script a
   = ScriptAnalyzer.Finished (Some SCRIPT_ERR_CLEANSTACK) a []) /\
  (ConditionStack.empty (ScriptAnalyzer.cs a) = true ->
   ScriptAnalyzer.stack a = [] ->
   ScriptAnalyzer.analyze script a
   = ScriptAnalyzer.Finished None
       (ScriptAnalyzer.with_spendingConditions
          (ScriptAnalyzer.spendingConditions a ++ [Var (ScriptAnalyzer.varCounter a)])
          (ScriptAnalyzer.with_varCounter (ScriptAnalyzer.varCounter a + 1) a)) []) /\
  (forall buf,
   ConditionStack.empty (ScriptAnalyzer.cs a) = true ->
   ScriptAnalyzer.stack a = [Bytes buf] ->
   ScriptAnalyzer.analyze script a
   = ScriptAnalyzer.Finished
       (if ScriptConv.Bool.decode buf then None else Some SCRIPT_ERR_EVAL_FALSE)
       (ScriptAnalyzer.with_stack [] a) []) /\
  (forall e,
   ConditionStack.empty (ScriptAnalyzer.cs a) = true ->
   ScriptAnalyzer.stack a = [e] ->
   Util.exprType e <> Util.type_value ->
   ScriptAnalyzer.analyze script a
   = ScriptAnalyzer.Finished None
       (ScriptAnalyzer.with_spendingConditions
          (ScriptAnalyzer.spendingConditions a ++ [e])
          (ScriptAnalyzer.with_stack [] a)) []).
Proof.
  intros Hend. unfold ScriptAnalyzer.analyze. rewrite items_at_end by exact Hend.
  cbn [ScriptAnalyzer.analyze_from]. unfold ScriptAnalyzer.at_end_of_script.
  destruct a as [v r s al sc vc so p c]; sa_unfold.
  repeat split.
  - intros Hc. run_method. sa_unfold. rewrite Hc. reflexivity.
  - intros Hc Hlen. run_method. sa_unfold. rewrite Hc.
    apply Nat.ltb_lt in Hlen. cbn [negb]. rewrite Hlen. reflexivity.
  - intros Hc ->. run_method. sa_unfold. rewrite Hc. reflexivity.
  - intros buf Hc ->. run_method. sa_unfold. rewrite Hc.
    cbv - [ScriptConv.Bool.decode]. destruct (ScriptConv.Bool.decode buf); reflexivity.
  - intros e Hc -> Hty. run_method. sa_unfold. rewrite Hc.
    destruct e as [b|x|op args err]; [now contradiction Hty | reflexivity | reflexivity].
Qed.

Lemma C6_end_of_script_witness :
  let script := [Push [0; 128]] in
  let a := ScriptAnalyzer.mk LEGACY ALL [Bytes [0; 128]] [] [] 0 1 0 ConditionStack.new in
  ScriptAnalyzer.analyze script a
  = ScriptAnalyzer.Finished (Some SCRIPT_ERR_EVAL_FALSE) (ScriptAnalyzer.with_stack [] a) [].
Proof.
  apply (proj1 (proj2 (proj2 (proj2
           (C6_end_of_script [Push [0; 128]]
              (ScriptAnalyzer.mk LEGACY ALL [Bytes [0; 128]] [] [] 0 1 0 ConditionStack.new)
              ltac:(vm_compute; discriminate)))))
           [0; 128]); reflexivity.
Defined.

(** ** OP_IF, OP_NOTIF and OP_CHECKMULTISIG *)

Lemma bind_inr {S A B} (m : M S A) (k : A -> M S B) (st : S) (p : A * S) :
  m st = inr p -> bind m k st = k (fst p) (snd p).
Proof. intros H. unfold bind. rewrite H. now destruct p. Qed.

Lemma takeElements_one (a : ScriptAnalyzer.t) :
  ScriptAnalyzer.takeElements 1 a =
  inr (match JS.pop (ScriptAnalyzer.stack a) with
       | Some (x, rest) => ([x], ScriptAnalyzer.with_stack rest a)
       | None => ([Var (ScriptAnalyzer.varCounter a)],
                  ScriptAnalyzer.with_varCounter (ScriptAnalyzer.varCounter a + 1) a)
       end).
Proof.
  unfold ScriptAnalyzer.takeElements. change (Z.to_nat 1) with 1%nat.
  cbn [ScriptAnalyzer.takeElements_loop].
  destruct (JS.pop (ScriptAnalyzer.stack a)) as [[x rest]|]; reflexivity.
Qed.

Lemma numFromStack_concrete (op : Z) (a : ScriptAnalyzer.t) (bottom : list Expr) (buf : list Z) :
  ScriptAnalyzer.stack a = bottom ++ [Bytes buf] ->
  ScriptAnalyzer.numFromStack op a =
  inr (if (length buf <=? 4)%nat then Some (ScriptConv.Int.decode buf) else None,
       ScriptAnalyzer.with_stack bottom a).
Proof.
  intros Hs. unfold ScriptAnalyzer.numFromStack.
  rewrite (bind_inr _ _ _ _ (takeElements_one a)).
  rewrite Hs, pop_snoc. cbn [fst snd ScriptAnalyzer.at_index nth].
  destruct (length buf <=? 4)%nat; reflexivity.
Qed.

Lemma encode_returns (n : Z) :
  Z.abs n < 2 ^ 31 -> exists buf, ScriptConv.Int.encode n = Some buf.
Proof.
  intros Hn. unfold ScriptConv.Int.encode, ScriptConv.Int.encode_fuel.
  destruct (encode_loop_spec 4 6 (Z.abs n) []) as (bs & E & _);
    [change (2 ^ (8 * Z.of_nat 4)) with (2 ^ 32); lia | lia | lia |].
  rewrite E. eauto.
Qed.

(** C4. With the condition stack all true, OP_IF / OP_NOTIF takes one
    element [e] (a fresh variable when the stack is empty), creates a fork of
    the state at that point, pushes [op == OP_IF] on this state's condition
    stack and the opposite on the fork's, and appends to the spending
    conditions: under SegwitV1, or SegwitV0 with all rules,
    [OP_EQUAL(e, TRUE)] here and [OP_EQUAL(e, FALSE)] in the fork, both tagged
    TAPSCRIPT_MINIMALIF under SegwitV1 and MINIMALIF otherwise; in every other
    configuration [e] here and [INTERNAL_NOT(e)] in the fork. *)
Theorem C4_if_notif (a : ScriptAnalyzer.t) (op : Z) :
  ConditionStack.all_true (ScriptAnalyzer.cs a) = true ->
  op = opcodes.OP_IF \/ op = opcodes.OP_NOTIF ->
  let '(e, a1) :=
    match JS.pop (ScriptAnalyzer.stack a) with
    | Some (x, rest) => (x, ScriptAnalyzer.with_stack rest a)
    | None => (Var (ScriptAnalyzer.varCounter a),
               ScriptAnalyzer.with_varCounter (ScriptAnalyzer.varCounter a + 1) a)
    end in
  let minimalIf :=
    match ScriptAnalyzer.version a, ScriptAnalyzer.rules a with
    | SEGWITV1, _ => Some SCRIPT_ERR_TAPSCRIPT_MINIMALIF
    | SEGWITV0, ALL => Some SCRIPT_ERR_MINIMALIF
    | _, _ => None
    end in
  let here :=
    match minimalIf with
    | Some error => App opcodes.OP_EQUAL [e; Bytes ScriptConv.Bool.TRUE] (Some error)
    | None => e
    end in
  let there :=
    match minimalIf with
    | Some error => App opcodes.OP_EQUAL [e; Bytes ScriptConv.Bool.FALSE] (Some error)
    | None => App opcodes.INTERNAL_NOT [e] None
    end in
  ScriptAnalyzer.execItem (ConditionStack.all_true (ScriptAnalyzer.cs a)) (Op op) a =
  inr (ScriptAnalyzer.Break
         (Some (ScriptAnalyzer.mk
                  (ScriptAnalyzer.version a) (ScriptAnalyzer.rules a)
                  (ScriptAnalyzer.stack a1) (ScriptAnalyzer.altstack a)
                  (ScriptAnalyzer.spendingConditions a ++ [there])
                  (ScriptAnalyzer.varCounter a1) (ScriptAnalyzer.scriptOffset a)
                  (ScriptAnalyzer.path a + 1)
                  (ConditionStack.push_back (ScriptAnalyzer.cs a)
                     (negb (op =? opcodes.OP_IF))))),
       ScriptAnalyzer.with_spendingConditions
         (ScriptAnalyzer.spendingConditions a ++ [here])
         (ScriptAnalyzer.with_cs
            (ConditionStack.push_back (ScriptAnalyzer.cs a) (op =? opcodes.OP_IF)) a1)).
Proof.
  intros Hcs Hop. rewrite Hcs. cbn [ScriptAnalyzer.execItem].
  assert (D : ScriptAnalyzer.execOp true op = ScriptAnalyzer.exec_if true op)
    by (destruct Hop as [-> | ->]; reflexivity).
  rewrite D. unfold ScriptAnalyzer.exec_if.
  unfold bind at 1. unfold get at 1. cbv iota beta.
  rewrite (bind_inr _ _ _ _ (takeElements_one a)).
  destruct a as [v r s al sc vc so p [size pos]]; sa_unfold.
  destruct (JS.pop s) as [[x rest]|]; cbn [fst snd ScriptAnalyzer.at_index nth];
    run_method; sa_unfold;
    destruct v, r; reflexivity.
Qed.

Lemma C4_if_notif_witness :
  ScriptAnalyzer.execItem true (Op opcodes.OP_NOTIF)
    (ScriptAnalyzer.mk SEGWITV0 ALL [Var 0; Bytes [1]] [] [] 1 1 0 ConditionStack.new)
  = inr (ScriptAnalyzer.Break
           (Some (ScriptAnalyzer.mk SEGWITV0 ALL [Var 0] []
                    [App opcodes.OP_EQUAL [Bytes [1]; Bytes ScriptConv.Bool.FALSE]
                       (Some SCRIPT_ERR_MINIMALIF)]
                    1 1 1 (ConditionStack.mk 1 (-1)))),
         ScriptAnalyzer.mk SEGWITV0 ALL [Var 0] []
           [App opcodes.OP_EQUAL [Bytes [1]; Bytes ScriptConv.Bool.TRUE]
              (Some SCRIPT_ERR_MINIMALIF)]
           1 1 0 (ConditionStack.mk 1 0)).
Proof.
  exact (C4_if_notif
           (ScriptAnalyzer.mk SEGWITV0 ALL [Var 0; Bytes [1]] [] [] 1 1 0 ConditionStack.new)
           opcodes.OP_NOTIF eq_refl (or_intror eq_refl)).
Defined.

Lemma execOp_CHECKMULTISIG (fExec : bool) :
  ScriptAnalyzer.execOp fExec opcodes.OP_CHECKMULTISIG
  = ScriptAnalyzer.exec_checkmultisig opcodes.OP_CHECKMULTISIG.
Proof. reflexivity. Qed.

Lemma ScriptVersion_eqb_eq (v w : ScriptVersion) : ScriptVersion_eqb v w = true <-> v = w.
Proof. destruct v, w; cbn; split; intros H; congruence. Qed.

(** C5. OP_CHECKMULTISIG under SegwitV1 fails TAPSCRIPT_CHECKMULTISIG and
    leaves the state as it was.  Otherwise, with a concrete pubkey count on
    top: a count buffer longer than 4 bytes fails NUM_OVERFLOW, a count [k]
    outside [0,20] fails PUBKEY_COUNT; else [k] pubkeys are taken, and with a
    concrete signature count on top then: a buffer longer than 4 bytes fails
    NUM_OVERFLOW, a count [s] outside [0,k] fails SIG_COUNT; else [s]
    signatures and one dummy element are taken, [OP_EQUAL(dummy, FALSE)]
    tagged SIG_NULLDUMMY is appended to the spending conditions and
    [App(OP_CHECKMULTISIG, [...sigs, Int.encode(s), ...pks, Int.encode(k)])]
    is pushed. *)
Theorem C5_checkmultisig (fExec : bool) (a : ScriptAnalyzer.t) :
  let run := ScriptAnalyzer.execOp fExec opcodes.OP_CHECKMULTISIG a in
  (ScriptAnalyzer.version a = SEGWITV1 ->
   run = inr (ScriptAnalyzer.Return SCRIPT_ERR_TAPSCRIPT_CHECKMULTISIG, a)) /\
  (ScriptAnalyzer.version a <> SEGWITV1 ->
   forall bottom kbuf,
   ScriptAnalyzer.stack a = bottom ++ [Bytes kbuf] ->
   let k := ScriptConv.Int.decode kbuf in
   let a1 := ScriptAnalyzer.with_stack bottom a in
   ((4 < length kbuf)%nat ->
    run = inr (ScriptAnalyzer.Return SCRIPT_ERR_NUM_OVERFLOW, a1)) /\
   ((length kbuf <= 4)%nat -> k < 0 \/ 20 < k ->
    run = inr (ScriptAnalyzer.Return SCRIPT_ERR_PUBKEY_COUNT, a1)) /\
   ((length kbuf <= 4)%nat -> 0 <= k <= 20 ->
    forall pks a2 bottom2 sbuf,
    ScriptAnalyzer.takeElements k a1 = inr (pks, a2) ->
    ScriptAnalyzer.stack a2 = bottom2 ++ [Bytes sbuf] ->
    let s := ScriptConv.Int.decode sbuf in
    let a3 := ScriptAnalyzer.with_stack bottom2 a2 in
    ((4 < length sbuf)%nat ->
     run = inr (ScriptAnalyzer.Return SCRIPT_ERR_NUM_OVERFLOW, a3)) /\
    ((length sbuf <= 4)%nat -> s < 0 \/ k < s ->
     run = inr (ScriptAnalyzer.Return SCRIPT_ERR_SIG_COUNT, a3)) /\
    ((length sbuf <= 4)%nat -> 0 <= s <= k ->
     forall sigs a4 dummy a5,
     ScriptAnalyzer.takeElements s a3 = inr (sigs, a4) ->
     ScriptAnalyzer.takeElements 1 a4 = inr ([dummy], a5) ->
     exists es ek,
       ScriptConv.Int.encode s = Some es /\
       ScriptConv.Int.encode k = Some ek /\
       run = inr (ScriptAnalyzer.Break None,
                  ScriptAnalyzer.with_stack
                    (ScriptAnalyzer.stack a5 ++
                     [App opcodes.OP_CHECKMULTISIG
                        (sigs ++ [Bytes es] ++ pks ++ [Bytes ek]) None])
                    (ScriptAnalyzer.with_spendingConditions
                       (ScriptAnalyzer.spendingConditions a5 ++
                        [App opcodes.OP_EQUAL [dummy; Bytes ScriptConv.Bool.FALSE]
                           (Some SCRIPT_ERR_SIG_NULLDUMMY)])
                       a5))))).
Proof.
  cbv zeta. split.
  - intros Hv. rewrite execOp_CHECKMULTISIG. unfold ScriptAnalyzer.exec_checkmultisig.
    unfold bind at 1. unfold get at 1. cbv iota beta. rewrite Hv. reflexivity.
  - intros Hv bottom kbuf Hs.
    assert (Ev : ScriptVersion_eqb (ScriptAnalyzer.version a) SEGWITV1 = false).
    { destruct (ScriptVersion_eqb (ScriptAnalyzer.version a) SEGWITV1) eqn:Ev; [|reflexivity].
      apply ScriptVersion_eqb_eq in Ev. contradiction. }
    assert (Stage1 : forall k',
      (if (length kbuf <=? 4)%nat then Some (ScriptConv.Int.decode kbuf) else None) = k' ->
      ScriptAnalyzer.execOp fExec opcodes.OP_CHECKMULTISIG a =
      match k' with
      | None => ret (ScriptAnalyzer.Return SCRIPT_ERR_NUM_OVERFLOW)
      | Some k =>
          if (k <? 0) || (k >? 20) then ret (ScriptAnalyzer.Return SCRIPT_ERR_PUBKEY_COUNT)
          else
            pks <- ScriptAnalyzer.takeElements k ;;
            scount <- ScriptAnalyzer.numFromStack opcodes.OP_CHECKMULTISIG ;;
            match scount with
            | None => ret (ScriptAnalyzer.Return SCRIPT_ERR_NUM_OVERFLOW)
            | Some s =>
                if (s <? 0) || (s >? k) then ret (ScriptAnalyzer.Return SCRIPT_ERR_SIG_COUNT)
                else
                  sigs <- ScriptAnalyzer.takeElements s ;;
                  dummies <- ScriptAnalyzer.takeElements 1 ;;
                  ScriptAnalyzer.push_condition
                    (App opcodes.OP_EQUAL
                       [ScriptAnalyzer.at_index dummies 0; Bytes ScriptConv.Bool.FALSE]
                       (Some SCRIPT_ERR_SIG_NULLDUMMY)) ;;
                  es <- ScriptAnalyzer.encode s ;;
                  ek <- ScriptAnalyzer.encode k ;;
                  ScriptAnalyzer.push
                    (App opcodes.OP_CHECKMULTISIG
                       (sigs ++ [Bytes es] ++ pks ++ [Bytes ek]) None) ;;
                  ScriptAnalyzer.break
            end
      end (ScriptAnalyzer.with_stack bottom a)).
    { intros k' <-. rewrite execOp_CHECKMULTISIG. unfold ScriptAnalyzer.exec_checkmultisig.
      unfold bind at 1. unfold get at 1. cbv iota beta. rewrite Ev.
      rewrite (bind_inr _ _ _ _ (numFromStack_concrete _ a bottom kbuf Hs)).
      reflexivity. }
    split; [|split].
    + intros Hlen. apply Nat.leb_gt in Hlen. rewrite (Stage1 None) by now rewrite Hlen.
      reflexivity.
    + intros Hlen Hk. apply Nat.leb_le in Hlen.
      rewrite (Stage1 (Some (ScriptConv.Int.decode kbuf))) by now rewrite Hlen.
      replace ((ScriptConv.Int.decode kbuf <? 0) || (ScriptConv.Int.decode kbuf >? 20))
        with true; [reflexivity|].
      symmetry. apply orb_true_iff.
      destruct Hk; [left; apply Z.ltb_lt | right; apply Z.gtb_lt]; assumption.
    + intros Hlen Hk pks a2 bottom2 sbuf Hpks Hs2. apply Nat.leb_le in Hlen.
      rewrite (Stage1 (Some (ScriptConv.Int.decode kbuf))) by now rewrite Hlen.
      replace ((ScriptConv.Int.decode kbuf <? 0) || (ScriptConv.Int.decode kbuf >? 20))
        with false
        by (symmetry; apply orb_false_iff; split;
            [apply Z.ltb_ge | rewrite Z.gtb_ltb; apply Z.ltb_ge]; lia).
      rewrite (bind_inr _ _ _ _ Hpks). cbn [fst snd].
      rewrite (bind_inr _ _ _ _ (numFromStack_concrete _ a2 bottom2 sbuf Hs2)). cbn [fst snd].
      split; [|split].
      * intros Hlen2. apply Nat.leb_gt in Hlen2. rewrite Hlen2. reflexivity.
      * intros Hlen2 Hsr. apply Nat.leb_le in Hlen2. rewrite Hlen2.
        replace ((ScriptConv.Int.decode sbuf <? 0)
                 || (ScriptConv.Int.decode sbuf >? ScriptConv.Int.decode kbuf))
          with true; [reflexivity|].
        symmetry. apply orb_true_iff.
        destruct Hsr; [left; apply Z.ltb_lt | right; apply Z.gtb_lt]; assumption.
      * intros Hlen2 Hsr sigs a4 dummy a5 Hsigs Hdummy.
        apply Nat.leb_le in Hlen2. rewrite Hlen2.
        replace ((ScriptConv.Int.decode sbuf <? 0)
                 || (ScriptConv.Int.decode sbuf >? ScriptConv.Int.decode kbuf))
          with false
          by (symmetry; apply orb_false_iff; split;
              [apply Z.ltb_ge | rewrite Z.gtb_ltb; apply Z.ltb_ge]; lia).
        destruct (encode_returns (ScriptConv.Int.decode sbuf)) as [es Hes]; [lia|].
        destruct (encode_returns (ScriptConv.Int.decode kbuf)) as [ek Hek]; [lia|].
        exists es, ek. split; [exact Hes|]. split; [exact Hek|].
        rewrite (bind_inr _ _ _ _ Hsigs). cbn [fst snd].
        rewrite (bind_inr _ _ _ _ Hdummy). cbn [fst snd ScriptAnalyzer.at_index nth].
        run_method. rewrite Hes, Hek. reflexivity.
Qed.

Lemma C5_checkmultisig_witness :
  let a := ScriptAnalyzer.mk LEGACY ALL
             [Bytes []; Bytes [5]; Bytes [6]; Bytes [2];
              Bytes [11]; Bytes [12]; Bytes [13]; Bytes [3]] [] [] 0 9 0
             ConditionStack.new in
  exists es ek,
    ScriptConv.Int.encode 2 = Some es /\
    ScriptConv.Int.encode 3 = Some ek /\
    ScriptAnalyzer.execOp true opcodes.OP_CHECKMULTISIG a
    = inr (ScriptAnalyzer.Break None,
           ScriptAnalyzer.mk LEGACY ALL
             [App opcodes.OP_CHECKMULTISIG
                ([Bytes [5]; Bytes [6]] ++ [Bytes es]
                 ++ [Bytes [11]; Bytes [12]; Bytes [13]] ++ [Bytes ek]) None]
             []
             [App opcodes.OP_EQUAL [Bytes []; Bytes ScriptConv.Bool.FALSE]
                (Some SCRIPT_ERR_SIG_NULLDUMMY)]
             0 9 0 ConditionStack.new).
Proof.
  cbv zeta.
  pose proof (proj2 (C5_checkmultisig true
                (ScriptAnalyzer.mk LEGACY ALL
                   [Bytes []; Bytes [5]; Bytes [6]; Bytes [2];
                    Bytes [11]; Bytes [12]; Bytes [13]; Bytes [3]] [] [] 0 9 0
                   ConditionStack.new))
                ltac:(discriminate)
                [Bytes []; Bytes [5]; Bytes [6]; Bytes [2];
                 Bytes [11]; Bytes [12]; Bytes [13]]
                [3] eq_refl) as H1.
  cbv zeta in H1.
  pose proof (proj2 (proj2 H1)
                ltac:(cbn; lia) ltac:(split; vm_compute; discriminate)
                [Bytes [11]; Bytes [12]; Bytes [13]]
                (ScriptAnalyzer.mk LEGACY ALL
                   [Bytes []; Bytes [5]; Bytes [6]; Bytes [2]] [] [] 0 9 0
                   ConditionStack.new)
                [Bytes []; Bytes [5]; Bytes [6]] [2] eq_refl eq_refl) as H2.
  cbv zeta in H2.
  exact (proj2 (proj2 H2)
           ltac:(cbn; lia) ltac:(split; vm_compute; discriminate)
           [Bytes [5]; Bytes [6]]
           (ScriptAnalyzer.mk LEGACY ALL [Bytes []] [] [] 0 9 0 ConditionStack.new)
           (Bytes [])
           (ScriptAnalyzer.mk LEGACY ALL [] [] [] 0 9 0 ConditionStack.new)
           eq_refl eq_refl).
Defined.

Lemma C10_readElements_takeElements_witness :
  let a := ScriptAnalyzer.mk LEGACY ALL [Bytes [7]] [] [] 4 0 0 ConditionStack.new in
  ScriptAnalyzer.takeElements 3 a
  = inr ([Var 5; Var 4; Bytes [7]],
         ScriptAnalyzer.mk LEGACY ALL [] [] [] 6 0 0 ConditionStack.new) /\
  ScriptAnalyzer.readElements 3 a
  = inr ([Var 5; Var 4; Bytes [7]],
         ScriptAnalyzer.mk LEGACY ALL [Var 5; Var 4; Bytes [7]] [] [] 6 0 0
           ConditionStack.new) /\
  nth_error [Var 5; Var 4; Bytes [7]] (2 - 1 - 0) = Some (Var (4 + 0)).
Proof.
  cbv zeta.
  pose proof (C10_readElements_takeElements
                (ScriptAnalyzer.mk LEGACY ALL [Bytes [7]] [] [] 4 0 0 ConditionStack.new)
                3) as H.
  cbv zeta in H. destruct H as (Ht & Hr & _ & Hn).
  split; [exact Ht|]. split; [exact Hr|].
  exact (Hn 0%nat ltac:(cbn; lia)).
Defined.

(** ** The condition stack inside [analyze] *)

Section Keeps.

Import ScriptAnalyzer.

Lemma keeps_ret {A} (x : A) (Q : A -> Prop) : Q x -> keeps (ret x) Q.
Proof. intros H a Ha. cbn. auto. Qed.

Lemma keeps_bind {A B} (m : M t A) (k : A -> M t B) (P : A -> Prop) (Q : B -> Prop) :
  keeps m P -> (forall x, P x -> keeps (k x) Q) -> keeps (bind m k) Q.
Proof.
  intros Hm Hk a Ha. unfold bind. specialize (Hm a Ha).
  destruct (m a) as [ab|[x a']]; [exact Hm|].
  destruct Hm as [Ha' Hx]. exact (Hk x Hx a' Ha').
Qed.

Lemma keeps_get : keeps get cs_sound.
Proof. intros a Ha. cbn. auto. Qed.

Lemma keeps_modify (f : t -> t) :
  (forall a, cs (f a) = cs a) -> keeps (modify f) (fun _ => True).
Proof. intros Hf a Ha. cbn. unfold cs_sound in *. rewrite Hf. auto. Qed.

Lemma keeps_abort {A} (ab : Abort) (Q : A -> Prop) : ~ cs_throw ab -> keeps (abort ab) Q.
Proof. intros H a Ha. exact H. Qed.

Lemma keeps_break : keeps break flow_sound.
Proof. apply keeps_ret. exact I. Qed.

Lemma keeps_return (e : ScriptError) : keeps (ret (Return e)) flow_sound.
Proof. apply keeps_ret. exact I. Qed.

Lemma keeps_push (e : Expr) : keeps (push e) (fun _ => True).
Proof. now apply keeps_modify. Qed.

Lemma keeps_push_all (es : list Expr) : keeps (push_all es) (fun _ => True).
Proof. now apply keeps_modify. Qed.

Lemma keeps_push_alt (e : Expr) : keeps (push_alt e) (fun _ => True).
Proof. now apply keeps_modify. Qed.

Lemma keeps_push_condition (e : Expr) : keeps (push_condition e) (fun _ => True).
Proof. now apply keeps_modify. Qed.

Lemma keeps_encode (n : Z) : keeps (encode n) (fun _ => True).
Proof.
  intros a Ha. unfold encode. destruct (ScriptConv.Int.encode n); [auto|].
  intros [H|H]; discriminate.
Qed.

Lemma keeps_takeElements (amount : Z) : keeps (takeElements amount) (fun _ => True).
Proof.
  intros a Ha. unfold takeElements. rewrite takeElements_loop_spec. cbv zeta.
  split; [exact Ha | exact I].
Qed.

Lemma readElements_pad_cs (fuel : nat) : forall amount a,
  cs (readElements_pad fuel amount a) = cs a.
Proof.
  induction fuel as [|fuel IH]; intros amount a; cbn [readElements_pad]; [reflexivity|].
  destruct (_ <? _); [|reflexivity]. now rewrite IH.
Qed.

Lemma keeps_readElements (amount : Z) : keeps (readElements amount) (fun _ => True).
Proof.
  intros a Ha. unfold readElements. cbv zeta. unfold cs_sound.
  rewrite readElements_pad_cs. auto.
Qed.

Lemma keeps_verify : keeps verify (fun _ => True).
Proof.
  unfold verify. eapply keeps_bind; [apply keeps_takeElements|]. intros elems _.
  destruct (at_index elems 0).
  - destruct (negb _); now apply keeps_ret.
  - eapply keeps_bind; [apply keeps_push_condition|]. intros; now apply keeps_ret.
  - eapply keeps_bind; [apply keeps_push_condition|]. intros; now apply keeps_ret.
Qed.

Lemma keeps_verify_if (cond : bool) (e : ScriptError) : keeps (verify_if cond e) flow_sound.
Proof.
  unfold verify_if. destruct cond; [|apply keeps_break].
  eapply keeps_bind; [apply keeps_verify|]. intros ok _.
  destruct (negb ok); [apply keeps_return | apply keeps_break].
Qed.

Lemma keeps_numFromStack (op : Z) : keeps (numFromStack op) (fun _ => True).
Proof.
  unfold numFromStack. eapply keeps_bind; [apply keeps_takeElements|]. intros elems _.
  destruct (at_index elems 0).
  - destruct (_ <=? _)%nat; now apply keeps_ret.
  - apply keeps_abort. intros [H|H]; discriminate.
  - apply keeps_abort. intros [H|H]; discriminate.
Qed.

Lemma cs_sound_push_back (a : t) (f : bool) :
  cs_sound a -> cs_sound (with_cs (ConditionStack.push_back (cs a) f) a).
Proof. unfold cs_sound. destruct a as [? ? ? ? ? ? ? ? [size pos]]. cbn. lia. Qed.

Lemma keeps_cs_push_back (f : bool) :
  keeps (modify (fun a => with_cs (ConditionStack.push_back (cs a) f) a)) (fun _ => True).
Proof. intros a Ha. cbn. split; [now apply cs_sound_push_back | exact I]. Qed.

Lemma keeps_exec_if (fExec : bool) (op : Z) : keeps (exec_if fExec op) flow_sound.
Proof.
  unfold exec_if. destruct fExec.
  - eapply keeps_bind; [apply keeps_get|]. intros this0 _.
    eapply keeps_bind; [apply keeps_takeElements|]. intros elems _.
    eapply keeps_bind; [apply keeps_get|]. intros this1 H1.
    assert (Hfork : forall e,
      flow_sound (Break (Some (fork_push_condition e
        (with_cs (ConditionStack.push_back (cs (fork_of this1)) (negb (op =? opcodes.OP_IF)))
           (fork_of this1)))))).
    { intros e. unfold flow_sound, cs_sound in *.
      destruct this1 as [? ? ? ? ? ? ? ? [size pos]]. cbn in *. lia. }
    eapply keeps_bind; [apply keeps_cs_push_back|].
    intros _ _. destruct (_ || _).
    + eapply keeps_bind; [apply keeps_push_condition|]. intros _ _.
      apply keeps_ret. apply Hfork.
    + eapply keeps_bind; [apply keeps_push_condition|]. intros _ _.
      apply keeps_ret. apply Hfork.
  - eapply keeps_bind; [apply keeps_cs_push_back|].
    intros _ _. apply keeps_break.
Qed.

(** OP_ELSE reaches [toggle_top] only on a non-empty condition stack. *)
Lemma keeps_exec_else : keeps exec_else flow_sound.
Proof.
  intros a Ha. unfold exec_else, bind, get.
  unfold cs_sound in *. destruct a as [? ? ? ? ? ? ? ? [size pos]]. cbn in *.
  unfold ConditionStack.empty, ConditionStack.toggle_top. cbn.
  destruct (Z.eqb_spec size 0); [cbn; auto|].
  destruct (Z.leb_spec size 0); [lia|].
  destruct (pos =? ConditionStack.NO_FALSE); [cbn; auto|].
  destruct (pos =? size - 1); cbn; auto.
Qed.

(** OP_ENDIF reaches [pop_back] only on a non-empty condition stack. *)
Lemma keeps_exec_endif : keeps exec_endif flow_sound.
Proof.
  intros a Ha. unfold exec_endif, bind, get.
  unfold cs_sound in *. destruct a as [? ? ? ? ? ? ? ? [size pos]]. cbn in *.
  unfold ConditionStack.empty, ConditionStack.pop_back. cbn.
  destruct (Z.eqb_spec size 0); [cbn; auto|].
  destruct (Z.leb_spec size 0); [lia|].
  cbn. split; [lia | exact I].
Qed.

Lemma flow_sound_fork (e : Expr) (this : t) :
  cs_sound this -> flow_sound (Break (Some (fork_push_condition e (fork_of this)))).
Proof.
  unfold flow_sound, cs_sound. destruct this as [? ? ? ? ? ? ? ? [size pos]]. cbn. auto.
Qed.

Ltac keeps_primitive :=
  first
    [ apply keeps_get | apply keeps_takeElements | apply keeps_readElements
    | apply keeps_push | apply keeps_push_all | apply keeps_push_alt
    | apply keeps_push_condition | apply keeps_encode | apply keeps_verify
    | apply keeps_numFromStack
    | apply keeps_modify; intros; reflexivity
    | match goal with
      | |- keeps (if ?c then _ else _) _ =>
          destruct c;
          [ apply keeps_modify; intros; reflexivity
          | apply (keeps_ret tt (fun _ => True)); exact I ]
      end ].

Ltac keeps_auto :=
  repeat first
    [ apply keeps_break | apply keeps_return | apply keeps_verify_if
    | apply keeps_exec_if | apply keeps_exec_else | apply keeps_exec_endif
    | apply keeps_ret; first [exact I | apply flow_sound_fork; assumption]
    | eapply keeps_bind; [keeps_primitive | intros ? ?]
    | match goal with
      | |- keeps (if ?c then _ else _) _ => destruct c
      | |- keeps (match ?x with _ => _ end) _ => destruct x
      end ].

Lemma keeps_exec_pick_roll (op : Z) : keeps (exec_pick_roll op) flow_sound.
Proof. unfold exec_pick_roll. keeps_auto. Qed.

Lemma keeps_exec_checkmultisig (op : Z) : keeps (exec_checkmultisig op) flow_sound.
Proof. unfold exec_checkmultisig. keeps_auto. Qed.

(** No case of the switch is left by an exception of [ConditionStack], and
    each keeps the implied size non-negative, in the state and in the fork
    it may create. *)
Lemma keeps_execOp (fExec : bool) (op : Z) : keeps (execOp fExec op) flow_sound.
Proof.
  unfold execOp.
  repeat match goal with
         | |- keeps (if ?c then _ else _) _ => destruct c
         end;
    first [ apply keeps_exec_pick_roll | apply keeps_exec_checkmultisig | keeps_auto ].
Qed.

Lemma keeps_execItem (fExec : bool) (item : Item) : keeps (execItem fExec item) flow_sound.
Proof.
  destruct item as [data|op]; cbn [execItem]; [keeps_auto | apply keeps_execOp].
Qed.

Lemma keeps_at_end_of_script : keeps at_end_of_script (fun _ => True).
Proof. unfold at_end_of_script. keeps_auto. Qed.

(** The loop: neither the analyzer nor any fork below it is left by an
    exception of [ConditionStack]. *)
Lemma analyze_from_no_cs_throw (items : list Item) : forall a,
  cs_sound a ->
  forall ab, analyze_from items a = Aborted ab -> ~ cs_throw ab.
Proof.
  induction items as [|op items IH]; intros a Ha ab; cbn [analyze_from].
  - pose proof (keeps_at_end_of_script a Ha) as K.
    destruct (at_end_of_script a) as [ab'|[r a']]; [|discriminate].
    intros E. injection E as <-. exact K.
  - set (a1 := with_scriptOffset (scriptOffset a + 1) a).
    assert (Ha1 : cs_sound a1) by exact Ha.
    change (cs (with_scriptOffset (scriptOffset a + 1) a)) with (cs a).
    destruct (negb (ConditionStack.all_true (cs a)) && skipped_when_not_executing op).
    { apply IH. exact Ha1. }
    pose proof (keeps_execItem (ConditionStack.all_true (cs a)) op a1 Ha1) as K.
    destruct (execItem (ConditionStack.all_true (cs a)) op a1) as [ab'|[fl a']].
    { intros E. injection E as <-. exact K. }
    destruct K as [Ha' Hfl]. destruct fl as [fork|e]; [|discriminate].
    destruct fork as [f|].
    + cbn [flow_sound] in Hfl. pose proof (IH f Hfl) as IHf.
      destruct (analyze_from items f) as [rf f' fs|abf].
      * destruct (_ <? _)%nat; [discriminate|].
        pose proof (IH a' Ha') as IHa.
        destruct (analyze_from items a') as [r a'' fs'|ab']; [discriminate|].
        intros E. injection E as <-. now apply IHa.
      * intros E. injection E as <-. now apply IHf.
    + destruct (_ <? _)%nat; [discriminate|].
      pose proof (IH a' Ha') as IHa.
      destruct (analyze_from items a') as [r a'' fs'|ab']; [discriminate|].
      intros E. injection E as <-. now apply IHa.
Qed.

End Keeps.

(** C9. Inside [analyze] every call of [pop_back] and of [toggle_top] is
    made on a non-empty condition stack: OP_ELSE and OP_ENDIF return
    UNBALANCED_CONDITIONAL first when [cs.empty()], and an analysis started
    from a new analyzer, or from any analyzer whose script offset and implied
    stack size are not negative, is never left by 'pop_back: stack size <= 0' or 'toggle_top:
    stack size <= 0', whether thrown by the analyzer or by a fork. *)
Theorem C9_analyze_never_throws_stack_size :
  (forall fExec a,
     ConditionStack.empty (ScriptAnalyzer.cs a) = true ->
     ScriptAnalyzer.execOp fExec opcodes.OP_ELSE a
     = inr (ScriptAnalyzer.Return SCRIPT_ERR_UNBALANCED_CONDITIONAL, a) /\
     ScriptAnalyzer.execOp fExec opcodes.OP_ENDIF a
     = inr (ScriptAnalyzer.Return SCRIPT_ERR_UNBALANCED_CONDITIONAL, a)) /\
  (forall script a,
     0 <= ScriptAnalyzer.scriptOffset a ->
     0 <= ConditionStack.m_stack_size (ScriptAnalyzer.cs a) ->
     ScriptAnalyzer.analyze script a <> ScriptAnalyzer.Aborted pop_back_stack_size /\
     ScriptAnalyzer.analyze script a <> ScriptAnalyzer.Aborted toggle_top_stack_size) /\
  (forall v r script,
     ScriptAnalyzer.analyzeScript v r script
       <> inr (ScriptAnalyzer.Aborted pop_back_stack_size) /\
     ScriptAnalyzer.analyzeScript v r script
       <> inr (ScriptAnalyzer.Aborted toggle_top_stack_size)).
Proof.
  assert (General : forall script a,
    0 <= ScriptAnalyzer.scriptOffset a ->
    0 <= ConditionStack.m_stack_size (ScriptAnalyzer.cs a) ->
    ScriptAnalyzer.analyze script a <> ScriptAnalyzer.Aborted pop_back_stack_size /\
    ScriptAnalyzer.analyze script a <> ScriptAnalyzer.Aborted toggle_top_stack_size).
  { intros script a _ Ha. unfold ScriptAnalyzer.analyze.
    split; intros E; apply (analyze_from_no_cs_throw _ a Ha _ E); [left | right]; reflexivity. }
  split; [|split].
  - intros fExec a He.
    change (ScriptAnalyzer.execOp fExec opcodes.OP_ELSE) with ScriptAnalyzer.exec_else.
    change (ScriptAnalyzer.execOp fExec opcodes.OP_ENDIF) with ScriptAnalyzer.exec_endif.
    unfold ScriptAnalyzer.exec_else, ScriptAnalyzer.exec_endif, bind, get.
    rewrite He. split; reflexivity.
  - exact General.
  - intros v r script. unfold ScriptAnalyzer.analyzeScript.
    destruct (existsb _ script); [split; discriminate|].
    destruct (General script (ScriptAnalyzer.new v r)) as [H1 H2]; [cbn; lia | cbn; lia |].
    split; intros E; injection E as E; contradiction.
Qed.

Lemma C9_analyze_never_throws_stack_size_witness :
  let script := [Op opcodes.OP_1; Op opcodes.OP_IF; Op opcodes.OP_ELSE;
                 Op opcodes.OP_ENDIF; Op opcodes.OP_ENDIF; Op opcodes.OP_ELSE] in
  0 <= ScriptAnalyzer.scriptOffset (ScriptAnalyzer.new LEGACY ALL) /\
  0 <= ConditionStack.m_stack_size (ScriptAnalyzer.cs (ScriptAnalyzer.new LEGACY ALL)) /\
  ScriptAnalyzer.analyze script (ScriptAnalyzer.new LEGACY ALL)
    <> ScriptAnalyzer.Aborted pop_back_stack_size /\
  ScriptAnalyzer.analyze script (ScriptAnalyzer.new LEGACY ALL)
    <> ScriptAnalyzer.Aborted toggle_top_stack_size.
Proof.
  cbv zeta. split; [cbn; lia|]. split; [cbn; lia|].
  exact (proj1 (proj2 C9_analyze_never_throws_stack_size)
           [Op opcodes.OP_1; Op opcodes.OP_IF; Op opcodes.OP_ELSE;
            Op opcodes.OP_ENDIF; Op opcodes.OP_ENDIF; Op opcodes.OP_ELSE]
           (ScriptAnalyzer.new LEGACY ALL) ltac:(cbn; lia) ltac:(cbn; lia)).
Defined.


(* ================================================================== *)
(** * Further properties of the code *)
(* ================================================================== *)

(** ** The boolean codec *)

(** X1. [Bool.decode(Bool.encode(v))] is [v]; [Bool.not(b)] decodes to the
    negation of what [b] decodes to, for every buffer, so
    [Bool.not(Bool.not(b))] has the truth value of [b]; and [Bool.not] is
    its own inverse on the two buffers [Bool.encode] produces. *)
Theorem X1_bool_codec (buf : list Z) (v : bool) :
  ScriptConv.Bool.decode (ScriptConv.Bool.encode v) = v /\
  ScriptConv.Bool.decode (ScriptConv.Bool.not buf) = negb (ScriptConv.Bool.decode buf) /\
  ScriptConv.Bool.decode (ScriptConv.Bool.not (ScriptConv.Bool.not buf))
    = ScriptConv.Bool.decode buf /\
  ScriptConv.Bool.not (ScriptConv.Bool.not (ScriptConv.Bool.encode v))
    = ScriptConv.Bool.encode v.
Proof.
  assert (E : forall w, ScriptConv.Bool.decode (ScriptConv.Bool.encode w) = w)
    by (intros []; reflexivity).
  unfold ScriptConv.Bool.not. rewrite !E. rewrite !negb_involutive.
  repeat split; reflexivity.
Qed.

(** X2. [Bool.decode] answers false exactly on the buffers in which every
    byte is 0, except that the last byte may be 0x80 (negative zero); the
    empty buffer is one of them. *)
Theorem X2_bool_decode_false (buf : list Z) :
  ScriptConv.Bool.decode buf = false <->
  forall i b, nth_error buf i = Some b ->
              b = 0 \/ (b = 0x80 /\ S i = length buf).
Proof.
  induction buf as [|x rest IH]; cbn [ScriptConv.Bool.decode].
  - split; [intros _ [|i] b H; discriminate | reflexivity].
  - destruct (Z.eqb_spec x 0) as [->|Hx].
    + rewrite IH. split; intros H i b Hi.
      * destruct i as [|i]; cbn [nth_error] in Hi; [injection Hi as <-; now left|].
        destruct (H i b Hi) as [?|[? ?]]; [now left|right]. cbn [length]. split; [assumption|lia].
      * destruct (H (S i) b Hi) as [?|[? E]]; [now left|right]. cbn [length] in E.
        split; [assumption|lia].
    + destruct rest as [|y rest']; cbn [negb orb].
      * destruct (Z.eqb_spec x 128) as [->|Hx']; cbn [negb]; split; try discriminate.
        -- intros _ [|i] b Hi; cbn [nth_error] in Hi; [|destruct i; discriminate].
           injection Hi as <-. right. split; reflexivity.
        -- reflexivity.
        -- intros H. destruct (H 0%nat x eq_refl) as [?|[? _]]; contradiction.
      * split; [discriminate|]. intros H.
        destruct (H 0%nat x eq_refl) as [?|[_ E]]; [contradiction|discriminate].
Qed.

(** ** The integer codec beyond the round trip *)

Lemma le_value_lt (bs : list Z) :
  Forall is_byte bs -> le_value bs < 256 ^ Z.of_nat (length bs).
Proof.
  induction 1 as [|b bs Hb _ IH]; cbn [le_value length]; [reflexivity|].
  rewrite Nat2Z.inj_succ, Z.pow_succ_r by lia. unfold is_byte in Hb. lia.
Qed.

Lemma le_value_snoc_bound (init : list Z) (L : Z) :
  Forall is_byte init -> (length init <= 3)%nat -> 0 <= L < 128 ->
  0 <= le_value (init ++ [L]) < 2 ^ 31.
Proof.
  intros Hinit Hlen HL. rewrite le_value_app. cbn [le_value]. rewrite Z.mul_0_r, Z.add_0_r.
  pose proof (le_value_nonneg init Hinit). pose proof (le_value_lt init Hinit).
  assert (0 < 256 ^ Z.of_nat (length init)) by (apply Z.pow_pos_nonneg; lia).
  assert (256 ^ Z.of_nat (length init) <= 256 ^ 3) by (apply Z.pow_le_mono_r; lia).
  change (256 ^ 3) with 16777216 in *. change (2 ^ 31) with 2147483648. nia.
Qed.

(** X3. On a buffer of at most four bytes [Int.decode] reads sign and
    magnitude: the top bit of the last byte is the sign, the other bits are
    the little-endian magnitude; the empty buffer is 0, and the result lies
    within [-0x7fffffff, 0x7fffffff]. *)
Theorem X3_int_decode_sign_magnitude (buf : list Z) :
  Forall is_byte buf -> (length buf <= 4)%nat ->
  (buf = [] -> ScriptConv.Int.decode buf = 0) /\
  (forall init top, buf = init ++ [top] ->
     ScriptConv.Int.decode buf =
     if top <? 128 then le_value (init ++ [top])
     else - le_value (init ++ [top - 128])) /\
  Z.abs (ScriptConv.Int.decode buf) <= 0x7fffffff.
Proof.
  intros Hb Hlen.
  assert (Hsnoc : forall init top, buf = init ++ [top] ->
     ScriptConv.Int.decode buf =
     if top <? 128 then le_value (init ++ [top])
     else - le_value (init ++ [top - 128])).
  { intros init top ->. apply Forall_app in Hb. destruct Hb as [Hinit Htop].
    inversion Htop as [|? ? Ht _]; subst. unfold is_byte in Ht.
    rewrite length_app in Hlen. cbn [length] in Hlen.
    unfold ScriptConv.Int.decode. rewrite last_elem_snoc, and_0x80 by exact Ht.
    destruct (Z.ltb_spec top 128); cbn [Z.eqb].
    - apply decode_loop_snoc; [assumption | lia | lia].
    - rewrite set_last_snoc, and_0x7f by exact Ht.
      destruct (Z.ltb_spec top 128); [lia|].
      rewrite Z.mod_small by lia.
      rewrite decode_loop_snoc; [reflexivity | assumption | lia | lia]. }
  split; [intros ->; reflexivity|]. split; [exact Hsnoc|].
  destruct buf as [|b0 rest]; [cbn; lia|].
  destruct (exists_last (l:=b0 :: rest)) as (init & top & E); [discriminate|].
  rewrite (Hsnoc init top E). rewrite E in Hb, Hlen.
  apply Forall_app in Hb. destruct Hb as [Hinit Htop].
  inversion Htop as [|? ? Ht _]; subst. unfold is_byte in Ht.
  rewrite length_app in Hlen. cbn [length] in Hlen.
  destruct (Z.ltb_spec top 128).
  - pose proof (le_value_snoc_bound init top Hinit ltac:(lia) ltac:(lia)). lia.
  - pose proof (le_value_snoc_bound init (top - 128) Hinit ltac:(lia) ltac:(lia)). lia.
Qed.

Lemma X3_int_decode_sign_magnitude_witness :
  ScriptConv.Int.decode [0x34; 0x12; 0x80] = - le_value [0x34; 0x12; 0] /\
  Z.abs (ScriptConv.Int.decode [0x34; 0x12; 0x80]) <= 0x7fffffff.
Proof.
  assert (Hb : Forall is_byte [0x34; 0x12; 0x80])
    by (repeat constructor; unfold is_byte; lia).
  destruct (X3_int_decode_sign_magnitude [0x34; 0x12; 0x80] Hb ltac:(cbn; lia))
    as (_ & Hs & Hbound).
  split; [exact (Hs [0x34; 0x12] 0x80 eq_refl) | exact Hbound].
Defined.

(** The encoding loop never leaves a zero byte on top. *)
Lemma encode_loop_top (k : nat) : forall fuel a buf,
  0 <= a < 2 ^ (8 * Z.of_nat k) -> a < 2 ^ 31 -> (k < fuel)%nat ->
  exists bs, ScriptConv.Int.encode_loop fuel a buf = Some (buf ++ bs)
             /\ Forall is_byte bs /\ (length bs <= k)%nat
             /\ (a = 0 <-> bs = [])
             /\ (forall top, JS.last_elem bs = Some top -> top <> 0).
Proof.
  induction k as [|k IH]; intros fuel a buf Ha H31 Hfuel.
  - change (2 ^ (8 * Z.of_nat 0)) with 1 in Ha. assert (a = 0) by lia. subst a.
    destruct fuel; [lia|]. exists []. cbn [ScriptConv.Int.encode_loop Z.eqb].
    rewrite app_nil_r. repeat split; auto. discriminate.
  - destruct fuel as [|fuel]; [lia|]. rewrite encode_loop_S.
    destruct (Z.eqb_spec a 0) as [->|Hnz].
    + exists []. rewrite app_nil_r. repeat split; auto; [cbn; lia | discriminate].
    + rewrite sar_8, and_0xff by lia.
      assert (Hstep : 2 ^ (8 * Z.of_nat (S k)) = 256 * 2 ^ (8 * Z.of_nat k)).
      { replace (8 * Z.of_nat (S k)) with (8 + 8 * Z.of_nat k) by lia.
        rewrite Z.pow_add_r by lia. reflexivity. }
      assert (Hdiv : 0 <= a / 256 < 2 ^ (8 * Z.of_nat k)).
      { split; [apply Z.div_pos; lia|]. apply Z.div_lt_upper_bound; lia. }
      assert (Hdiv31 : a / 256 < 2 ^ 31) by (apply Z.div_lt_upper_bound; lia).
      destruct (IH fuel (a / 256) (buf ++ [a mod 256]) Hdiv Hdiv31 ltac:(lia))
        as (bs & E & Hb & Hl & Hz & Htop).
      exists ((a mod 256) :: bs). rewrite E, <- app_assoc. cbn [app length].
      split; [reflexivity|]. split; [|split; [lia|split]].
      * constructor; [|exact Hb]. unfold is_byte. apply Z.mod_pos_bound. lia.
      * split; [lia | discriminate].
      * intros top Ht. destruct bs as [|b bs'].
        -- cbn in Ht. injection Ht as <-.
           assert (a / 256 = 0) by now apply Hz.
           pose proof (Z.div_mod a 256 ltac:(lia)). lia.
        -- rewrite last_elem_cons in Ht. now apply Htop.
Qed.

(** X4. For [|n| <= 0x7fffffff], [Int.encode(n)] returns at most four
    well-formed bytes, the empty buffer exactly for 0, and the encoding is
    minimal: the low seven bits of the last byte are not all 0 unless the
    byte before it has its top bit set. *)
Theorem X4_int_encode_minimal (n : Z) :
  Z.abs n <= 0x7fffffff ->
  exists buf,
    ScriptConv.Int.encode n = Some buf /\
    Forall is_byte buf /\ (length buf <= 4)%nat /\
    (n = 0 <-> buf = []) /\
    (forall init top, buf = init ++ [top] ->
       top mod 128 <> 0 \/ exists init' prev, init = init' ++ [prev] /\ 128 <= prev).
Proof.
  intros Hn. unfold ScriptConv.Int.encode, ScriptConv.Int.encode_fuel.
  destruct (encode_loop_top 4 6 (Z.abs n) [])
    as (bs & E & Hb & Hl & Hz & Htop);
    [change (2 ^ (8 * Z.of_nat 4)) with (2 ^ 32); lia | lia | lia |].
  rewrite E. cbn [app]. eexists; split; [reflexivity|].
  destruct (Z.eq_dec n 0) as [->|Hnz].
  { assert (bs = []) as -> by (apply Hz; reflexivity).
    cbn. repeat split; auto. intros init top H. destruct init; discriminate. }
  assert (Hne : bs <> []) by (intros H; apply Hz in H; lia).
  destruct (exists_last Hne) as (init & L & ->).
  pose proof Hb as Hb'. apply Forall_app in Hb'. destruct Hb' as [Hinit HL].
  inversion HL as [|? ? HLb _]; subst. unfold is_byte in HLb.
  specialize (Htop L (last_elem_snoc init L)).
  rewrite length_app in Hl. cbn [length] in Hl.
  assert (H4 : length init = 3%nat -> L < 128).
  { intros E3. destruct (encode_loop_spec 4 6 (Z.abs n) [])
      as (bs2 & E2 & Hv & _); [change (2 ^ (8 * Z.of_nat 4)) with (2 ^ 32); lia | lia | lia |].
    rewrite E in E2. injection E2 as <-.
    rewrite le_value_app in Hv. cbn [le_value] in Hv. rewrite E3 in Hv.
    change (256 ^ Z.of_nat 3) with 16777216 in Hv.
    pose proof (le_value_nonneg init Hinit). lia. }
  unfold ScriptConv.Int.encode_sign. rewrite last_elem_snoc, and_0x80 by exact HLb.
  assert (Hsplit : forall (xs ys : list Z) (x y : Z),
             xs ++ [x] = ys ++ [y] -> xs = ys /\ x = y)
    by (intros; now apply app_inj_tail).
  destruct (Z.ltb_spec L 128) as [Hlow|Hhigh]; cbn [Z.eqb negb].
  - destruct (n <? 0).
    + rewrite set_last_snoc, or_0x80 by lia.
      assert (Hb2 : Forall is_byte (init ++ [L + 128]))
        by (apply Forall_app; split; [exact Hinit | constructor; [unfold is_byte; lia | constructor]]).
      rewrite Uint8Array_bytes by exact Hb2.
      split; [exact Hb2|]. split; [rewrite length_app; cbn [length]; lia|].
      split; [split; [lia | intros H; destruct init; discriminate]|].
      intros init0 top H. apply Hsplit in H. destruct H as [<- <-]. left.
      replace (L + 128) with (L + 1 * 128) by lia. rewrite Z.mod_add by lia.
      rewrite Z.mod_small by lia. exact Htop.
    + rewrite Uint8Array_bytes by exact Hb.
      split; [exact Hb|]. split; [rewrite length_app; cbn [length]; lia|].
      split; [split; [lia | intros H; destruct init; discriminate]|].
      intros init0 top H. apply Hsplit in H. destruct H as [<- <-]. left.
      rewrite Z.mod_small by lia. exact Htop.
  - assert (Hlen3 : (length init <= 2)%nat).
    { destruct (Nat.eq_dec (length init) 3) as [E3|]; [specialize (H4 E3); lia | lia]. }
    assert (Hb2 : forall s, 0 <= s < 256 -> Forall is_byte ((init ++ [L]) ++ [s])).
    { intros s Hs. apply Forall_app; split; [exact Hb | constructor; [exact Hs | constructor]]. }
    assert (Hs : 0 <= (if n <? 0 then 128 else 0) < 256) by (destruct (n <? 0); lia).
    rewrite Uint8Array_bytes by (apply Hb2; exact Hs).
    split; [apply Hb2; exact Hs|]. split; [rewrite !length_app; cbn [length]; lia|].
    split; [split; [lia | intros H; destruct (init ++ [L]); discriminate]|].
    intros init0 top H. apply Hsplit in H. destruct H as [<- <-]. right.
    exists init, L. split; [reflexivity | exact Hhigh].
Qed.

Lemma X4_int_encode_minimal_witness :
  exists buf,
    ScriptConv.Int.encode (-255) = Some buf /\
    Forall is_byte buf /\ (length buf <= 4)%nat /\
    (-255 = 0 <-> buf = []) /\
    (forall init top, buf = init ++ [top] ->
       top mod 128 <> 0 \/ exists init' prev, init = init' ++ [prev] /\ 128 <= prev).
Proof. exact (X4_int_encode_minimal (-255) ltac:(vm_compute; discriminate)). Defined.



(** ** Comparing buffers and expressions *)

(** X6. [bufferCompare] is a three-way comparison: it returns -1, 0 or 1,
    returns 0 exactly when the two buffers are equal, and swapping the
    arguments negates the result. *)
Theorem X6_bufferCompare_three_way (buf1 buf2 : list Z) :
  (Util.bufferCompare buf1 buf2 = -1 \/ Util.bufferCompare buf1 buf2 = 0
   \/ Util.bufferCompare buf1 buf2 = 1) /\
  (Util.bufferCompare buf1 buf2 = 0 <-> buf1 = buf2) /\
  Util.bufferCompare buf2 buf1 = - Util.bufferCompare buf1 buf2.
Proof.
  revert buf2. induction buf1 as [|x r1 IH]; intros [|y r2];
    rewrite ?bufferCompare_nil_nil, ?bufferCompare_nil_cons, ?bufferCompare_cons_nil,
      ?bufferCompare_cons_cons.
  - repeat split; auto.
  - repeat split; try discriminate; auto.
  - repeat split; try discriminate; auto.
  - rewrite !Z.gtb_ltb. destruct (IH r2) as (Hv & He & Hs).
    destruct (Z.ltb_spec x y), (Z.ltb_spec y x); try lia.
    + repeat split; auto; [lia | intros Heq; injection Heq as ? ?; lia].
    + repeat split; auto; [lia | intros Heq; injection Heq as ? ?; lia].
    + assert (x = y) by lia. subst y. split; [exact Hv|]. split; [|exact Hs].
      rewrite He. split; [intros ->; reflexivity | intros Heq; now injection Heq].
Qed.

Lemma args_equal_Forall2 (equal : Expr -> Expr -> bool) (R : Expr -> Expr -> Prop)
  (xs : list Expr) : forall ys,
  Forall (fun x => forall y, equal x y = true <-> R x y) xs ->
  length xs = length ys ->
  (Util.args_equal equal xs ys = true <-> Forall2 R xs ys).
Proof.
  induction xs as [|x xs IH]; intros [|y ys] Hall Hlen; try discriminate.
  - cbn. split; auto.
  - cbn [Util.args_equal]. inversion Hall as [|? ? Hx Hxs]; subst.
    injection Hlen as Hlen. specialize (IH ys Hxs Hlen). specialize (Hx y).
    destruct (equal x y); cbn [negb].
    + rewrite IH. split; [intros H; constructor; [now apply Hx | exact H]
                         | intros H; now inversion H].
    + split; [discriminate|]. intros H. inversion H; subst.
      assert (false = true) by now apply Hx. discriminate.
Qed.

Lemma Forall2_eq_map {A B} (f : A -> B) (xs ys : list A) :
  Forall2 (fun x y => f x = f y) xs ys <-> (length xs = length ys /\ map f xs = map f ys).
Proof.
  split.
  - induction 1 as [|x y xs ys Hxy _ [IHl IHm]]; cbn; [auto|]. split; congruence.
  - revert ys. induction xs as [|x xs IH]; intros [|y ys] [Hl Hm]; try discriminate;
      [constructor|]. cbn in Hl, Hm. injection Hm as Hx Hm. injection Hl as Hl.
    constructor; auto.
Qed.

(** X7. [exprEqual] is structural equality that ignores the error tags:
    it answers true exactly when the two expressions are the same once
    every [error] field is removed. *)
Theorem X7_exprEqual_modulo_error (a b : Expr) :
  Util.exprEqual a b = true <-> erase_error a = erase_error b.
Proof.
  revert b. induction a as [ba|va|opa argsa ea IH] using Expr_nested_ind;
    intros [bb|vb|opb argsb eb]; cbn [Util.exprEqual erase_error];
    try (split; [discriminate | congruence]).
  - rewrite Z.eqb_eq. rewrite (proj1 (proj2 (X6_bufferCompare_three_way ba bb))).
    split; congruence.
  - rewrite Z.eqb_eq. split; congruence.
  - destruct (Nat.eqb_spec (length argsa) (length argsb)) as [Hl|Hl]; cbn [negb].
    + pose proof (args_equal_Forall2 Util.exprEqual
                    (fun x y => erase_error x = erase_error y) argsa argsb IH Hl) as HA.
      rewrite Forall2_eq_map in HA.
      destruct (Util.args_equal Util.exprEqual argsa argsb); cbn [negb].
      * rewrite Z.eqb_eq. destruct (proj1 HA eq_refl) as [_ Hm].
        split; [intros ->; now rewrite Hm | intros H; now injection H].
      * split; [discriminate|]. intros H. injection H as _ Hm.
        assert (false = true) by (apply HA; auto). discriminate.
    + split; [discriminate|]. intros H. injection H as _ Hm.
      apply (f_equal (@length Expr)) in Hm. rewrite !length_map in Hm. contradiction.
Qed.

Lemma args_equal_order (xs : list Expr) : forall ys,
  Forall (fun x => forall y, Util.exprEqual x y = true <-> Util.exprCompareFn x y = 0) xs ->
  length xs = length ys ->
  (Util.args_equal Util.exprEqual xs ys = true <-> args_order xs ys = 0).
Proof.
  induction xs as [|x xs IH]; intros [|y ys] Hall Hlen; try discriminate.
  - cbn. split; auto.
  - cbn [Util.args_equal]. rewrite args_order_cons.
    inversion Hall as [|? ? Hx Hxs]; subst.
    injection Hlen as Hlen. specialize (IH ys Hxs Hlen). specialize (Hx y).
    destruct (Util.exprEqual x y); cbn [negb].
    + rewrite (proj1 Hx eq_refl). exact IH.
    + destruct (Z.eqb_spec (Util.exprCompareFn x y) 0) as [E|E].
      * assert (false = true) by now apply Hx. discriminate.
      * split; [discriminate | contradiction].
Qed.

(** X8. [exprEqual] and [exprCompareFn] agree: two expressions are
    [exprEqual] exactly when [exprCompareFn] returns 0 on them, so after the
    list has been sorted duplicates are neighbours. *)
Theorem X8_exprEqual_iff_compare_zero (a b : Expr) :
  Util.exprEqual a b = true <-> Util.exprCompareFn a b = 0.
Proof.
  revert b. induction a as [ba|va|opa argsa ea IH] using Expr_nested_ind;
    intros [bb|vb|opb argsb eb];
    try (cbn; split; [discriminate | lia]).
  - cbn [Util.exprEqual Util.exprCompareFn]. apply Z.eqb_eq.
  - cbn [Util.exprEqual Util.exprCompareFn]. rewrite Z.eqb_eq. lia.
  - rewrite exprCompareFn_App. cbn [Util.exprEqual].
    destruct (Nat.eqb_spec (length argsa) (length argsb)) as [Hl|Hl]; cbn [negb].
    + pose proof (args_equal_order argsa argsb IH Hl) as HA.
      replace (Z.of_nat (length argsa) - Z.of_nat (length argsb) =? 0) with true
        by (symmetry; apply Z.eqb_eq; lia).
      destruct (Util.args_equal Util.exprEqual argsa argsb); cbn [negb].
      * rewrite Z.eqb_eq. destruct (Z.eqb_spec (opa - opb) 0); [|lia].
        rewrite (proj1 HA eq_refl). lia.
      * split; [discriminate|]. intros H.
        destruct (Z.eqb_spec (opa - opb) 0); [|lia].
        assert (false = true) by now apply HA. discriminate.
    + split; [discriminate|].
      destruct (Z.eqb_spec (opa - opb) 0); [|lia].
      destruct (Z.eqb_spec (Z.of_nat (length argsa) - Z.of_nat (length argsb)) 0); lia.
Qed.

(** X9. [exprCompareFn] is a consistent comparator in the sense
    [Array.prototype.sort] requires: every expression compares equal to
    itself, "compares equal" is symmetric and transitive, swapping the
    arguments swaps "less" and "greater", and "less" and "greater" are
    transitive. *)
Theorem X9_exprCompareFn_consistent (a b c : Expr) :
  Util.exprCompareFn a a = 0 /\
  (Util.exprCompareFn a b = 0 <-> Util.exprCompareFn b a = 0) /\
  (Util.exprCompareFn a b < 0 <-> 0 < Util.exprCompareFn b a) /\
  (Util.exprCompareFn a b = 0 -> Util.exprCompareFn b c = 0 -> Util.exprCompareFn a c = 0) /\
  (Util.exprCompareFn a b < 0 -> Util.exprCompareFn b c < 0 -> Util.exprCompareFn a c < 0) /\
  (0 < Util.exprCompareFn a b -> 0 < Util.exprCompareFn b c -> 0 < Util.exprCompareFn a c).
Proof.
  pose proof (exprCompareFn_refl a) as R.
  pose proof (exprCompareFn_antisym a b) as Aab.
  pose proof (exprCompareFn_antisym b c) as Abc.
  pose proof (exprCompareFn_antisym a c) as Aac.
  pose proof (exprCompareFn_trans a b c) as T1.
  pose proof (exprCompareFn_trans c b a) as T2.
  pose proof (exprCompareFn_antisym c b) as Acb.
  pose proof (exprCompareFn_antisym b a) as Aba.
  pose proof (exprCompareFn_antisym c a) as Aca.
  unfold trans_at, antisym_at in *. lia.
Qed.

Lemma X9_exprCompareFn_consistent_witness :
  Util.exprCompareFn (Var 3) (App opcodes.OP_ADD [Var 0; Var 1] None) < 0 /\
  Util.exprCompareFn (App opcodes.OP_ADD [Var 0; Var 1] None) (Bytes [1]) < 0 /\
  Util.exprCompareFn (Var 3) (Bytes [1]) < 0.
Proof.
  split; [vm_compute; reflexivity|]. split; [vm_compute; reflexivity|].
  apply (proj1 (proj2 (proj2 (proj2 (proj2
           (X9_exprCompareFn_consistent (Var 3)
              (App opcodes.OP_ADD [Var 0; Var 1] None) (Bytes [1]))))))).
  - vm_compute. reflexivity.
  - vm_compute. reflexivity.
Defined.

(** ** Opcodes on a stack that is deep enough *)

Lemma takeElements_deep (a : ScriptAnalyzer.t) (lower tops : list Expr) :
  ScriptAnalyzer.stack a = lower ++ tops ->
  ScriptAnalyzer.takeElements (Z.of_nat (length tops)) a
  = inr (tops, ScriptAnalyzer.with_stack lower a).
Proof.
  intros Hs. unfold ScriptAnalyzer.takeElements.
  rewrite Nat2Z.id, takeElements_loop_spec. cbv zeta. rewrite Hs, length_app.
  replace (length tops - (length lower + length tops))%nat with 0%nat by lia.
  replace (length lower + length tops - length tops)%nat with (length lower) by lia.
  rewrite skipn_app, firstn_app, skipn_all, firstn_all, Nat.sub_diag.
  cbn [fresh_vars skipn firstn app]. rewrite !app_nil_r.
  destruct a; sa_unfold. change (Z.of_nat 0) with 0. rewrite Z.add_0_r. reflexivity.
Qed.

Lemma readElements_deep (a : ScriptAnalyzer.t) (lower tops : list Expr) :
  ScriptAnalyzer.stack a = lower ++ tops ->
  ScriptAnalyzer.readElements (Z.of_nat (length tops)) a = inr (tops, a).
Proof.
  intros Hs. unfold ScriptAnalyzer.readElements. cbv zeta.
  rewrite Nat2Z.id, readElements_pad_spec by lia. cbv zeta. rewrite Hs, length_app.
  replace (length tops - (length lower + length tops))%nat with 0%nat by lia.
  cbn [fresh_vars app].
  destruct a as [v r s al sc vc so p c]; sa_unfold. subst s.
  change (Z.of_nat 0) with 0. rewrite Z.add_0_r.
  unfold JS.slice_from, JS.clamp_index. rewrite length_app.
  destruct (Z.ltb_spec (Z.of_nat (length lower + length tops) - Z.of_nat (length tops)) 0); [lia|].
  replace (Z.to_nat (Z.min (Z.of_nat (length lower + length tops) - Z.of_nat (length tops))
                       (Z.of_nat (length lower + length tops)))) with (length lower) by lia.
  rewrite skipn_app, skipn_all, Nat.sub_diag. reflexivity.
Qed.

Ltac run_deep Hs tops :=
  match goal with
  | |- context [bind (ScriptAnalyzer.takeElements ?k) ?f ?a] =>
      rewrite (bind_inr (ScriptAnalyzer.takeElements k) f a _
                 (takeElements_deep a _ tops Hs))
  | |- context [bind (ScriptAnalyzer.readElements ?k) ?f ?a] =>
      rewrite (bind_inr (ScriptAnalyzer.readElements k) f a _
                 (readElements_deep a _ tops Hs))
  end; cbn [fst snd].

(** X10. The opcodes that drop or reorder the top of the stack do what
    the script language prescribes when the stack is deep enough: OP_DROP,
    OP_2DROP and OP_NIP remove, OP_SWAP, OP_ROT, OP_2SWAP and OP_2ROT
    permute, OP_TUCK copies the top below the second element; nothing else
    of the state changes and no error is returned. *)
Theorem X10_stack_shuffles (fExec : bool) (a : ScriptAnalyzer.t)
  (bottom : list Expr) (x1 x2 x3 x4 x5 x6 : Expr) :
  let run op := ScriptAnalyzer.execOp fExec op a in
  let leaves s := inr (ScriptAnalyzer.Break None, ScriptAnalyzer.with_stack s a) in
  (ScriptAnalyzer.stack a = bottom ++ [x1] ->
   run opcodes.OP_DROP = leaves bottom) /\
  (ScriptAnalyzer.stack a = bottom ++ [x1; x2] ->
   run opcodes.OP_2DROP = leaves bottom /\
   run opcodes.OP_NIP = leaves (bottom ++ [x2]) /\
   run opcodes.OP_SWAP = leaves (bottom ++ [x2; x1]) /\
   run opcodes.OP_TUCK = leaves (bottom ++ [x2; x1; x2])) /\
  (ScriptAnalyzer.stack a = bottom ++ [x1; x2; x3] ->
   run opcodes.OP_ROT = leaves (bottom ++ [x2; x3; x1])) /\
  (ScriptAnalyzer.stack a = bottom ++ [x1; x2; x3; x4] ->
   run opcodes.OP_2SWAP = leaves (bottom ++ [x3; x4; x1; x2])) /\
  (ScriptAnalyzer.stack a = bottom ++ [x1; x2; x3; x4; x5; x6] ->
   run opcodes.OP_2ROT = leaves (bottom ++ [x3; x4; x5; x6; x1; x2])).
Proof.
  cbv zeta.
  assert (T : forall tops op (k : list Expr -> M ScriptAnalyzer.t ScriptAnalyzer.Flow),
    ScriptAnalyzer.stack a = bottom ++ tops ->
    ScriptAnalyzer.execOp fExec op
      = bind (ScriptAnalyzer.takeElements (Z.of_nat (length tops))) k ->
    ScriptAnalyzer.execOp fExec op a = k tops (ScriptAnalyzer.with_stack bottom a)).
  { intros tops op k Hs ->. now rewrite (bind_inr _ _ _ _ (takeElements_deep a _ tops Hs)). }
  split; [intros Hs; rewrite (T [x1] opcodes.OP_DROP _ Hs eq_refl);
          run_method; destruct a; reflexivity|].
  split; [intros Hs; split; [|split; [|split]]|].
  - rewrite (T [x1; x2] opcodes.OP_2DROP _ Hs eq_refl). run_method. destruct a; reflexivity.
  - rewrite (T [x1; x2] opcodes.OP_NIP _ Hs eq_refl). run_method. destruct a; reflexivity.
  - rewrite (T [x1; x2] opcodes.OP_SWAP _ Hs eq_refl). run_method. destruct a; reflexivity.
  - rewrite (T [x1; x2] opcodes.OP_TUCK _ Hs eq_refl). run_method. destruct a; reflexivity.
  - split; [|split]; intros Hs.
    + rewrite (T [x1; x2; x3] opcodes.OP_ROT _ Hs eq_refl). run_method. destruct a; reflexivity.
    + rewrite (T [x1; x2; x3; x4] opcodes.OP_2SWAP _ Hs eq_refl).
      run_method. destruct a; reflexivity.
    + rewrite (T [x1; x2; x3; x4; x5; x6] opcodes.OP_2ROT _ Hs eq_refl).
      run_method. destruct a; reflexivity.
Qed.

Lemma X10_stack_shuffles_witness :
  let a := ScriptAnalyzer.mk LEGACY ALL [Var 0; Bytes [1]; Bytes [2]; Bytes [3]] [] [] 1 5 0
             ConditionStack.new in
  ScriptAnalyzer.execOp true opcodes.OP_ROT a
  = inr (ScriptAnalyzer.Break None,
         ScriptAnalyzer.with_stack [Var 0; Bytes [2]; Bytes [3]; Bytes [1]] a).
Proof.
  exact (proj1 (proj2 (proj2
           (X10_stack_shuffles true
              (ScriptAnalyzer.mk LEGACY ALL [Var 0; Bytes [1]; Bytes [2]; Bytes [3]] [] [] 1 5 0
                 ConditionStack.new)
              [Var 0] (Bytes [1]) (Bytes [2]) (Bytes [3]) (Var 0) (Var 0) (Var 0))))
           eq_refl).
Defined.

(** X11. The opcodes that copy do what the script language prescribes when
    the stack is deep enough: OP_DUP, OP_2DUP and OP_3DUP repeat the top one,
    two and three elements, OP_OVER copies the second element, OP_2OVER the
    third and fourth; OP_SIZE leaves the top in place and pushes
    [App(OP_SIZE, [top])].  Nothing else of the state changes. *)
Theorem X11_stack_copies (fExec : bool) (a : ScriptAnalyzer.t)
  (bottom : list Expr) (x1 x2 x3 x4 : Expr) :
  let run op := ScriptAnalyzer.execOp fExec op a in
  let leaves s := inr (ScriptAnalyzer.Break None, ScriptAnalyzer.with_stack s a) in
  (ScriptAnalyzer.stack a = bottom ++ [x1] ->
   run opcodes.OP_DUP = leaves (bottom ++ [x1; x1]) /\
   run opcodes.OP_SIZE = leaves (bottom ++ [x1; App opcodes.OP_SIZE [x1] None])) /\
  (ScriptAnalyzer.stack a = bottom ++ [x1; x2] ->
   run opcodes.OP_2DUP = leaves (bottom ++ [x1; x2; x1; x2]) /\
   run opcodes.OP_OVER = leaves (bottom ++ [x1; x2; x1])) /\
  (ScriptAnalyzer.stack a = bottom ++ [x1; x2; x3] ->
   run opcodes.OP_3DUP = leaves (bottom ++ [x1; x2; x3; x1; x2; x3])) /\
  (ScriptAnalyzer.stack a = bottom ++ [x1; x2; x3; x4] ->
   run opcodes.OP_2OVER = leaves (bottom ++ [x1; x2; x3; x4; x1; x2])).
Proof.
  cbv zeta.
  assert (T : forall tops op (k : list Expr -> M ScriptAnalyzer.t ScriptAnalyzer.Flow),
    ScriptAnalyzer.stack a = bottom ++ tops ->
    ScriptAnalyzer.execOp fExec op
      = bind (ScriptAnalyzer.readElements (Z.of_nat (length tops))) k ->
    ScriptAnalyzer.execOp fExec op a = k tops a).
  { intros tops op k Hs ->. now rewrite (bind_inr _ _ _ _ (readElements_deep a _ tops Hs)). }
  assert (E : forall tops more, ScriptAnalyzer.stack a = bottom ++ tops ->
    ScriptAnalyzer.with_stack (ScriptAnalyzer.stack a ++ more) a
    = ScriptAnalyzer.with_stack (bottom ++ tops ++ more) a).
  { intros tops more ->. now rewrite <- app_assoc. }
  split; [intros Hs; split|split; [intros Hs; split|split; intros Hs]].
  - rewrite (T [x1] opcodes.OP_DUP _ Hs eq_refl). run_method.
    cbn [ScriptAnalyzer.at_index nth]. now rewrite (E [x1] [x1] Hs).
  - rewrite (T [x1] opcodes.OP_SIZE _ Hs eq_refl). run_method. cbv beta.
    now rewrite (E [x1] [App opcodes.OP_SIZE [x1] None] Hs).
  - rewrite (T [x1; x2] opcodes.OP_2DUP _ Hs eq_refl). run_method. cbv beta.
    now rewrite (E [x1; x2] [x1; x2] Hs).
  - rewrite (T [x1; x2] opcodes.OP_OVER _ Hs eq_refl). run_method.
    cbn [ScriptAnalyzer.at_index nth]. now rewrite (E [x1; x2] [x1] Hs).
  - rewrite (T [x1; x2; x3] opcodes.OP_3DUP _ Hs eq_refl). run_method. cbv beta.
    now rewrite (E [x1; x2; x3] [x1; x2; x3] Hs).
  - rewrite (T [x1; x2; x3; x4] opcodes.OP_2OVER _ Hs eq_refl). run_method. cbv beta.
    change (JS.slice_to 2 [x1; x2; x3; x4]) with [x1; x2].
    now rewrite (E [x1; x2; x3; x4] [x1; x2] Hs).
Qed.

Lemma X11_stack_copies_witness :
  let a := ScriptAnalyzer.mk LEGACY ALL [Var 0; Bytes [1]; Bytes [2]] [] [] 1 5 0
             ConditionStack.new in
  ScriptAnalyzer.execOp true opcodes.OP_OVER a
  = inr (ScriptAnalyzer.Break None,
         ScriptAnalyzer.with_stack [Var 0; Bytes [1]; Bytes [2]; Bytes [1]] a).
Proof.
  exact (proj2 (proj1 (proj2
           (X11_stack_copies true
              (ScriptAnalyzer.mk LEGACY ALL [Var 0; Bytes [1]; Bytes [2]] [] [] 1 5 0
                 ConditionStack.new)
              [Var 0] (Bytes [1]) (Bytes [2]) (Var 0) (Var 0)))
           eq_refl)).
Defined.

(** ** The verify step *)

Lemma push_then_verify (e : Expr) (err : ScriptError) (a : ScriptAnalyzer.t) :
  Util.exprType e <> Util.type_value ->
  bind (ScriptAnalyzer.push e) (fun _ => ScriptAnalyzer.verify_if true err) a
  = inr (ScriptAnalyzer.Break None,
         ScriptAnalyzer.with_spendingConditions
           (ScriptAnalyzer.spendingConditions a ++ [e]) a).
Proof.
  intros He. unfold ScriptAnalyzer.verify_if, ScriptAnalyzer.verify.
  unfold bind at 1. unfold ScriptAnalyzer.push, modify.
  unfold bind at 1. unfold bind at 1.
  rewrite takeElements_one. sa_unfold. rewrite pop_snoc.
  cbn [ScriptAnalyzer.at_index nth].
  destruct e as [b|v|o args er]; [now contradiction He | |];
    (run_method; destruct a; reflexivity).
Qed.

(** X12. OP_EQUALVERIFY and OP_CHECKSIGVERIFY always go through: the
    predicate they build from the two elements taken is symbolic, so their
    verify step never fails; it removes the predicate from the stack and
    appends it to [spendingConditions].  EQUALVERIFY and CHECKSIGVERIFY are
    not returned. *)
Theorem X12_verify_variants_record (fExec : bool) (a : ScriptAnalyzer.t) :
  exists elems a1,
    ScriptAnalyzer.takeElements 2 a = inr (elems, a1) /\
    ScriptAnalyzer.execOp fExec opcodes.OP_EQUALVERIFY a
    = inr (ScriptAnalyzer.Break None,
           ScriptAnalyzer.with_spendingConditions
             (ScriptAnalyzer.spendingConditions a ++ [App opcodes.OP_EQUAL elems None]) a1) /\
    ScriptAnalyzer.execOp fExec opcodes.OP_CHECKSIGVERIFY a
    = inr (ScriptAnalyzer.Break None,
           ScriptAnalyzer.with_spendingConditions
             (ScriptAnalyzer.spendingConditions a ++ [App opcodes.OP_CHECKSIG elems None]) a1).
Proof.
  destruct (ScriptAnalyzer.takeElements 2 a) as [ab|[elems a1]] eqn:E; [discriminate|].
  exists elems, a1. split; [reflexivity|].
  assert (Hsc : ScriptAnalyzer.spendingConditions a1 = ScriptAnalyzer.spendingConditions a).
  { unfold ScriptAnalyzer.takeElements in E. rewrite takeElements_loop_spec in E.
    cbv zeta in E. injection E as _ <-. destruct a; reflexivity. }
  split.
  - change (ScriptAnalyzer.execOp fExec opcodes.OP_EQUALVERIFY)
      with (bind (ScriptAnalyzer.takeElements 2)
              (fun elems => bind (ScriptAnalyzer.push (App opcodes.OP_EQUAL elems None))
                 (fun _ => ScriptAnalyzer.verify_if true SCRIPT_ERR_EQUALVERIFY))).
    rewrite (bind_inr _ _ _ _ E). cbn [fst snd].
    rewrite push_then_verify by discriminate. now rewrite Hsc.
  - change (ScriptAnalyzer.execOp fExec opcodes.OP_CHECKSIGVERIFY)
      with (bind (ScriptAnalyzer.takeElements 2)
              (fun elems => bind (ScriptAnalyzer.push (App opcodes.OP_CHECKSIG elems None))
                 (fun _ => ScriptAnalyzer.verify_if true SCRIPT_ERR_CHECKSIGVERIFY))).
    rewrite (bind_inr _ _ _ _ E). cbn [fst snd].
    rewrite push_then_verify by discriminate. now rewrite Hsc.
Qed.

(** X13. OP_VERIFY takes the top element, a fresh variable when the stack
    is empty: on a concrete element that decodes to false it returns
    VERIFY, on one that decodes to true it only removes it, and a symbolic
    element is removed and appended to [spendingConditions]. *)
Theorem X13_op_verify (fExec : bool) (a : ScriptAnalyzer.t) :
  let run := ScriptAnalyzer.execOp fExec opcodes.OP_VERIFY a in
  (ScriptAnalyzer.stack a = [] ->
   run = inr (ScriptAnalyzer.Break None,
              ScriptAnalyzer.with_spendingConditions
                (ScriptAnalyzer.spendingConditions a ++ [Var (ScriptAnalyzer.varCounter a)])
                (ScriptAnalyzer.with_varCounter (ScriptAnalyzer.varCounter a + 1) a))) /\
  (forall bottom buf, ScriptAnalyzer.stack a = bottom ++ [Bytes buf] ->
   run = inr (if ScriptConv.Bool.decode buf then ScriptAnalyzer.Break None
              else ScriptAnalyzer.Return SCRIPT_ERR_VERIFY,
              ScriptAnalyzer.with_stack bottom a)) /\
  (forall bottom e, ScriptAnalyzer.stack a = bottom ++ [e] ->
   Util.exprType e <> Util.type_value ->
   run = inr (ScriptAnalyzer.Break None,
              ScriptAnalyzer.with_spendingConditions
                (ScriptAnalyzer.spendingConditions a ++ [e])
                (ScriptAnalyzer.with_stack bottom a))).
Proof.
  cbv zeta.
  assert (R : ScriptAnalyzer.execOp fExec opcodes.OP_VERIFY a
              = bind ScriptAnalyzer.verify
                  (fun ok => if negb ok then ret (ScriptAnalyzer.Return SCRIPT_ERR_VERIFY)
                             else ScriptAnalyzer.break) a) by reflexivity.
  rewrite R. clear R.
  split; [|split]; unfold ScriptAnalyzer.verify; unfold bind at 1; unfold bind at 1;
    rewrite takeElements_one.
  - intros Hs. rewrite Hs, pop_nil. cbn [ScriptAnalyzer.at_index nth].
    run_method. destruct a; reflexivity.
  - intros bottom buf Hs. rewrite Hs, pop_snoc. cbn [ScriptAnalyzer.at_index nth].
    destruct (ScriptConv.Bool.decode buf); reflexivity.
  - intros bottom e Hs He. rewrite Hs, pop_snoc. cbn [ScriptAnalyzer.at_index nth].
    destruct e as [b|v|o args er]; [now contradiction He | |];
      (run_method; destruct a; reflexivity).
Qed.

Lemma X13_op_verify_witness :
  let a := ScriptAnalyzer.mk LEGACY ALL [Var 0; Bytes [0; 0x80]] [] [] 1 3 0
             ConditionStack.new in
  ScriptAnalyzer.execOp true opcodes.OP_VERIFY a
  = inr (ScriptAnalyzer.Return SCRIPT_ERR_VERIFY, ScriptAnalyzer.with_stack [Var 0] a).
Proof.
  exact (proj1 (proj2
           (X13_op_verify true
              (ScriptAnalyzer.mk LEGACY ALL [Var 0; Bytes [0; 0x80]] [] [] 1 3 0
                 ConditionStack.new)))
           [Var 0] [0; 0x80] eq_refl).
Defined.

(** ** The altstack *)

(** X14. OP_TOALTSTACK moves the top of the stack (a fresh variable when the
    stack is empty) to the altstack and OP_FROMALTSTACK moves it back: after
    the two the state is the one before when the stack was not empty.
    OP_FROMALTSTACK on an empty altstack returns
    INVALID_ALTSTACK_OPERATION and changes nothing. *)
Theorem X14_altstack_round_trip (fExec : bool) (a : ScriptAnalyzer.t) :
  (forall bottom x, ScriptAnalyzer.stack a = bottom ++ [x] ->
   let moved := ScriptAnalyzer.with_altstack (ScriptAnalyzer.altstack a ++ [x])
                  (ScriptAnalyzer.with_stack bottom a) in
   ScriptAnalyzer.execOp fExec opcodes.OP_TOALTSTACK a
     = inr (ScriptAnalyzer.Break None, moved) /\
   ScriptAnalyzer.execOp fExec opcodes.OP_FROMALTSTACK moved
     = inr (ScriptAnalyzer.Break None, a)) /\
  (ScriptAnalyzer.stack a = [] ->
   ScriptAnalyzer.execOp fExec opcodes.OP_TOALTSTACK a
   = inr (ScriptAnalyzer.Break None,
          ScriptAnalyzer.with_altstack
            (ScriptAnalyzer.altstack a ++ [Var (ScriptAnalyzer.varCounter a)])
            (ScriptAnalyzer.with_varCounter (ScriptAnalyzer.varCounter a + 1) a))) /\
  (ScriptAnalyzer.altstack a = [] ->
   ScriptAnalyzer.execOp fExec opcodes.OP_FROMALTSTACK a
   = inr (ScriptAnalyzer.Return SCRIPT_ERR_INVALID_ALTSTACK_OPERATION, a)).
Proof.
  assert (To : ScriptAnalyzer.execOp fExec opcodes.OP_TOALTSTACK
               = bind (ScriptAnalyzer.takeElements 1)
                   (fun elems => bind (ScriptAnalyzer.push_alt (ScriptAnalyzer.at_index elems 0))
                      (fun _ => ScriptAnalyzer.break))) by reflexivity.
  assert (From : ScriptAnalyzer.execOp fExec opcodes.OP_FROMALTSTACK
               = bind get (fun this =>
                   match JS.pop (ScriptAnalyzer.altstack this) with
                   | None => ret (ScriptAnalyzer.Return SCRIPT_ERR_INVALID_ALTSTACK_OPERATION)
                   | Some (x, rest) =>
                       bind (modify (ScriptAnalyzer.with_altstack rest))
                         (fun _ => bind (ScriptAnalyzer.push x) (fun _ => ScriptAnalyzer.break))
                   end)) by reflexivity.
  split; [|split].
  - intros bottom x Hs. cbv zeta. split.
    + rewrite To. unfold bind at 1. rewrite takeElements_one, Hs, pop_snoc.
      cbn [ScriptAnalyzer.at_index nth]. run_method. destruct a; reflexivity.
    + rewrite From. unfold bind at 1. unfold get at 1. sa_unfold. rewrite pop_snoc.
      run_method. sa_unfold. rewrite <- Hs. destruct a; reflexivity.
  - intros Hs. rewrite To. unfold bind at 1. rewrite takeElements_one, Hs, pop_nil.
    cbn [ScriptAnalyzer.at_index nth]. run_method. destruct a; reflexivity.
  - intros Hs. rewrite From. unfold bind at 1. unfold get at 1. rewrite Hs, pop_nil.
    reflexivity.
Qed.

Lemma X14_altstack_round_trip_witness :
  let a := ScriptAnalyzer.mk LEGACY ALL [Var 0; Bytes [1]] [Bytes [9]] [] 1 3 0
             ConditionStack.new in
  ScriptAnalyzer.execOp true opcodes.OP_FROMALTSTACK
    (ScriptAnalyzer.mk LEGACY ALL [Var 0] [Bytes [9]; Bytes [1]] [] 1 3 0 ConditionStack.new)
  = inr (ScriptAnalyzer.Break None, a).
Proof.
  exact (proj2 (proj1
           (X14_altstack_round_trip true
              (ScriptAnalyzer.mk LEGACY ALL [Var 0; Bytes [1]] [Bytes [9]] [] 1 3 0
                 ConditionStack.new))
           [Var 0] (Bytes [1]) eq_refl)).
Defined.

(** ** OP_PICK, OP_ROLL and the numbers read from the stack *)

Lemma execOp_PICK_ROLL (fExec : bool) (op : Z) :
  op = opcodes.OP_PICK \/ op = opcodes.OP_ROLL ->
  ScriptAnalyzer.execOp fExec op = ScriptAnalyzer.exec_pick_roll op.
Proof. intros [-> | ->]; reflexivity. Qed.

Lemma splice1_middle {A} (bottom : list A) (x : A) (above : list A) :
  JS.splice1 (Z.of_nat (length (bottom ++ [x] ++ above)) - Z.of_nat (length above) - 1)
    (bottom ++ [x] ++ above) = bottom ++ above.
Proof.
  unfold JS.splice1, JS.clamp_index. rewrite !length_app. cbn [length].
  set (k := Z.of_nat (length bottom + (1 + length above)) - Z.of_nat (length above) - 1).
  assert (Hk : k = Z.of_nat (length bottom)) by lia.
  destruct (Z.ltb_spec k 0); [lia|].
  replace (Z.to_nat (Z.min k (Z.of_nat (length bottom + (1 + length above)))))
    with (length bottom) by lia.
  rewrite firstn_app, firstn_all, Nat.sub_diag. cbn [firstn]. rewrite app_nil_r.
  change (S (length bottom)) with (1 + length bottom)%nat.
  rewrite <- skipn_skipn, skipn_app, skipn_all, Nat.sub_diag.
  reflexivity.
Qed.

(** X15. OP_PICK and OP_ROLL with a concrete index on top of the stack: an
    index buffer longer than 4 bytes returns NUM_OVERFLOW and a negative
    index INVALID_STACK_OPERATION; with index [n >= 0] and at least [n + 1]
    elements below it, OP_PICK pushes a copy of the element [n] places below
    the top and OP_ROLL moves that element to the top.  Nothing else of the
    state changes. *)
Theorem X15_pick_roll (fExec : bool) (a : ScriptAnalyzer.t) (rest : list Expr) (index : list Z) :
  ScriptAnalyzer.stack a = rest ++ [Bytes index] ->
  let n := ScriptConv.Int.decode index in
  ((4 < length index)%nat ->
   forall op, op = opcodes.OP_PICK \/ op = opcodes.OP_ROLL ->
   ScriptAnalyzer.execOp fExec op a
   = inr (ScriptAnalyzer.Return SCRIPT_ERR_NUM_OVERFLOW, ScriptAnalyzer.with_stack rest a)) /\
  ((length index <= 4)%nat -> n < 0 ->
   forall op, op = opcodes.OP_PICK \/ op = opcodes.OP_ROLL ->
   ScriptAnalyzer.execOp fExec op a
   = inr (ScriptAnalyzer.Return SCRIPT_ERR_INVALID_STACK_OPERATION,
          ScriptAnalyzer.with_stack rest a)) /\
  ((length index <= 4)%nat ->
   forall bottom x above,
   rest = bottom ++ [x] ++ above -> n = Z.of_nat (length above) ->
   ScriptAnalyzer.execOp fExec opcodes.OP_PICK a
   = inr (ScriptAnalyzer.Break None,
          ScriptAnalyzer.with_stack (bottom ++ [x] ++ above ++ [x]) a) /\
   ScriptAnalyzer.execOp fExec opcodes.OP_ROLL a
   = inr (ScriptAnalyzer.Break None,
          ScriptAnalyzer.with_stack (bottom ++ above ++ [x]) a)).
Proof.
  intros Hs n.
  assert (Start : forall op, op = opcodes.OP_PICK \/ op = opcodes.OP_ROLL ->
    ScriptAnalyzer.execOp fExec op a =
    match (if (length index <=? 4)%nat then Some n else None) with
    | None => ret (ScriptAnalyzer.Return SCRIPT_ERR_NUM_OVERFLOW)
    | Some n =>
        if n <? 0 then ret (ScriptAnalyzer.Return SCRIPT_ERR_INVALID_STACK_OPERATION)
        else
          elems <- ScriptAnalyzer.readElements (n + 1) ;;
          (if op =? opcodes.OP_ROLL then
             modify (fun a =>
               ScriptAnalyzer.with_stack
                 (JS.splice1 (Z.of_nat (length (ScriptAnalyzer.stack a)) - n - 1)
                    (ScriptAnalyzer.stack a)) a)
           else ret tt) ;;
          ScriptAnalyzer.push (ScriptAnalyzer.at_index elems 0) ;;
          ScriptAnalyzer.break
    end (ScriptAnalyzer.with_stack rest a)).
  { intros op Hop. rewrite (execOp_PICK_ROLL fExec op Hop).
    unfold ScriptAnalyzer.exec_pick_roll.
    rewrite (bind_inr _ _ _ _ (numFromStack_concrete op a rest index Hs)). reflexivity. }
  split; [|split].
  - intros Hlen op Hop. rewrite (Start op Hop).
    apply Nat.leb_gt in Hlen. rewrite Hlen. reflexivity.
  - intros Hlen Hneg op Hop. rewrite (Start op Hop).
    apply Nat.leb_le in Hlen. rewrite Hlen. apply Z.ltb_lt in Hneg. rewrite Hneg. reflexivity.
  - intros Hlen bottom x above Hrest Hn. apply Nat.leb_le in Hlen.
    assert (Hread : ScriptAnalyzer.readElements (n + 1) (ScriptAnalyzer.with_stack rest a)
                    = inr (x :: above, ScriptAnalyzer.with_stack rest a)).
    { replace (n + 1) with (Z.of_nat (length (x :: above))) by (cbn [length]; lia).
      apply (readElements_deep _ bottom). destruct a; sa_unfold. exact Hrest. }
    assert (Hnn : (n <? 0) = false) by (apply Z.ltb_ge; lia).
    split.
    + rewrite (Start _ (or_introl eq_refl)), Hlen, Hnn.
      rewrite (bind_inr _ _ _ _ Hread). cbn [fst snd ScriptAnalyzer.at_index nth].
      run_method. change (opcodes.OP_PICK =? opcodes.OP_ROLL) with false. cbv iota beta.
      clear Start Hread Hs. subst rest. destruct a as [v r s al sc vc so p c]. sa_unfold.
      rewrite <- !app_assoc. reflexivity.
    + rewrite (Start _ (or_intror eq_refl)), Hlen, Hnn.
      rewrite (bind_inr _ _ _ _ Hread). cbn [fst snd ScriptAnalyzer.at_index nth].
      run_method. change (opcodes.OP_ROLL =? opcodes.OP_ROLL) with true. cbv iota beta.
      clear Start Hread Hs. subst rest. destruct a as [v r s al sc vc so p c]. sa_unfold.
      rewrite Hn, (splice1_middle bottom x above), <- app_assoc. reflexivity.
Qed.

Lemma X15_pick_roll_witness :
  let a := ScriptAnalyzer.mk LEGACY ALL [Var 0; Bytes [7]; Bytes [8]; Bytes [9]; Bytes [2]]
             [] [] 1 6 0 ConditionStack.new in
  ScriptAnalyzer.execOp true opcodes.OP_ROLL a
  = inr (ScriptAnalyzer.Break None,
         ScriptAnalyzer.with_stack ([Var 0] ++ [Bytes [8]; Bytes [9]] ++ [Bytes [7]]) a).
Proof.
  exact (proj2 (proj2 (proj2
           (X15_pick_roll true
              (ScriptAnalyzer.mk LEGACY ALL [Var 0; Bytes [7]; Bytes [8]; Bytes [9]; Bytes [2]]
                 [] [] 1 6 0 ConditionStack.new)
              [Var 0; Bytes [7]; Bytes [8]; Bytes [9]] [2] eq_refl))
           ltac:(cbn; lia) [Var 0] (Bytes [7]) [Bytes [8]; Bytes [9]] eq_refl eq_refl)).
Defined.

(** X16. A count that is not concrete is not an error code but an
    exception: with an empty stack (the count would be a fresh variable) or
    a symbolic element on top, OP_PICK, OP_ROLL and, outside SegwitV1,
    OP_CHECKMULTISIG and OP_CHECKMULTISIGVERIFY throw "... can't use
    stack/output values as depth (yet)". *)
Theorem X16_symbolic_count_throws (fExec : bool) (a : ScriptAnalyzer.t) (op : Z) :
  (ScriptAnalyzer.stack a = [] \/
   exists bottom e, ScriptAnalyzer.stack a = bottom ++ [e]
                    /\ Util.exprType e <> Util.type_value) ->
  ScriptAnalyzer.numFromStack op a = inl (depth_not_concrete op) /\
  (op = opcodes.OP_PICK \/ op = opcodes.OP_ROLL ->
   ScriptAnalyzer.execOp fExec op a = inl (depth_not_concrete op)) /\
  (op = opcodes.OP_CHECKMULTISIG \/ op = opcodes.OP_CHECKMULTISIGVERIFY ->
   ScriptAnalyzer.version a <> SEGWITV1 ->
   ScriptAnalyzer.execOp fExec op a = inl (depth_not_concrete op)).
Proof.
  intros Hs.
  assert (N : ScriptAnalyzer.numFromStack op a = inl (depth_not_concrete op)).
  { unfold ScriptAnalyzer.numFromStack.
    rewrite (bind_inr _ _ _ _ (takeElements_one a)).
    destruct Hs as [Hs | (bottom & e & Hs & He)].
    - rewrite Hs, pop_nil. reflexivity.
    - rewrite Hs, pop_snoc. cbn [fst snd ScriptAnalyzer.at_index nth].
      destruct e; [now contradiction He | reflexivity | reflexivity]. }
  split; [exact N|]. split.
  - intros Hop. rewrite (execOp_PICK_ROLL fExec op Hop).
    unfold ScriptAnalyzer.exec_pick_roll, bind. now rewrite N.
  - intros Hop Hv.
    assert (D : ScriptAnalyzer.execOp fExec op = ScriptAnalyzer.exec_checkmultisig op)
      by (destruct Hop as [-> | ->]; reflexivity).
    rewrite D. unfold ScriptAnalyzer.exec_checkmultisig.
    unfold bind at 1. unfold get at 1. cbv iota beta.
    destruct (ScriptVersion_eqb (ScriptAnalyzer.version a) SEGWITV1) eqn:Ev;
      [apply ScriptVersion_eqb_eq in Ev; contradiction|].
    unfold bind. now rewrite N.
Qed.

Lemma X16_symbolic_count_throws_witness :
  ScriptAnalyzer.execOp true opcodes.OP_PICK (ScriptAnalyzer.new LEGACY ALL)
  = inl (depth_not_concrete opcodes.OP_PICK).
Proof.
  exact (proj1 (proj2
           (X16_symbolic_count_throws true (ScriptAnalyzer.new LEGACY ALL) opcodes.OP_PICK
              (or_introl eq_refl)))
           (or_introl eq_refl)).
Defined.

(** ** A branch that is not executing *)

Lemma analyze_from_rewrap (o : ScriptAnalyzer.Outcome) :
  match o with
  | ScriptAnalyzer.Finished r this fs => ScriptAnalyzer.Finished r this ([] ++ fs)
  | ScriptAnalyzer.Aborted ab => ScriptAnalyzer.Aborted ab
  end = o.
Proof. now destruct o. Qed.

(** One round of the loop on an item that breaks without a fork. *)
Lemma analyze_from_break (item : Item) (items : list Item) (a a' : ScriptAnalyzer.t) :
  negb (ConditionStack.all_true (ScriptAnalyzer.cs a))
    && ScriptAnalyzer.skipped_when_not_executing item = false ->
  ScriptAnalyzer.execItem (ConditionStack.all_true (ScriptAnalyzer.cs a)) item
    (ScriptAnalyzer.with_scriptOffset (ScriptAnalyzer.scriptOffset a + 1) a)
  = inr (ScriptAnalyzer.Break None, a') ->
  (length (ScriptAnalyzer.stack a') + length (ScriptAnalyzer.altstack a') <= 1000)%nat ->
  ScriptAnalyzer.analyze_from (item :: items) a = ScriptAnalyzer.analyze_from items a'.
Proof.
  intros Hgate Hexec Hsize. cbn [ScriptAnalyzer.analyze_from].
  change (ScriptAnalyzer.cs (ScriptAnalyzer.with_scriptOffset
            (ScriptAnalyzer.scriptOffset a + 1) a)) with (ScriptAnalyzer.cs a).
  rewrite Hgate, Hexec.
  apply Nat.ltb_ge in Hsize. rewrite Hsize. apply analyze_from_rewrap.
Qed.

Lemma analyze_from_skip (item : Item) (items : list Item) (a : ScriptAnalyzer.t) :
  negb (ConditionStack.all_true (ScriptAnalyzer.cs a))
    && ScriptAnalyzer.skipped_when_not_executing item = true ->
  ScriptAnalyzer.analyze_from (item :: items) a
  = ScriptAnalyzer.analyze_from items
      (ScriptAnalyzer.with_scriptOffset (ScriptAnalyzer.scriptOffset a + 1) a).
Proof.
  intros Hgate. cbn [ScriptAnalyzer.analyze_from].
  change (ScriptAnalyzer.cs (ScriptAnalyzer.with_scriptOffset
            (ScriptAnalyzer.scriptOffset a + 1) a)) with (ScriptAnalyzer.cs a).
  now rewrite Hgate.
Qed.

Lemma skip_well_nested (items : list Item) : forall (depth : nat) (a : ScriptAnalyzer.t) rest,
  0 <= ConditionStack.m_first_false_pos (ScriptAnalyzer.cs a)
    < ConditionStack.m_stack_size (ScriptAnalyzer.cs a) - Z.of_nat depth ->
  (length (ScriptAnalyzer.stack a) + length (ScriptAnalyzer.altstack a) <= 1000)%nat ->
  well_nested depth items = true ->
  ScriptAnalyzer.analyze_from (items ++ rest) a
  = ScriptAnalyzer.analyze_from rest
      (ScriptAnalyzer.with_cs
         (ConditionStack.mk
            (ConditionStack.m_stack_size (ScriptAnalyzer.cs a) - Z.of_nat depth)
            (ConditionStack.m_first_false_pos (ScriptAnalyzer.cs a)))
         (ScriptAnalyzer.with_scriptOffset
            (ScriptAnalyzer.scriptOffset a + Z.of_nat (length items)) a)).
Proof.
  induction items as [|item items IH]; intros depth a rest Hpos Hsize Hwn.
  - cbn [well_nested] in Hwn. apply Nat.eqb_eq in Hwn. subst depth.
    cbn [app length]. f_equal.
    destruct a as [v r s al sc vc so p [size pos]]. sa_unfold. cbn. f_equal; [lia|].
    f_equal. lia.
  - assert (Hexec : ConditionStack.all_true (ScriptAnalyzer.cs a) = false).
    { unfold ConditionStack.all_true, ConditionStack.NO_FALSE. apply Z.eqb_neq. lia. }
    assert (Skip : ScriptAnalyzer.skipped_when_not_executing item = true ->
                   well_nested depth items = true ->
                   ScriptAnalyzer.analyze_from ((item :: items) ++ rest) a
                   = ScriptAnalyzer.analyze_from rest
                       (ScriptAnalyzer.with_cs
                          (ConditionStack.mk
                             (ConditionStack.m_stack_size (ScriptAnalyzer.cs a) - Z.of_nat depth)
                             (ConditionStack.m_first_false_pos (ScriptAnalyzer.cs a)))
                          (ScriptAnalyzer.with_scriptOffset
                             (ScriptAnalyzer.scriptOffset a + Z.of_nat (length (item :: items)))
                             a))).
    { intros Hskip Hwn'. cbn [app]. rewrite analyze_from_skip by (now rewrite Hexec, Hskip).
      rewrite (IH depth) by (try exact Hwn'; destruct a; exact Hpos || exact Hsize).
      f_equal. destruct a as [v r s al sc vc so p [size pos]]. sa_unfold. cbn [length].
      f_equal. lia. }
    destruct item as [data|op]; [apply Skip; [reflexivity | exact Hwn]|].
    cbn [well_nested] in Hwn.
    destruct a as [v r s al sc vc so p [size pos]].
    cbn [ScriptAnalyzer.cs ScriptAnalyzer.stack ScriptAnalyzer.altstack
         ConditionStack.m_stack_size ConditionStack.m_first_false_pos] in Hpos, Hsize, Hexec.
    assert (Hne : (pos =? ConditionStack.NO_FALSE) = false) by exact Hexec.
    destruct ((op =? opcodes.OP_IF) || (op =? opcodes.OP_NOTIF)) eqn:Hif.
    { (* a nested conditional opens *)
      cbn [app].
      rewrite (analyze_from_break _ _ _
                 (ScriptAnalyzer.mk v r s al sc vc (so + 1) p
                    (ConditionStack.mk (size + 1) pos))).
      - rewrite (IH (S depth)) by (try exact Hwn; sa_unfold; cbn; lia).
        f_equal. sa_unfold. cbn [length ConditionStack.m_stack_size
                                 ConditionStack.m_first_false_pos].
        f_equal; [lia|]. f_equal. lia.
      - cbn [ScriptAnalyzer.cs]. rewrite Hexec. cbn [negb andb].
        apply orb_true_iff in Hif. destruct Hif as [H | H]; apply Z.eqb_eq in H; now subst op.
      - cbn [ScriptAnalyzer.cs]. rewrite Hexec.
        apply orb_true_iff in Hif.
        assert (D : ScriptAnalyzer.execOp false op = ScriptAnalyzer.exec_if false op)
          by (destruct Hif as [H | H]; apply Z.eqb_eq in H; subst op; reflexivity).
        cbn [ScriptAnalyzer.execItem]. rewrite D.
        unfold ScriptAnalyzer.exec_if. run_method. sa_unfold.
        unfold ConditionStack.push_back.
        cbn [ConditionStack.m_stack_size ConditionStack.m_first_false_pos].
        rewrite Hne. reflexivity.
      - exact Hsize. }
    destruct (Z.eqb_spec op opcodes.OP_ELSE) as [-> | Helse].
    { destruct depth as [|depth']; [discriminate|]. cbn [app].
      rewrite (analyze_from_break _ _ _
                 (ScriptAnalyzer.mk v r s al sc vc (so + 1) p (ConditionStack.mk size pos))).
      - rewrite (IH (S depth')) by (try exact Hwn; sa_unfold; cbn; lia).
        f_equal. sa_unfold. cbn [length ConditionStack.m_stack_size
                                 ConditionStack.m_first_false_pos].
        f_equal. lia.
      - cbn [ScriptAnalyzer.cs]. rewrite Hexec. reflexivity.
      - cbn [ScriptAnalyzer.cs]. rewrite Hexec. cbn [ScriptAnalyzer.execItem].
        change (ScriptAnalyzer.execOp false opcodes.OP_ELSE) with ScriptAnalyzer.exec_else.
        unfold ScriptAnalyzer.exec_else. run_method. sa_unfold.
        unfold ConditionStack.empty, ConditionStack.toggle_top.
        cbn [ConditionStack.m_stack_size ConditionStack.m_first_false_pos].
        destruct (Z.eqb_spec size 0); [lia|].
        destruct (Z.leb_spec size 0); [lia|]. rewrite Hne.
        destruct (Z.eqb_spec pos (size - 1)); [lia|]. reflexivity.
      - exact Hsize. }
    destruct (Z.eqb_spec op opcodes.OP_ENDIF) as [-> | Hendif].
    { destruct depth as [|depth']; [discriminate|]. cbn [app].
      rewrite (analyze_from_break _ _ _
                 (ScriptAnalyzer.mk v r s al sc vc (so + 1) p
                    (ConditionStack.mk (size - 1) pos))).
      - rewrite (IH depth') by (try exact Hwn; sa_unfold; cbn; lia).
        f_equal. sa_unfold. cbn [length ConditionStack.m_stack_size
                                 ConditionStack.m_first_false_pos].
        f_equal; [lia|]. f_equal. lia.
      - cbn [ScriptAnalyzer.cs]. rewrite Hexec. reflexivity.
      - cbn [ScriptAnalyzer.cs]. rewrite Hexec. cbn [ScriptAnalyzer.execItem].
        change (ScriptAnalyzer.execOp false opcodes.OP_ENDIF) with ScriptAnalyzer.exec_endif.
        unfold ScriptAnalyzer.exec_endif. run_method. sa_unfold.
        unfold ConditionStack.empty, ConditionStack.pop_back.
        cbn [ConditionStack.m_stack_size ConditionStack.m_first_false_pos].
        destruct (Z.eqb_spec size 0); [lia|].
        destruct (Z.leb_spec size 0); [lia|].
        destruct (Z.eqb_spec pos (size - 1)); [lia|]. reflexivity.
      - exact Hsize. }
    destruct ((op =? opcodes.OP_VERIF) || (op =? opcodes.OP_VERNOTIF)) eqn:Hver;
      [discriminate|].
    apply Skip; [|exact Hwn].
    apply orb_false_iff in Hif, Hver. destruct Hif as [H1 H2], Hver as [H3 H4].
    apply Z.eqb_neq in H1, H2, H3, H4.
    unfold opcodes.OP_IF, opcodes.OP_NOTIF, opcodes.OP_VERIF, opcodes.OP_VERNOTIF,
      opcodes.OP_ELSE, opcodes.OP_ENDIF in *.
    cbn [ScriptAnalyzer.skipped_when_not_executing].
    unfold opcodes.OP_IF, opcodes.OP_ENDIF.
    apply orb_true_iff. destruct (Z.ltb_spec op 99); [now left | right].
    apply Z.gtb_lt. lia.
Qed.

(** X17. A branch that is not executing passes over a whole well-nested
    stretch of script: when the condition stack holds a false value, the
    stacks hold at most 1000 elements and the items from [scriptOffset] on
    begin with a stretch that closes every conditional it opens and has no
    OP_VERIF/OP_VERNOTIF, the analysis is the one that starts behind the
    stretch from the same state.  Pushes and opcodes are not dispatched, and
    the nested OP_IF/OP_NOTIF, OP_ELSE and OP_ENDIF leave the condition
    stack as it was. *)
Theorem X17_not_executing_skips_block (script block rest : list Item) (a : ScriptAnalyzer.t) :
  0 <= ScriptAnalyzer.scriptOffset a ->
  skipn (Z.to_nat (ScriptAnalyzer.scriptOffset a)) script = block ++ rest ->
  0 <= ConditionStack.m_first_false_pos (ScriptAnalyzer.cs a)
    < ConditionStack.m_stack_size (ScriptAnalyzer.cs a) ->
  (length (ScriptAnalyzer.stack a) + length (ScriptAnalyzer.altstack a) <= 1000)%nat ->
  well_nested 0 block = true ->
  ScriptAnalyzer.analyze script a
  = ScriptAnalyzer.analyze script
      (ScriptAnalyzer.with_scriptOffset
         (ScriptAnalyzer.scriptOffset a + Z.of_nat (length block)) a).
Proof.
  intros Hoff Hitems Hpos Hsize Hwn. unfold ScriptAnalyzer.analyze.
  rewrite Hitems, (skip_well_nested block 0 a rest) by (try assumption; cbn; lia).
  destruct a as [v r s al sc vc so p [size pos]]. sa_unfold.
  cbn [ConditionStack.m_stack_size ConditionStack.m_first_false_pos] in *.
  replace (Z.to_nat (so + Z.of_nat (length block)))
    with (length block + Z.to_nat so)%nat by lia.
  rewrite <- skipn_skipn, Hitems, skipn_app, skipn_all, Nat.sub_diag.
  cbn [skipn app]. f_equal. f_equal. f_equal. cbn. lia.
Qed.

Lemma X17_not_executing_skips_block_witness :
  let script := [Op opcodes.OP_0; Op opcodes.OP_IF;
                 Op opcodes.OP_DUP; Op opcodes.OP_IF; Push [1]; Op opcodes.OP_ELSE;
                 Op opcodes.OP_RETURN; Op opcodes.OP_ENDIF;
                 Op opcodes.OP_ENDIF; Op opcodes.OP_1] in
  let a := ScriptAnalyzer.mk LEGACY ALL [] [] [] 0 2 0 (ConditionStack.mk 1 0) in
  ScriptAnalyzer.analyze script a
  = ScriptAnalyzer.analyze script (ScriptAnalyzer.with_scriptOffset (2 + 6) a).
Proof.
  exact (X17_not_executing_skips_block
           [Op opcodes.OP_0; Op opcodes.OP_IF;
            Op opcodes.OP_DUP; Op opcodes.OP_IF; Push [1]; Op opcodes.OP_ELSE;
            Op opcodes.OP_RETURN; Op opcodes.OP_ENDIF;
            Op opcodes.OP_ENDIF; Op opcodes.OP_1]
           [Op opcodes.OP_DUP; Op opcodes.OP_IF; Push [1]; Op opcodes.OP_ELSE;
            Op opcodes.OP_RETURN; Op opcodes.OP_ENDIF]
           [Op opcodes.OP_ENDIF; Op opcodes.OP_1]
           (ScriptAnalyzer.mk LEGACY ALL [] [] [] 0 2 0 (ConditionStack.mk 1 0))
           ltac:(cbn; lia) eq_refl ltac:(cbn; lia) ltac:(cbn; lia) eq_refl).
Defined.

(** ** Invariants of the switch

    The cases of the [switch] are built from a few methods; an invariant
    that is kept by every assignment to [stack], [altstack],
    [spendingConditions], [varCounter] and [cs] is kept by all of them. *)

Section Holds.

Import ScriptAnalyzer.

Variable I : t -> Prop.
Variable E : Abort -> Prop.
Variable Qf : Flow -> Prop.

Hypothesis I_stack : forall s a, I a -> I (with_stack s a).
Hypothesis I_altstack : forall s a, I a -> I (with_altstack s a).
Hypothesis I_spendingConditions : forall s a, I a -> I (with_spendingConditions s a).
Hypothesis I_varCounter : forall n a, I a -> I (with_varCounter n a).
Hypothesis I_cs : forall c a, I a -> I (with_cs c a).
Hypothesis E_pop_back : E pop_back_stack_size.
Hypothesis E_toggle_top : E toggle_top_stack_size.
Hypothesis Q_break : Qf (Break None).
Hypothesis Q_return :
  forall e, In e switch_errors -> e <> SCRIPT_ERR_BAD_OPCODE -> Qf (Return e).

Lemma holds_ret {A} (x : A) (Q : A -> Prop) : Q x -> holds I E (ret x) Q.
Proof. intros H a Ha. cbn. auto. Qed.

Lemma holds_bind {A B} (m : M t A) (k : A -> M t B) (P : A -> Prop) (Q : B -> Prop) :
  holds I E m P -> (forall x, P x -> holds I E (k x) Q) -> holds I E (bind m k) Q.
Proof.
  intros Hm Hk a Ha. unfold bind. specialize (Hm a Ha).
  destruct (m a) as [ab|[x a']]; [exact Hm|].
  destruct Hm as [Ha' Hx]. exact (Hk x Hx a' Ha').
Qed.

Lemma holds_get : holds I E get I.
Proof. intros a Ha. cbn. auto. Qed.

Lemma holds_modify (f : t -> t) :
  (forall a, I a -> I (f a)) -> holds I E (modify f) (fun _ => True).
Proof. intros Hf a Ha. cbn. auto. Qed.

Lemma holds_break : holds I E break Qf.
Proof. apply holds_ret. exact Q_break. Qed.

Lemma holds_return (e : ScriptError) :
  In e switch_errors -> e <> SCRIPT_ERR_BAD_OPCODE -> holds I E (ret (Return e)) Qf.
Proof. intros He Hbad. apply holds_ret. now apply Q_return. Qed.

Lemma holds_push (e : Expr) : holds I E (push e) (fun _ => True).
Proof. apply holds_modify. intros a. apply I_stack. Qed.

Lemma holds_push_all (es : list Expr) : holds I E (push_all es) (fun _ => True).
Proof. apply holds_modify. intros a. apply I_stack. Qed.

Lemma holds_push_alt (e : Expr) : holds I E (push_alt e) (fun _ => True).
Proof. apply holds_modify. intros a. apply I_altstack. Qed.

Lemma holds_push_condition (e : Expr) : holds I E (push_condition e) (fun _ => True).
Proof. apply holds_modify. intros a. apply I_spendingConditions. Qed.

Lemma takeElements_loop_inv (n : nat) : forall res a,
  I a -> I (snd (takeElements_loop n res a)).
Proof.
  induction n as [|n IH]; intros res a Ha; cbn [takeElements_loop]; [exact Ha|].
  destruct (JS.pop (stack a)) as [[x rest]|]; apply IH; auto.
Qed.

Lemma holds_takeElements (amount : Z) : holds I E (takeElements amount) (fun _ => True).
Proof.
  intros a Ha. unfold takeElements.
  pose proof (takeElements_loop_inv (Z.to_nat amount) [] a Ha) as H.
  destruct (takeElements_loop (Z.to_nat amount) [] a). auto.
Qed.

Lemma readElements_pad_inv (fuel : nat) : forall amount a,
  I a -> I (readElements_pad fuel amount a).
Proof.
  induction fuel as [|fuel IH]; intros amount a Ha; cbn [readElements_pad]; [exact Ha|].
  destruct (_ <? _); [|exact Ha]. apply IH. auto.
Qed.

Lemma holds_readElements (amount : Z) : holds I E (readElements amount) (fun _ => True).
Proof.
  intros a Ha. unfold readElements. cbv zeta. split; [|exact Logic.I].
  now apply readElements_pad_inv.
Qed.

Lemma holds_verify : holds I E verify (fun _ => True).
Proof.
  unfold verify. eapply holds_bind; [apply holds_takeElements|]. intros elems _.
  destruct (at_index elems 0).
  - destruct (negb _); now apply holds_ret.
  - eapply holds_bind; [apply holds_push_condition|]. intros; now apply holds_ret.
  - eapply holds_bind; [apply holds_push_condition|]. intros; now apply holds_ret.
Qed.

Lemma holds_numFromStack (op : Z) :
  E (depth_not_concrete op) -> holds I E (numFromStack op) (fun _ => True).
Proof.
  intros E_depth. unfold numFromStack. eapply holds_bind; [apply holds_takeElements|]. intros elems _.
  destruct (at_index elems 0).
  - destruct (_ <=? _)%nat; now apply holds_ret.
  - intros a Ha. exact E_depth.
  - intros a Ha. exact E_depth.
Qed.

(** [Int.encode] returns on the numbers that fit 32 bits. *)
Lemma holds_encode (n : Z) :
  Z.abs n < 2 ^ 31 \/ E encode_diverges -> holds I E (encode n) (fun _ => True).
Proof.
  intros H a Ha. unfold encode.
  destruct (ScriptConv.Int.encode n) eqn:En; [auto|].
  destruct H as [H | H]; [|exact H].
  destruct (encode_returns n H) as [buf Hbuf]. congruence.
Qed.

(** The verify step that follows the push of a predicate never fails. *)
Lemma holds_push_verify_if (opcode : Z) (args : list Expr) (error : option ScriptError)
  (cond : bool) (e : ScriptError) :
  holds I E (push (App opcode args error) ;; verify_if cond e) Qf.
Proof.
  intros a Ha. destruct cond.
  - rewrite push_then_verify by discriminate. split; [now apply I_spendingConditions|].
    exact Q_break.
  - cbn. split; [now apply I_stack | exact Q_break].
Qed.

Lemma holds_exec_else : holds I E exec_else Qf.
Proof.
  unfold exec_else. eapply holds_bind; [apply holds_get|]. intros this _.
  destruct (ConditionStack.empty _); [apply holds_return; [cbn; auto | discriminate]|].
  destruct (ConditionStack.toggle_top (cs this)) as [ab|c] eqn:T.
  - unfold ConditionStack.toggle_top in T.
    destruct (_ <=? _); [|destruct (_ =? _); [|destruct (_ =? _)]]; try discriminate.
    injection T as <-. intros a Ha. exact E_toggle_top.
  - eapply holds_bind; [apply holds_modify; intros a; apply I_cs|].
    intros _ _. apply holds_break.
Qed.

Lemma holds_exec_endif : holds I E exec_endif Qf.
Proof.
  unfold exec_endif. eapply holds_bind; [apply holds_get|]. intros this _.
  destruct (ConditionStack.empty _); [apply holds_return; [cbn; auto | discriminate]|].
  destruct (ConditionStack.pop_back (cs this)) as [ab|c] eqn:T.
  - unfold ConditionStack.pop_back in T.
    destruct (_ <=? _); try discriminate.
    injection T as <-. intros a Ha. exact E_pop_back.
  - eapply holds_bind; [apply holds_modify; intros a; apply I_cs|].
    intros _ _. apply holds_break.
Qed.

Lemma holds_exec_if (fExec : bool) (op : Z) :
  (fExec = true ->
   forall this e c, I this ->
     Qf (Break (Some (fork_push_condition e (with_cs c (fork_of this)))))) ->
  holds I E (exec_if fExec op) Qf.
Proof.
  intros Q_fork. unfold exec_if. destruct fExec.
  - specialize (Q_fork eq_refl).
    eapply holds_bind; [apply holds_get|]. intros this0 _.
    eapply holds_bind; [apply holds_takeElements|]. intros elems _.
    eapply holds_bind; [apply holds_get|]. intros this1 H1.
    eapply holds_bind; [apply holds_modify; intros a; apply I_cs|].
    intros _ _. destruct (_ || _).
    + eapply holds_bind; [apply holds_push_condition|]. intros _ _.
      apply holds_ret. now apply Q_fork.
    + eapply holds_bind; [apply holds_push_condition|]. intros _ _.
      apply holds_ret. now apply Q_fork.
  - eapply holds_bind; [apply holds_modify; intros a; apply I_cs|].
    intros _ _. apply holds_break.
Qed.

Ltac holds_primitive :=
  first
    [ apply holds_get | apply holds_takeElements | apply holds_readElements
    | apply holds_push | apply holds_push_all | apply holds_push_alt
    | apply holds_push_condition | apply holds_verify
    | apply holds_numFromStack; assumption
    | apply holds_modify; intros ?; first [apply I_stack | apply I_altstack]
    | match goal with
      | |- holds _ _ (if ?c then _ else _) _ =>
          destruct c;
          [ apply holds_modify; intros ?; apply I_stack
          | apply (holds_ret tt (fun _ => True)); exact Logic.I ]
      end ].

Ltac holds_auto :=
  repeat first
    [ apply holds_break
    | apply holds_return; [cbn; tauto | discriminate]
    | apply holds_push_verify_if
    | apply holds_exec_else | apply holds_exec_endif
    | eapply holds_bind; [holds_primitive | intros ? ?]
    | match goal with
      | |- holds _ _ (if ?c then _ else _) _ => destruct c
      | |- holds _ _ (match ?x with _ => _ end) _ => destruct x
      end ].

Lemma holds_exec_pick_roll (op : Z) :
  E (depth_not_concrete op) -> holds I E (exec_pick_roll op) Qf.
Proof. intros E_depth. unfold exec_pick_roll. holds_auto. Qed.

Lemma holds_exec_checkmultisig (op : Z) :
  E (depth_not_concrete op) -> holds I E (exec_checkmultisig op) Qf.
Proof.
  intros E_depth. unfold exec_checkmultisig.
  eapply holds_bind; [apply holds_get|]. intros this _.
  destruct (ScriptVersion_eqb _ _); [apply holds_return; [cbn; tauto | discriminate]|].
  eapply holds_bind; [now apply holds_numFromStack|]. intros [k|] _;
    [|apply holds_return; [cbn; tauto | discriminate]].
  destruct ((k <? 0) || (k >? 20)) eqn:Hk;
    [apply holds_return; [cbn; tauto | discriminate]|].
  eapply holds_bind; [apply holds_takeElements|]. intros pks _.
  eapply holds_bind; [now apply holds_numFromStack|]. intros [s|] _;
    [|apply holds_return; [cbn; tauto | discriminate]].
  destruct ((s <? 0) || (s >? k)) eqn:Hs;
    [apply holds_return; [cbn; tauto | discriminate]|].
  apply orb_false_iff in Hk, Hs. destruct Hk as [Hk0 Hk20], Hs as [Hs0 Hsk].
  apply Z.ltb_ge in Hk0, Hs0.
  assert (k <= 20) by (destruct (Z.gtb_spec k 20); [discriminate | lia]).
  assert (s <= k) by (destruct (Z.gtb_spec s k); [discriminate | lia]).
  eapply holds_bind; [apply holds_takeElements|]. intros sigs _.
  eapply holds_bind; [apply holds_takeElements|]. intros dummies _.
  eapply holds_bind; [apply holds_push_condition|]. intros _ _.
  eapply holds_bind; [apply holds_encode; left; lia|]. intros es _.
  eapply holds_bind; [apply holds_encode; left; lia|]. intros ek _.
  apply holds_push_verify_if.
Qed.

(** Every case of the [switch].  OP_DEPTH encodes the length of the stack,
    the opcodes of [depth_ops] read a number from it, OP_IF, OP_NOTIF and
    OP_IFDUP hand a fork to the loop, and BAD_OPCODE is returned in the case
    of OP_CHECKSIGADD and by [default]. *)
Lemma holds_execOp (fExec : bool) (op : Z) :
  (op = opcodes.OP_DEPTH -> E encode_diverges) ->
  (In op depth_ops -> E (depth_not_concrete op)) ->
  (fExec = true -> op = opcodes.OP_IF \/ op = opcodes.OP_NOTIF ->
   forall this e c, I this ->
     Qf (Break (Some (fork_push_condition e (with_cs c (fork_of this)))))) ->
  (op = opcodes.OP_IFDUP ->
   forall this e, I this -> Qf (Break (Some (fork_push_condition e (fork_of this))))) ->
  (op = opcodes.OP_CHECKSIGADD \/ is_one_of op switch_cases = false ->
   Qf (Return SCRIPT_ERR_BAD_OPCODE)) ->
  holds I E (execOp fExec op) Qf.
Proof.
  intros E_enc E_depth Q_if Q_ifdup Q_bad. unfold execOp.
  do 3 (match goal with
        | |- holds _ _ (if ?c then _ else _) _ =>
             let H := fresh "Hcase" in destruct c eqn:H; [holds_auto|]
        end).
  destruct (is_one_of op [opcodes.OP_IF; opcodes.OP_NOTIF]) eqn:Hif.
  { apply holds_exec_if. intros Hf. apply Q_if; [exact Hf|].
    unfold is_one_of in Hif. cbn [existsb] in Hif.
    destruct (Z.eqb_spec op opcodes.OP_IF); [now left|].
    destruct (Z.eqb_spec op opcodes.OP_NOTIF); [now right | discriminate]. }
  do 12 (match goal with
         | |- holds _ _ (if ?c then _ else _) _ =>
             let H := fresh "Hcase" in destruct c eqn:H; [holds_auto|]
         end).
  destruct (op =? opcodes.OP_IFDUP) eqn:Hifdup.
  { apply Z.eqb_eq in Hifdup.
    eapply holds_bind; [apply holds_readElements|]. intros elems _.
    eapply holds_bind; [apply holds_get|]. intros this Hthis.
    eapply holds_bind; [apply holds_push_condition|]. intros _ _.
    eapply holds_bind; [apply holds_push|]. intros _ _.
    apply holds_ret. now apply Q_ifdup. }
  destruct (op =? opcodes.OP_DEPTH) eqn:Hdepth.
  { apply Z.eqb_eq in Hdepth.
    eapply holds_bind; [apply holds_get|]. intros this _.
    eapply holds_bind; [apply holds_encode; right; now apply E_enc|]. intros buf _.
    holds_auto. }
  do 4 (match goal with
        | |- holds _ _ (if ?c then _ else _) _ =>
             let H := fresh "Hcase" in destruct c eqn:H; [holds_auto|]
        end).
  destruct (is_one_of op [opcodes.OP_PICK; opcodes.OP_ROLL]) eqn:Hpick.
  { apply holds_exec_pick_roll. apply E_depth.
    unfold is_one_of in Hpick. cbn [existsb] in Hpick. unfold depth_ops.
    destruct (Z.eqb_spec op opcodes.OP_PICK); [subst; cbn; tauto|].
    destruct (Z.eqb_spec op opcodes.OP_ROLL); [subst; cbn; tauto | discriminate]. }
  do 11 (match goal with
         | |- holds _ _ (if ?c then _ else _) _ =>
             let H := fresh "Hcase" in destruct c eqn:H; [holds_auto|]
         end).
  destruct (is_one_of op [opcodes.OP_CHECKMULTISIG; opcodes.OP_CHECKMULTISIGVERIFY])
    eqn:Hcms.
  { apply holds_exec_checkmultisig. apply E_depth.
    unfold is_one_of in Hcms. cbn [existsb] in Hcms. unfold depth_ops.
    destruct (Z.eqb_spec op opcodes.OP_CHECKMULTISIG); [subst; cbn; tauto|].
    destruct (Z.eqb_spec op opcodes.OP_CHECKMULTISIGVERIFY);
      [subst; cbn; tauto | discriminate]. }
  do 2 (match goal with
        | |- holds _ _ (if ?c then _ else _) _ =>
             let H := fresh "Hcase" in destruct c eqn:H; [holds_auto|]
        end).
  destruct (op =? opcodes.OP_CHECKSIGADD) eqn:Hcsa.
  { apply Z.eqb_eq in Hcsa.
    eapply holds_bind; [apply holds_get|]. intros this _.
    destruct (_ <? _); [apply holds_ret; apply Q_bad; now left | holds_auto]. }
  apply holds_ret. apply Q_bad. right. clear Q_bad.
  cbv beta iota delta [is_one_of existsb switch_cases] in *.
  repeat match goal with
         | H : (_ || _) = false |- _ => apply orb_false_iff in H; destruct H
         end.
  repeat match goal with
         | H : (op =? _) = false |- _ => rewrite H; clear H
         end.
  reflexivity.
Qed.

Lemma holds_execItem (fExec : bool) (item : Item) :
  (item = Op opcodes.OP_DEPTH -> E encode_diverges) ->
  (forall op, item = Op op -> In op depth_ops -> E (depth_not_concrete op)) ->
  (fExec = true -> item = Op opcodes.OP_IF \/ item = Op opcodes.OP_NOTIF ->
   forall this e c, I this ->
     Qf (Break (Some (fork_push_condition e (with_cs c (fork_of this)))))) ->
  (item = Op opcodes.OP_IFDUP ->
   forall this e, I this -> Qf (Break (Some (fork_push_condition e (fork_of this))))) ->
  (forall op, item = Op op ->
   op = opcodes.OP_CHECKSIGADD \/ is_one_of op switch_cases = false ->
   Qf (Return SCRIPT_ERR_BAD_OPCODE)) ->
  holds I E (execItem fExec item) Qf.
Proof.
  intros E_enc E_depth Q_if Q_ifdup Q_bad.
  destruct item as [data|op]; cbn [execItem]; [holds_auto|].
  apply holds_execOp.
  - intros ->. now apply E_enc.
  - now apply E_depth.
  - intros Hf [-> | ->]; apply Q_if; auto.
  - intros ->. now apply Q_ifdup.
  - now apply Q_bad.
Qed.

End Holds.

(** ** The error codes [analyze] returns *)

Lemma execItem_errors (fExec : bool) (item : Item) (a : ScriptAnalyzer.t) :
  match ScriptAnalyzer.execItem fExec item a with
  | inr (fl, _) => flow_errors fl
  | inl _ => True
  end.
Proof.
  assert (H : holds (fun _ => True) (fun _ => True)
                (ScriptAnalyzer.execItem fExec item) flow_errors)
    by (apply holds_execItem; cbv beta; cbn [flow_errors]; auto; intros; cbn; tauto).
  specialize (H a Logic.I).
  destruct (ScriptAnalyzer.execItem fExec item a) as [ab|[fl a']]; [exact Logic.I|].
  now destruct H.
Qed.

Lemma at_end_of_script_errors (a a' : ScriptAnalyzer.t) (e : ScriptError) :
  ScriptAnalyzer.at_end_of_script a = inr (Some e, a') -> In e analyze_errors.
Proof.
  unfold ScriptAnalyzer.at_end_of_script. unfold bind at 1. unfold get at 1. cbv iota beta.
  destruct (negb _).
  { intros H. injection H as <- _. cbn. tauto. }
  destruct (_ <? _)%nat.
  { intros H. injection H as <- _. cbn. tauto. }
  unfold bind. destruct (ScriptAnalyzer.verify a) as [ab|[ok a1]]; [discriminate|].
  destruct (negb ok); intros H; [|discriminate].
  injection H as <- _. cbn. tauto.
Qed.

Lemma analyze_from_errors (items : list Item) : forall a e a' fs,
  ScriptAnalyzer.analyze_from items a = ScriptAnalyzer.Finished (Some e) a' fs ->
  In e analyze_errors.
Proof.
  induction items as [|item items IH]; intros a e a' fs; cbn [ScriptAnalyzer.analyze_from].
  - destruct (ScriptAnalyzer.at_end_of_script a) as [ab|[r a1]] eqn:End; [discriminate|].
    intros H. injection H as -> -> _. now apply (at_end_of_script_errors a a').
  - destruct (_ && _); [apply IH|].
    pose proof (execItem_errors
                  (ConditionStack.all_true
                     (ScriptAnalyzer.cs
                        (ScriptAnalyzer.with_scriptOffset (ScriptAnalyzer.scriptOffset a + 1) a)))
                  item
                  (ScriptAnalyzer.with_scriptOffset (ScriptAnalyzer.scriptOffset a + 1) a)) as K.
    destruct (ScriptAnalyzer.execItem _ item _) as [ab|[fl a1]]; [discriminate|].
    destruct fl as [fork|e1].
    + assert (Tail : forall forks,
        (if (1000 <? length (ScriptAnalyzer.stack a1) + length (ScriptAnalyzer.altstack a1))%nat
         then ScriptAnalyzer.Finished (Some SCRIPT_ERR_STACK_SIZE) a1 forks
         else match ScriptAnalyzer.analyze_from items a1 with
              | ScriptAnalyzer.Finished r this'' fs0 =>
                  ScriptAnalyzer.Finished r this'' (forks ++ fs0)
              | ScriptAnalyzer.Aborted ab => ScriptAnalyzer.Aborted ab
              end) = ScriptAnalyzer.Finished (Some e) a' fs -> In e analyze_errors).
      { intros forks. destruct (_ <? _)%nat.
        - intros H. injection H as <- _ _. cbn. tauto.
        - destruct (ScriptAnalyzer.analyze_from items a1) as [r a2 fs2|ab] eqn:Rec;
            [|discriminate].
          intros H. injection H as -> -> _. now apply (IH a1 e a' fs2). }
      destruct fork as [f|]; [|apply Tail].
      destruct (ScriptAnalyzer.analyze_from items f) as [rf f' fsf|ab]; [apply Tail|discriminate].
    + intros H. injection H as <- _ _. cbn [flow_errors] in K.
      unfold analyze_errors. apply in_or_app. now left.
Qed.

(** X18. Whatever the script and the state, [analyze] returns one of
    thirteen error codes or nothing: the ten that the cases of the switch can
    reach, STACK_SIZE, CLEANSTACK and EVAL_FALSE.  In particular EQUALVERIFY,
    CHECKSIGVERIFY, CHECKMULTISIGVERIFY and NUMEQUALVERIFY, which the source
    names behind a verify step, are never returned, nor is DISABLED_OPCODE
    (that one comes from the scan in [analyzeScript]).  Each of the thirteen
    is returned for some script analysed from a new analyzer. *)
Theorem X18_returned_errors :
  (forall script a e a' fs,
     ScriptAnalyzer.analyze script a = ScriptAnalyzer.Finished (Some e) a' fs ->
     In e analyze_errors) /\
  (forall e, In e analyze_errors ->
     exists v script a' fs,
       ScriptAnalyzer.analyzeScript v ALL script
       = inr (ScriptAnalyzer.Finished (Some e) a' fs)).
Proof.
  split.
  - intros script a e a' fs. unfold ScriptAnalyzer.analyze. apply analyze_from_errors.
  - intros e He. cbn in He.
    repeat (destruct He as [<- | He]); [.. | contradiction].
    + exists LEGACY, [Op opcodes.OP_ENDIF]. eexists _, _. vm_compute. reflexivity.
    + exists LEGACY, [Op opcodes.OP_0; Op opcodes.OP_VERIFY]. eexists _, _.
      vm_compute. reflexivity.
    + exists LEGACY, [Op opcodes.OP_RETURN]. eexists _, _. vm_compute. reflexivity.
    + exists LEGACY, [Op opcodes.OP_FROMALTSTACK]. eexists _, _. vm_compute. reflexivity.
    + exists LEGACY, [Push [1; 2; 3; 4; 5]; Op opcodes.OP_PICK]. eexists _, _.
      vm_compute. reflexivity.
    + exists LEGACY, [Push [0x81]; Op opcodes.OP_PICK]. eexists _, _.
      vm_compute. reflexivity.
    + exists SEGWITV1, [Op opcodes.OP_CHECKMULTISIG]. eexists _, _. vm_compute. reflexivity.
    + exists LEGACY, [Push [21]; Op opcodes.OP_CHECKMULTISIG]. eexists _, _.
      vm_compute. reflexivity.
    + exists LEGACY, [Push [2]; Op opcodes.OP_0; Op opcodes.OP_CHECKMULTISIG]. eexists _, _.
      vm_compute. reflexivity.
    + exists LEGACY, [Op opcodes.OP_VER]. eexists _, _. vm_compute. reflexivity.
    + exists LEGACY, (repeat (Op opcodes.OP_1) 1001). eexists _, _. vm_compute. reflexivity.
    + exists LEGACY, [Op opcodes.OP_1; Op opcodes.OP_1]. eexists _, _. vm_compute. reflexivity.
    + exists LEGACY, [Op opcodes.OP_0]. eexists _, _. vm_compute. reflexivity.
Qed.

Lemma X18_returned_errors_witness :
  In SCRIPT_ERR_CLEANSTACK analyze_errors.
Proof.
  apply (proj1 X18_returned_errors [Op opcodes.OP_1; Op opcodes.OP_1]
           (ScriptAnalyzer.new LEGACY ALL) SCRIPT_ERR_CLEANSTACK
           (ScriptAnalyzer.mk LEGACY ALL [Bytes [1]; Bytes [1]] [] [] 0 2 0 ConditionStack.new)
           []).
  vm_compute. reflexivity.
Defined.

(** ** What an analysis leaves unchanged *)

Lemma same_frame_refl (a : ScriptAnalyzer.t) : same_frame a a.
Proof. unfold same_frame. auto. Qed.

Lemma execItem_frame (fExec : bool) (item : Item) (a : ScriptAnalyzer.t) :
  match ScriptAnalyzer.execItem fExec item a with
  | inr (fl, a') => same_frame a a' /\ flow_frame a fl
  | inl _ => True
  end.
Proof.
  assert (H : holds (same_frame a) (fun _ => True)
                (ScriptAnalyzer.execItem fExec item) (flow_frame a)).
  { apply holds_execItem; cbv beta; cbn [flow_frame]; auto;
      try (intros s b Hb; destruct b; exact Hb).
    - intros _ _ this e c (Hv & Hr & Hp & Ho). destruct this. sa_unfold.
      cbn in *. repeat split; congruence.
    - intros _ this e (Hv & Hr & Hp & Ho). destruct this. sa_unfold.
      cbn in *. repeat split; congruence. }
  specialize (H a (same_frame_refl a)).
  destruct (ScriptAnalyzer.execItem fExec item a) as [ab|[fl a']]; [exact I | exact H].
Qed.

Lemma at_end_of_script_frame (a a' : ScriptAnalyzer.t) (r : option ScriptError) :
  ScriptAnalyzer.at_end_of_script a = inr (r, a') ->
  same_frame a a' /\
  (r = None -> ScriptAnalyzer.stack a' = []
               /\ ConditionStack.empty (ScriptAnalyzer.cs a') = true).
Proof.
  unfold ScriptAnalyzer.at_end_of_script. unfold bind at 1. unfold get at 1. cbv iota beta.
  destruct (ConditionStack.empty (ScriptAnalyzer.cs a)) eqn:Hcs; cbn [negb].
  2:{ intros H. injection H as <- <-. split; [apply same_frame_refl | discriminate]. }
  destruct (Nat.ltb_spec 1 (length (ScriptAnalyzer.stack a))) as [Hlen|Hlen].
  { intros H. injection H as <- <-. split; [apply same_frame_refl | discriminate]. }
  unfold ScriptAnalyzer.verify.
  unfold bind at 1. unfold bind at 1. rewrite takeElements_one.
  destruct a as [v ru s al sc vc so p c].
  cbn [ScriptAnalyzer.stack ScriptAnalyzer.cs ScriptAnalyzer.varCounter] in *.
  destruct (JS.pop s) as [[x rest]|] eqn:Hpop.
  - apply pop_some_snoc in Hpop. subst s. rewrite length_app in Hlen. cbn [length] in Hlen.
    assert (rest = []) by (destruct rest; [reflexivity | cbn [length] in Hlen; lia]).
    subst rest. cbn [fst snd ScriptAnalyzer.at_index nth].
    destruct x as [b|n|o args er].
    + destruct (negb (ScriptConv.Bool.decode b)); run_method; sa_unfold;
        intros H; injection H as <- <-; (split; [unfold same_frame; cbn; auto|]);
        [discriminate | auto].
    + run_method. sa_unfold. intros H. injection H as <- <-.
      split; [unfold same_frame; cbn; auto | auto].
    + run_method. sa_unfold. intros H. injection H as <- <-.
      split; [unfold same_frame; cbn; auto | auto].
  - apply pop_none_nil in Hpop. subst s. cbn [fst snd ScriptAnalyzer.at_index nth].
    run_method. sa_unfold. intros H. injection H as <- <-.
    split; [unfold same_frame; cbn; auto | auto].
Qed.

Lemma registered_by_trans (a b : ScriptAnalyzer.t) (fs : list ScriptAnalyzer.t) :
  ScriptAnalyzer.version b = ScriptAnalyzer.version a ->
  ScriptAnalyzer.rules b = ScriptAnalyzer.rules a ->
  ScriptAnalyzer.path a <= ScriptAnalyzer.path b ->
  ScriptAnalyzer.scriptOffset a <= ScriptAnalyzer.scriptOffset b ->
  Forall (registered_by b) fs -> Forall (registered_by a) fs.
Proof.
  intros Hv Hr Hp Ho. apply Forall_impl. intros f (Fv & Fr & Fp & Fo).
  unfold registered_by. repeat split; try congruence; lia.
Qed.

Lemma analyze_from_frame (items : list Item) : forall a r a' fs,
  ScriptAnalyzer.analyze_from items a = ScriptAnalyzer.Finished r a' fs ->
  ScriptAnalyzer.version a' = ScriptAnalyzer.version a /\
  ScriptAnalyzer.rules a' = ScriptAnalyzer.rules a /\
  ScriptAnalyzer.path a' = ScriptAnalyzer.path a /\
  ScriptAnalyzer.scriptOffset a <= ScriptAnalyzer.scriptOffset a'
    <= ScriptAnalyzer.scriptOffset a + Z.of_nat (length items) /\
  (r = None ->
   ScriptAnalyzer.scriptOffset a' = ScriptAnalyzer.scriptOffset a + Z.of_nat (length items) /\
   ScriptAnalyzer.stack a' = [] /\
   ConditionStack.empty (ScriptAnalyzer.cs a') = true) /\
  Forall (registered_by a) fs.
Proof.
  induction items as [|item items IH]; intros a r a' fs; cbn [ScriptAnalyzer.analyze_from].
  - destruct (ScriptAnalyzer.at_end_of_script a) as [ab|[r1 a1]] eqn:End; [discriminate|].
    intros H. injection H as -> -> <-.
    destruct (at_end_of_script_frame _ _ _ End) as ((Hv & Hr & Hp & Ho) & Hnone).
    cbn [length]. repeat split; try assumption; try lia; try constructor.
    + now apply Hnone.
    + now apply Hnone.
  - set (a1 := ScriptAnalyzer.with_scriptOffset (ScriptAnalyzer.scriptOffset a + 1) a).
    assert (F1 : ScriptAnalyzer.version a1 = ScriptAnalyzer.version a /\
                 ScriptAnalyzer.rules a1 = ScriptAnalyzer.rules a /\
                 ScriptAnalyzer.path a1 = ScriptAnalyzer.path a /\
                 ScriptAnalyzer.scriptOffset a1 = ScriptAnalyzer.scriptOffset a + 1)
      by (destruct a; cbn; auto).
    destruct F1 as (V1 & R1 & P1 & O1).
    assert (Step : forall b r a' fs,
      same_frame a1 b ->
      ScriptAnalyzer.analyze_from items b = ScriptAnalyzer.Finished r a' fs ->
      ScriptAnalyzer.version a' = ScriptAnalyzer.version a /\
      ScriptAnalyzer.rules a' = ScriptAnalyzer.rules a /\
      ScriptAnalyzer.path a' = ScriptAnalyzer.path a /\
      ScriptAnalyzer.scriptOffset a <= ScriptAnalyzer.scriptOffset a'
        <= ScriptAnalyzer.scriptOffset a + Z.of_nat (length (item :: items)) /\
      (r = None ->
       ScriptAnalyzer.scriptOffset a'
       = ScriptAnalyzer.scriptOffset a + Z.of_nat (length (item :: items)) /\
       ScriptAnalyzer.stack a' = [] /\
       ConditionStack.empty (ScriptAnalyzer.cs a') = true) /\
      Forall (registered_by a) fs).
    { intros b r0 b' fs0 (Bv & Br & Bp & Bo) Hrec.
      destruct (IH _ _ _ _ Hrec) as (Hv & Hr & Hp & Ho & Hnone & Hfs).
      cbn [length]. repeat split; try congruence; try lia.
      - destruct (Hnone H) as (Hn1 & _). lia.
      - now apply Hnone.
      - now apply Hnone.
      - apply (registered_by_trans a b); congruence || lia. }
    destruct (_ && _); [apply Step; apply same_frame_refl|].
    pose proof (execItem_frame (ConditionStack.all_true (ScriptAnalyzer.cs a1)) item a1) as K.
    destruct (ScriptAnalyzer.execItem _ item a1) as [ab|[fl a2]]; [discriminate|].
    destruct K as (Hframe & Hfl).
    pose proof Hframe as (Fv & Fr & Fp & Fo).
    destruct fl as [fork|e1].
    + assert (Tail : forall forks,
        Forall (registered_by a) forks ->
        (if (1000 <? length (ScriptAnalyzer.stack a2) + length (ScriptAnalyzer.altstack a2))%nat
         then ScriptAnalyzer.Finished (Some SCRIPT_ERR_STACK_SIZE) a2 forks
         else match ScriptAnalyzer.analyze_from items a2 with
              | ScriptAnalyzer.Finished r this'' fs0 =>
                  ScriptAnalyzer.Finished r this'' (forks ++ fs0)
              | ScriptAnalyzer.Aborted ab => ScriptAnalyzer.Aborted ab
              end) = ScriptAnalyzer.Finished r a' fs ->
        ScriptAnalyzer.version a' = ScriptAnalyzer.version a /\
        ScriptAnalyzer.rules a' = ScriptAnalyzer.rules a /\
        ScriptAnalyzer.path a' = ScriptAnalyzer.path a /\
        ScriptAnalyzer.scriptOffset a <= ScriptAnalyzer.scriptOffset a'
          <= ScriptAnalyzer.scriptOffset a + Z.of_nat (length (item :: items)) /\
        (r = None ->
         ScriptAnalyzer.scriptOffset a'
         = ScriptAnalyzer.scriptOffset a + Z.of_nat (length (item :: items)) /\
         ScriptAnalyzer.stack a' = [] /\
         ConditionStack.empty (ScriptAnalyzer.cs a') = true) /\
        Forall (registered_by a) fs).
      { intros forks Hforks. destruct (_ <? _)%nat.
        - intros H. injection H as <- <- <-. cbn [length].
          repeat split; try congruence; try lia; try discriminate.
        - destruct (ScriptAnalyzer.analyze_from items a2) as [r2 a3 fs2|ab] eqn:Rec;
            [|discriminate].
          intros H. injection H as <- <- <-.
          destruct (Step _ _ _ _ Hframe Rec) as (Hv & Hr & Hp & Ho & Hnone & Hfs).
          repeat split; try assumption; try lia; try (now apply Hnone).
          apply Forall_app. auto. }
      destruct fork as [f|]; [|apply Tail; constructor].
      cbn [flow_frame] in Hfl. destruct Hfl as (Gv & Gr & Gp & Go).
      destruct (ScriptAnalyzer.analyze_from items f) as [rf f' fsf|ab] eqn:Fork;
        [|discriminate].
      apply Tail.
      destruct (IH _ _ _ _ Fork) as (Hv & Hr & Hp & Ho & _ & Hfs).
      constructor.
      * unfold registered_by. repeat split; try congruence; lia.
      * apply (registered_by_trans a f); congruence || lia.
    + intros H. injection H as <- <- <-. cbn [length].
      repeat split; try congruence; try lia; try discriminate. constructor.
Qed.

(** X19. What [analyze] leaves unchanged and where it stops.  When
    [analyze] returns, the analyzer has the [version], [rules] and [path] it
    started with; [scriptOffset] has not decreased and has not passed the
    end of the script; every fork registered meanwhile has the same
    [version] and [rules], a greater [path] and a greater [scriptOffset].
    When it returns nothing, [scriptOffset] is at the end of the script,
    the stack is empty and so is the condition stack. *)
Theorem X19_analyze_frame (script : list Item) (a a' : ScriptAnalyzer.t)
  (r : option ScriptError) (fs : list ScriptAnalyzer.t) :
  0 <= ScriptAnalyzer.scriptOffset a <= Z.of_nat (length script) ->
  ScriptAnalyzer.analyze script a = ScriptAnalyzer.Finished r a' fs ->
  ScriptAnalyzer.version a' = ScriptAnalyzer.version a /\
  ScriptAnalyzer.rules a' = ScriptAnalyzer.rules a /\
  ScriptAnalyzer.path a' = ScriptAnalyzer.path a /\
  ScriptAnalyzer.scriptOffset a <= ScriptAnalyzer.scriptOffset a'
    <= Z.of_nat (length script) /\
  (r = None ->
   ScriptAnalyzer.scriptOffset a' = Z.of_nat (length script) /\
   ScriptAnalyzer.stack a' = [] /\
   ConditionStack.empty (ScriptAnalyzer.cs a') = true) /\
  Forall (registered_by a) fs.
Proof.
  intros Hoff H. unfold ScriptAnalyzer.analyze in H.
  destruct (analyze_from_frame _ _ _ _ _ H) as (Hv & Hr & Hp & Ho & Hnone & Hfs).
  rewrite length_skipn in Ho, Hnone.
  repeat split; try assumption; try lia; try (now apply Hnone).
  destruct (Hnone H0) as (Hn & _). lia.
Qed.

Lemma X19_analyze_frame_witness :
  let script := [Op opcodes.OP_IF; Op opcodes.OP_1; Op opcodes.OP_ELSE;
                 Op opcodes.OP_DUP; Op opcodes.OP_ENDIF] in
  exists a' f,
    ScriptAnalyzer.analyze script (ScriptAnalyzer.new SEGWITV0 ALL)
    = ScriptAnalyzer.Finished None a' [f] /\
    ScriptAnalyzer.scriptOffset a' = 5 /\ ScriptAnalyzer.stack a' = [] /\
    ScriptAnalyzer.path a' = 0 /\
    registered_by (ScriptAnalyzer.new SEGWITV0 ALL) f.
Proof.
  cbv zeta. eexists _, _. split; [vm_compute; reflexivity|].
  pose proof (X19_analyze_frame
                [Op opcodes.OP_IF; Op opcodes.OP_1; Op opcodes.OP_ELSE;
                 Op opcodes.OP_DUP; Op opcodes.OP_ENDIF]
                (ScriptAnalyzer.new SEGWITV0 ALL) _ None _
                ltac:(cbn; lia) ltac:(vm_compute; reflexivity))
    as (_ & _ & Hp & _ & Hnone & Hfs).
  destruct (Hnone eq_refl) as (Ho & Hs & _).
  repeat split; try assumption; now inversion Hfs.
Defined.

(** ** The exceptions [analyze] is left by *)

Lemma at_end_of_script_returns (a : ScriptAnalyzer.t) :
  exists r a', ScriptAnalyzer.at_end_of_script a = inr (r, a').
Proof.
  assert (H : holds (fun _ => True) (fun _ => False)
                ScriptAnalyzer.at_end_of_script (fun _ => True)).
  { unfold ScriptAnalyzer.at_end_of_script.
    eapply holds_bind; [apply holds_get|]. intros this _.
    destruct (negb _); [now apply holds_ret|].
    destruct (_ <? _)%nat; [now apply holds_ret|].
    eapply holds_bind; [apply holds_verify; auto|]. intros ok _.
    destruct (negb ok); now apply holds_ret. }
  specialize (H a I).
  destruct (ScriptAnalyzer.at_end_of_script a) as [ab|[r a']]; [contradiction | eauto].
Qed.

Lemma execOp_DEPTH_returns (fExec : bool) (a : ScriptAnalyzer.t) :
  Z.of_nat (length (ScriptAnalyzer.stack a)) < 2 ^ 31 ->
  exists buf,
    ScriptConv.Int.encode (Z.of_nat (length (ScriptAnalyzer.stack a))) = Some buf /\
    ScriptAnalyzer.execOp fExec opcodes.OP_DEPTH a
    = inr (ScriptAnalyzer.Break None,
           ScriptAnalyzer.with_stack (ScriptAnalyzer.stack a ++ [Bytes buf]) a).
Proof.
  intros Hlen.
  destruct (encode_returns (Z.of_nat (length (ScriptAnalyzer.stack a)))) as [buf Hbuf]; [lia|].
  exists buf. split; [exact Hbuf|].
  change (ScriptAnalyzer.execOp fExec opcodes.OP_DEPTH)
    with (this <- get ;;
          buf <- ScriptAnalyzer.encode (Z.of_nat (length (ScriptAnalyzer.stack this))) ;;
          ScriptAnalyzer.push (Bytes buf) ;; ScriptAnalyzer.break).
  run_method. rewrite Hbuf. reflexivity.
Qed.

Lemma exec_if_forks (op : Z) (a : ScriptAnalyzer.t) :
  exists f a',
    ScriptAnalyzer.exec_if true op a = inr (ScriptAnalyzer.Break (Some f), a') /\
    (length (ScriptAnalyzer.stack f) <= length (ScriptAnalyzer.stack a))%nat.
Proof.
  unfold ScriptAnalyzer.exec_if. unfold bind at 1. unfold get at 1. cbv iota beta.
  unfold bind at 1. rewrite takeElements_one.
  destruct a as [v r s al sc vc so p c].
  cbn [ScriptAnalyzer.stack ScriptAnalyzer.varCounter ScriptAnalyzer.version
       ScriptAnalyzer.rules].
  destruct (JS.pop s) as [[x rest]|] eqn:Hpop.
  - apply pop_some_snoc in Hpop. subst s.
    destruct (_ || _); run_method; sa_unfold; eexists _, _;
      (split; [reflexivity|]); sa_unfold; rewrite length_app; lia.
  - destruct (_ || _); run_method; sa_unfold; eexists _, _;
      (split; [reflexivity|]); sa_unfold; lia.
Qed.

Lemma execOp_IFDUP_forks (fExec : bool) (a : ScriptAnalyzer.t) :
  exists f a',
    ScriptAnalyzer.execOp fExec opcodes.OP_IFDUP a
    = inr (ScriptAnalyzer.Break (Some f), a') /\
    (length (ScriptAnalyzer.stack f) <= Nat.max 1 (length (ScriptAnalyzer.stack a)))%nat.
Proof.
  change (ScriptAnalyzer.execOp fExec opcodes.OP_IFDUP)
    with (elems <- ScriptAnalyzer.readElements 1 ;;
          this <- get ;;
          ScriptAnalyzer.push_condition (ScriptAnalyzer.at_index elems 0) ;;
          ScriptAnalyzer.push (ScriptAnalyzer.at_index elems 0) ;;
          ret (ScriptAnalyzer.Break
                 (Some (ScriptAnalyzer.fork_push_condition
                          (App opcodes.INTERNAL_NOT [ScriptAnalyzer.at_index elems 0] None)
                          (ScriptAnalyzer.fork_of this))))).
  run_method. change (Z.to_nat 1) with 1%nat. cbn [ScriptAnalyzer.readElements_pad].
  destruct a as [v r s al sc vc so p c]. cbn [ScriptAnalyzer.stack ScriptAnalyzer.varCounter].
  destruct (Z.ltb_spec (Z.of_nat (length s)) 1); cbv zeta; sa_unfold;
    eexists _, _; (split; [reflexivity|]); sa_unfold; cbn [length]; lia.
Qed.

Lemma Item_eq_dec (x y : Item) : {x = y} + {x <> y}.
Proof. decide equality; [apply (list_eq_dec Z.eq_dec) | apply Z.eq_dec]. Qed.

(** One case of the switch, run on a stack shorter than 2^31 elements: it
    is left only by an exception of [ConditionStack] or of [numFromStack],
    and the fork it may create has a stack shorter than 2^31 too. *)
Lemma execItem_exceptions (fExec : bool) (item : Item) (a : ScriptAnalyzer.t) :
  Z.of_nat (length (ScriptAnalyzer.stack a)) < 2 ^ 31 ->
  match ScriptAnalyzer.execItem fExec item a with
  | inl ab => cs_throw ab \/ depth_throw ab
  | inr (ScriptAnalyzer.Break (Some f), _) =>
      Z.of_nat (length (ScriptAnalyzer.stack f)) < 2 ^ 31
  | inr _ => True
  end.
Proof.
  intros Hlen.
  destruct (Item_eq_dec item (Op opcodes.OP_DEPTH)) as [-> | Hdepth].
  { destruct (execOp_DEPTH_returns fExec a Hlen) as (buf & _ & R).
    cbn [ScriptAnalyzer.execItem]. now rewrite R. }
  destruct (Item_eq_dec item (Op opcodes.OP_IFDUP)) as [-> | Hifdup].
  { destruct (execOp_IFDUP_forks fExec a) as (f & a' & R & Hf).
    cbn [ScriptAnalyzer.execItem]. rewrite R. lia. }
  destruct fExec.
  - destruct (Item_eq_dec item (Op opcodes.OP_IF)) as [-> | Hif].
    { destruct (exec_if_forks opcodes.OP_IF a) as (f & a' & R & Hf).
      cbn [ScriptAnalyzer.execItem].
      change (ScriptAnalyzer.execOp true opcodes.OP_IF)
        with (ScriptAnalyzer.exec_if true opcodes.OP_IF).
      rewrite R. lia. }
    destruct (Item_eq_dec item (Op opcodes.OP_NOTIF)) as [-> | Hnotif].
    { destruct (exec_if_forks opcodes.OP_NOTIF a) as (f & a' & R & Hf).
      cbn [ScriptAnalyzer.execItem].
      change (ScriptAnalyzer.execOp true opcodes.OP_NOTIF)
        with (ScriptAnalyzer.exec_if true opcodes.OP_NOTIF).
      rewrite R. lia. }
    assert (H : holds (fun _ => True) (fun ab => cs_throw ab \/ depth_throw ab)
                  (ScriptAnalyzer.execItem true item) no_fork).
    { apply holds_execItem; cbv beta; cbn [no_fork]; auto;
        try (unfold cs_throw; tauto); try contradiction.
      intros op _ Hop. right. exists op. auto. }
    specialize (H a I).
    destruct (ScriptAnalyzer.execItem true item a) as [ab|[[[f|]|e] a']]; try exact I;
      [exact H | destruct H as [_ []]].
  - assert (H : holds (fun _ => True) (fun ab => cs_throw ab \/ depth_throw ab)
                  (ScriptAnalyzer.execItem false item) no_fork).
    { apply holds_execItem; cbv beta; cbn [no_fork]; auto;
        try (unfold cs_throw; tauto); try contradiction; try discriminate.
      intros op _ Hop. right. exists op. auto. }
    specialize (H a I).
    destruct (ScriptAnalyzer.execItem false item a) as [ab|[[[f|]|e] a']]; try exact I;
      [exact H | destruct H as [_ []]].
Qed.

Lemma analyze_from_exceptions (items : list Item) : forall a ab,
  Z.of_nat (length (ScriptAnalyzer.stack a)) < 2 ^ 31 ->
  ScriptAnalyzer.analyze_from items a = ScriptAnalyzer.Aborted ab ->
  cs_throw ab \/ depth_throw ab.
Proof.
  induction items as [|item items IH]; intros a ab Hlen; cbn [ScriptAnalyzer.analyze_from].
  - destruct (at_end_of_script_returns a) as (r & a' & ->). discriminate.
  - set (a1 := ScriptAnalyzer.with_scriptOffset (ScriptAnalyzer.scriptOffset a + 1) a).
    assert (Hlen1 : Z.of_nat (length (ScriptAnalyzer.stack a1)) < 2 ^ 31)
      by (destruct a; exact Hlen).
    destruct (_ && _); [now apply IH|].
    pose proof (execItem_exceptions (ConditionStack.all_true (ScriptAnalyzer.cs a1))
                  item a1 Hlen1) as K.
    destruct (ScriptAnalyzer.execItem _ item a1) as [ab1|[fl a2]].
    { intros Hab. injection Hab as <-. exact K. }
    destruct fl as [fork|e]; [|discriminate].
    assert (Tail : forall forks,
      (if (1000 <? length (ScriptAnalyzer.stack a2) + length (ScriptAnalyzer.altstack a2))%nat
       then ScriptAnalyzer.Finished (Some SCRIPT_ERR_STACK_SIZE) a2 forks
       else match ScriptAnalyzer.analyze_from items a2 with
            | ScriptAnalyzer.Finished r this'' fs0 =>
                ScriptAnalyzer.Finished r this'' (forks ++ fs0)
            | ScriptAnalyzer.Aborted ab => ScriptAnalyzer.Aborted ab
            end) = ScriptAnalyzer.Aborted ab -> cs_throw ab \/ depth_throw ab).
    { intros forks. destruct (Nat.ltb_spec 1000
        (length (ScriptAnalyzer.stack a2) + length (ScriptAnalyzer.altstack a2)));
        [discriminate|].
      destruct (ScriptAnalyzer.analyze_from items a2) as [r a3 fs|ab2] eqn:Rec; [discriminate|].
      intros Hab. injection Hab as <-. apply (IH a2); [lia | exact Rec]. }
    destruct fork as [f|]; [|apply Tail].
    destruct (ScriptAnalyzer.analyze_from items f) as [rf f' fsf|abf] eqn:Fork; [apply Tail|].
    intros Hab. injection Hab as <-. now apply (IH f).
Qed.

(** X20. The only exception an analysis is left by is the one of
    [numFromStack], "... can't use stack/output values as depth (yet)",
    thrown for OP_PICK, OP_ROLL, OP_CHECKMULTISIG or OP_CHECKMULTISIGVERIFY
    by the analyzer or by a fork.  From an analyzer whose implied condition
    stack size is not negative and whose stack has fewer than 2^31 elements
    (a new analyzer in particular) neither exception of [ConditionStack] is
    thrown and every call of [Int.encode] returns: the numbers encoded are
    stack lengths and counts between 0 and 20. *)
Theorem X20_analyze_exceptions :
  (forall script a ab,
     0 <= ConditionStack.m_stack_size (ScriptAnalyzer.cs a) ->
     Z.of_nat (length (ScriptAnalyzer.stack a)) < 2 ^ 31 ->
     ScriptAnalyzer.analyze script a = ScriptAnalyzer.Aborted ab ->
     depth_throw ab) /\
  (forall v r script ab,
     ScriptAnalyzer.analyzeScript v r script = inr (ScriptAnalyzer.Aborted ab) ->
     depth_throw ab).
Proof.
  assert (General : forall script a ab,
    0 <= ConditionStack.m_stack_size (ScriptAnalyzer.cs a) ->
    Z.of_nat (length (ScriptAnalyzer.stack a)) < 2 ^ 31 ->
    ScriptAnalyzer.analyze script a = ScriptAnalyzer.Aborted ab ->
    depth_throw ab).
  { intros script a ab Hcs Hlen H. unfold ScriptAnalyzer.analyze in H.
    destruct (analyze_from_exceptions _ _ _ Hlen H) as [Hthrow | Hdepth]; [|exact Hdepth].
    exfalso. exact (analyze_from_no_cs_throw _ a Hcs _ H Hthrow). }
  split; [exact General|].
  intros v r script ab. unfold ScriptAnalyzer.analyzeScript.
  destruct (existsb _ script); [discriminate|].
  intros H. injection H as H. apply (General script (ScriptAnalyzer.new v r)); [cbn; lia.. | exact H].
Qed.

Lemma X20_analyze_exceptions_witness :
  depth_throw (depth_not_concrete opcodes.OP_ROLL).
Proof.
  apply (proj1 X20_analyze_exceptions
           [Op opcodes.OP_1; Op opcodes.OP_IF; Op opcodes.OP_ROLL; Op opcodes.OP_ENDIF]
           (ScriptAnalyzer.new LEGACY ALL) (depth_not_concrete opcodes.OP_ROLL)).
  - cbn. lia.
  - cbn. lia.
  - vm_compute. reflexivity.
Defined.

(** ** Fresh variables *)

Lemma vars_below_mono (e : Expr) : forall n n',
  n <= n' -> vars_below n e = true -> vars_below n' e = true.
Proof.
  induction e as [buf|var|opcode args error IH] using Expr_nested_ind; intros n n' Hle;
    cbn [vars_below].
  - auto.
  - intros H. apply Z.ltb_lt in H. apply Z.ltb_lt. lia.
  - rewrite !forallb_forall. intros H x Hx.
    rewrite Forall_forall in IH. apply (IH x Hx n n' Hle). now apply H.
Qed.

Lemma all_below_mono (n n' : Z) (es : list Expr) :
  all_below n es -> n <= n' -> all_below n' es.
Proof.
  intros H Hle. unfold all_below in *. eapply Forall_impl; [|exact H].
  intros e. now apply vars_below_mono.
Qed.

Lemma all_below_nil (n : Z) : all_below n [].
Proof. constructor. Qed.

Lemma all_below_cons (n : Z) (e : Expr) (es : list Expr) :
  vars_below n e = true -> all_below n es -> all_below n (e :: es).
Proof. intros. now constructor. Qed.

Lemma all_below_app (n : Z) (xs ys : list Expr) :
  all_below n xs -> all_below n ys -> all_below n (xs ++ ys).
Proof. intros. apply Forall_app. auto. Qed.

Lemma all_below_snoc_inv (n : Z) (xs : list Expr) (x : Expr) :
  all_below n (xs ++ [x]) -> all_below n xs /\ vars_below n x = true.
Proof.
  intros H. apply Forall_app in H. destruct H as [H1 H2]. split; [exact H1|].
  now inversion H2.
Qed.

Lemma all_below_firstn (n : Z) (k : nat) (es : list Expr) :
  all_below n es -> all_below n (firstn k es).
Proof.
  intros H. rewrite <- (firstn_skipn k es) in H. apply Forall_app in H. tauto.
Qed.

Lemma all_below_skipn (n : Z) (k : nat) (es : list Expr) :
  all_below n es -> all_below n (skipn k es).
Proof.
  intros H. rewrite <- (firstn_skipn k es) in H. apply Forall_app in H. tauto.
Qed.

Lemma all_below_slice_from (n start : Z) (es : list Expr) :
  all_below n es -> all_below n (JS.slice_from start es).
Proof. apply all_below_skipn. Qed.

Lemma all_below_slice_to (n stop : Z) (es : list Expr) :
  all_below n es -> all_below n (JS.slice_to stop es).
Proof. apply all_below_firstn. Qed.

Lemma all_below_splice1 (n start : Z) (es : list Expr) :
  all_below n es -> all_below n (JS.splice1 start es).
Proof.
  intros H. unfold JS.splice1. cbv zeta.
  apply all_below_app; [now apply all_below_firstn | now apply all_below_skipn].
Qed.

Lemma vars_below_at_index (n : Z) (es : list Expr) (i : nat) :
  all_below n es -> vars_below n (ScriptAnalyzer.at_index es i) = true.
Proof.
  intros H. unfold ScriptAnalyzer.at_index.
  destruct (nth_in_or_default i es (Bytes [])) as [Hin | ->]; [|reflexivity].
  unfold all_below in H. rewrite Forall_forall in H. now apply H.
Qed.

Lemma vars_below_App (n opcode : Z) (args : list Expr) (error : option ScriptError) :
  all_below n args -> vars_below n (App opcode args error) = true.
Proof.
  intros H. cbn [vars_below]. apply forallb_forall.
  unfold all_below in H. now rewrite Forall_forall in H.
Qed.

Ltac fresh_solve :=
  repeat first
    [ assumption
    | exact I
    | reflexivity
    | lia
    | eapply all_below_mono; [eassumption | lia]
    | apply vars_below_App
    | apply vars_below_at_index
    | apply all_below_nil
    | apply all_below_cons
    | apply all_below_app
    | apply all_below_slice_from
    | apply all_below_slice_to ].

Section Fresh.

Import ScriptAnalyzer.

Lemma keeps_fresh_ret {A} (n : Z) (x : A) (Q : Z -> A -> Prop) :
  Q n x -> keeps_fresh n (ret x) Q.
Proof. intros H a Ha <-. cbn. split; [exact Ha | split; [lia | exact H]]. Qed.

Lemma keeps_fresh_bind {A B} (n : Z) (m : M t A) (k : A -> M t B)
  (P : Z -> A -> Prop) (Q : Z -> B -> Prop) :
  keeps_fresh n m P ->
  (forall n' x, n <= n' -> P n' x ->
     keeps_fresh n' (k x) (fun n'' y => n' <= n'' -> Q n'' y)) ->
  keeps_fresh n (bind m k) Q.
Proof.
  intros Hm Hk a Ha Hn. unfold bind. specialize (Hm a Ha Hn).
  destruct (m a) as [ab|[x a']]; [exact I|].
  destruct Hm as (Ha' & Hle & Hx).
  specialize (Hk _ x Hle Hx a' Ha' eq_refl).
  destruct (k x a') as [ab|[y a'']]; [exact I|].
  destruct Hk as (Ha'' & Hle' & Hy). split; [exact Ha'' | split; [lia | now apply Hy]].
Qed.

Lemma keeps_fresh_weaken {A} (n : Z) (m : M t A) (P Q : Z -> A -> Prop) :
  keeps_fresh n m P -> (forall n' x, n <= n' -> P n' x -> Q n' x) -> keeps_fresh n m Q.
Proof.
  intros Hm HPQ a Ha Hn. specialize (Hm a Ha Hn).
  destruct (m a) as [ab|[x a']]; [exact I|].
  destruct Hm as (Ha' & Hle & Hx). split; [exact Ha' | split; [exact Hle | auto]].
Qed.

Lemma keeps_fresh_get (n : Z) :
  keeps_fresh n get (fun n' this => fresh_state this /\ varCounter this = n').
Proof. intros a Ha <-. cbn. split; [exact Ha | split; [lia | split; [exact Ha | reflexivity]]]. Qed.

Lemma keeps_fresh_modify (n : Z) (f : t -> t) :
  (forall a, fresh_state a -> varCounter a = n ->
             fresh_state (f a) /\ varCounter (f a) = n) ->
  keeps_fresh n (modify f) (fun _ _ => True).
Proof.
  intros Hf a Ha Hn. cbn. destruct (Hf a Ha Hn) as [H1 H2].
  split; [exact H1 | split; [lia | exact I]].
Qed.

Lemma keeps_fresh_push (n : Z) (e : Expr) :
  vars_below n e = true -> keeps_fresh n (push e) (fun _ _ => True).
Proof.
  intros He. apply keeps_fresh_modify. intros a (Hs & Hal & Hsc) <-.
  destruct a. unfold fresh_state in *. sa_unfold. repeat split; auto.
  apply all_below_app; [exact Hs | now apply all_below_cons; [|apply all_below_nil]].
Qed.

Lemma keeps_fresh_push_all (n : Z) (es : list Expr) :
  all_below n es -> keeps_fresh n (push_all es) (fun _ _ => True).
Proof.
  intros He. apply keeps_fresh_modify. intros a (Hs & Hal & Hsc) <-.
  destruct a. unfold fresh_state in *. sa_unfold. repeat split; auto.
  now apply all_below_app.
Qed.

Lemma keeps_fresh_push_alt (n : Z) (e : Expr) :
  vars_below n e = true -> keeps_fresh n (push_alt e) (fun _ _ => True).
Proof.
  intros He. apply keeps_fresh_modify. intros a (Hs & Hal & Hsc) <-.
  destruct a. unfold fresh_state in *. sa_unfold. repeat split; auto.
  apply all_below_app; [exact Hal | now apply all_below_cons; [|apply all_below_nil]].
Qed.

Lemma keeps_fresh_push_condition (n : Z) (e : Expr) :
  vars_below n e = true -> keeps_fresh n (push_condition e) (fun _ _ => True).
Proof.
  intros He. apply keeps_fresh_modify. intros a (Hs & Hal & Hsc) <-.
  destruct a. unfold fresh_state in *. sa_unfold. repeat split; auto.
  apply all_below_app; [exact Hsc | now apply all_below_cons; [|apply all_below_nil]].
Qed.

Lemma keeps_fresh_with_altstack (n : Z) (rest : list Expr) :
  all_below n rest -> keeps_fresh n (modify (with_altstack rest)) (fun _ _ => True).
Proof.
  intros He. apply keeps_fresh_modify. intros a (Hs & Hal & Hsc) <-.
  destruct a. unfold fresh_state in *. sa_unfold. repeat split; auto.
Qed.

Lemma keeps_fresh_with_cs (n : Z) (f : t -> ConditionStack.t) :
  keeps_fresh n (modify (fun a => with_cs (f a) a)) (fun _ _ => True).
Proof.
  apply keeps_fresh_modify. intros a Ha <-. destruct a. split; [exact Ha | reflexivity].
Qed.

Lemma keeps_fresh_splice (n k : Z) :
  keeps_fresh n
    (modify (fun a => with_stack (JS.splice1 (Z.of_nat (length (stack a)) - k - 1) (stack a)) a))
    (fun _ _ => True).
Proof.
  apply keeps_fresh_modify. intros a (Hs & Hal & Hsc) <-.
  destruct a. unfold fresh_state in *. sa_unfold. repeat split; auto.
  now apply all_below_splice1.
Qed.

Lemma keeps_fresh_encode (n z : Z) : keeps_fresh n (encode z) (fun _ _ => True).
Proof.
  intros a Ha <-. unfold encode. destruct (ScriptConv.Int.encode z); [|exact I].
  split; [exact Ha | split; [lia | exact I]].
Qed.

Lemma takeElements_loop_fresh (k : nat) : forall res a,
  fresh_state a -> all_below (varCounter a) res ->
  fresh_state (snd (takeElements_loop k res a)) /\
  varCounter a <= varCounter (snd (takeElements_loop k res a)) /\
  all_below (varCounter (snd (takeElements_loop k res a))) (fst (takeElements_loop k res a)).
Proof.
  induction k as [|k IH]; intros res a Ha Hres; cbn [takeElements_loop].
  - cbn [fst snd]. split; [exact Ha | split; [lia | exact Hres]].
  - destruct Ha as (Hs & Hal & Hsc).
    destruct (JS.pop (stack a)) as [[x rest]|] eqn:Hpop.
    + apply pop_some_snoc in Hpop. rewrite Hpop in Hs.
      apply all_below_snoc_inv in Hs. destruct Hs as [Hrest Hx].
      destruct (IH (x :: res) (with_stack rest a)) as (H1 & H2 & H3).
      * destruct a. unfold fresh_state. sa_unfold. auto.
      * destruct a. sa_unfold. now apply all_below_cons.
      * split; [exact H1 | split; [|exact H3]]. destruct a. exact H2.
    + destruct (IH (Var (varCounter a) :: res) (with_varCounter (varCounter a + 1) a))
        as (H1 & H2 & H3).
      * destruct a. unfold fresh_state in *. sa_unfold.
        repeat split; eapply all_below_mono; try eassumption; lia.
      * destruct a. sa_unfold. apply all_below_cons.
        -- cbn [vars_below]. apply Z.ltb_lt. lia.
        -- eapply all_below_mono; [eassumption | lia].
      * split; [exact H1 | split; [|exact H3]]. destruct a. sa_unfold. lia.
Qed.

Lemma keeps_fresh_takeElements (n amount : Z) :
  keeps_fresh n (takeElements amount) all_below.
Proof.
  intros a Ha <-. unfold takeElements.
  destruct (takeElements_loop_fresh (Z.to_nat amount) [] a Ha (all_below_nil _))
    as (H1 & H2 & H3).
  destruct (takeElements_loop (Z.to_nat amount) [] a). auto.
Qed.

Lemma readElements_pad_fresh (fuel : nat) : forall amount a,
  fresh_state a ->
  fresh_state (readElements_pad fuel amount a) /\
  varCounter a <= varCounter (readElements_pad fuel amount a).
Proof.
  induction fuel as [|fuel IH]; intros amount a Ha; cbn [readElements_pad].
  - split; [exact Ha | lia].
  - destruct (_ <? _); [|split; [exact Ha | lia]].
    destruct (IH amount (with_varCounter (varCounter a + 1)
                           (with_stack (Var (varCounter a) :: stack a) a))) as (H1 & H2).
    + destruct Ha as (Hs & Hal & Hsc). destruct a. unfold fresh_state in *. sa_unfold.
      repeat split; try (eapply all_below_mono; [eassumption | lia]).
      apply all_below_cons; [cbn [vars_below]; apply Z.ltb_lt; lia|].
      eapply all_below_mono; [eassumption | lia].
    + split; [exact H1|]. destruct a. sa_unfold. lia.
Qed.

Lemma keeps_fresh_readElements (n amount : Z) :
  keeps_fresh n (readElements amount) all_below.
Proof.
  intros a Ha <-. unfold readElements. cbv zeta.
  destruct (readElements_pad_fresh (Z.to_nat amount) amount a Ha) as (H1 & H2).
  split; [exact H1 | split; [exact H2|]].
  apply all_below_slice_from. apply H1.
Qed.

Lemma keeps_fresh_verify (n : Z) : keeps_fresh n verify (fun _ _ => True).
Proof.
  unfold verify. eapply keeps_fresh_bind; [apply keeps_fresh_takeElements|].
  intros n' elems Hle Helems.
  pose proof (vars_below_at_index n' elems 0 Helems) as Hx.
  destruct (at_index elems 0).
  - destruct (negb _); now apply keeps_fresh_ret.
  - eapply keeps_fresh_bind; [now apply keeps_fresh_push_condition|].
    intros; now apply keeps_fresh_ret.
  - eapply keeps_fresh_bind; [now apply keeps_fresh_push_condition|].
    intros; now apply keeps_fresh_ret.
Qed.

Lemma keeps_fresh_numFromStack (n op : Z) : keeps_fresh n (numFromStack op) (fun _ _ => True).
Proof.
  unfold numFromStack. eapply keeps_fresh_bind; [apply keeps_fresh_takeElements|].
  intros n' elems Hle Helems.
  destruct (at_index elems 0).
  - destruct (_ <=? _)%nat; now apply keeps_fresh_ret.
  - intros a Ha Hn. exact I.
  - intros a Ha Hn. exact I.
Qed.

Lemma keeps_fresh_break (n : Z) (Q : Z -> Flow -> Prop) :
  Q n (Break None) -> keeps_fresh n break Q.
Proof. apply keeps_fresh_ret. Qed.

Lemma keeps_fresh_verify_if (n : Z) (cond : bool) (e : ScriptError) (m : Z) :
  keeps_fresh n (verify_if cond e) (fun n' fl => n <= n' -> flow_fresh m fl).
Proof.
  unfold verify_if. destruct cond; [|now apply keeps_fresh_ret].
  eapply keeps_fresh_bind; [apply keeps_fresh_verify|]. intros n' ok Hle _.
  destruct (negb ok); now apply keeps_fresh_ret.
Qed.

Lemma fresh_fork (this : t) (e : Expr) (c : ConditionStack.t) :
  fresh_state this -> vars_below (varCounter this) e = true ->
  fresh_state (fork_push_condition e (with_cs c (fork_of this))).
Proof.
  intros (Hs & Hal & Hsc) He. destruct this. unfold fresh_state in *. sa_unfold.
  repeat split; auto.
  apply all_below_app; [exact Hsc | now apply all_below_cons; [|apply all_below_nil]].
Qed.

Lemma fresh_fork_plain (this : t) (e : Expr) :
  fresh_state this -> vars_below (varCounter this) e = true ->
  fresh_state (fork_push_condition e (fork_of this)).
Proof.
  intros (Hs & Hal & Hsc) He. destruct this. unfold fresh_state in *. sa_unfold.
  repeat split; auto.
  apply all_below_app; [exact Hsc | now apply all_below_cons; [|apply all_below_nil]].
Qed.

End Fresh.

Lemma vars_below_weaken (n n' : Z) (e : Expr) :
  vars_below n e = true -> n <= n' -> vars_below n' e = true.
Proof. intros H Hle. now apply (vars_below_mono e n n'). Qed.

Lemma keeps_fresh_no_fork (n : Z) (m : M ScriptAnalyzer.t ScriptAnalyzer.Flow)
  (Q : Z -> ScriptAnalyzer.Flow -> Prop) :
  keeps_fresh n m (fun _ fl => no_fork fl) ->
  (forall n' e, Q n' (ScriptAnalyzer.Return e)) ->
  (forall n', Q n' (ScriptAnalyzer.Break None)) ->
  keeps_fresh n m Q.
Proof.
  intros Hm Hret Hbreak. apply (keeps_fresh_weaken n m _ Q Hm).
  intros n' [[f|]|e] _ Hfl; [contradiction | apply Hbreak | apply Hret].
Qed.

Lemma keeps_fresh_leaf_break (n : Z) :
  keeps_fresh n ScriptAnalyzer.break (fun _ fl => no_fork fl).
Proof. now apply keeps_fresh_ret. Qed.

Lemma keeps_fresh_leaf_return (n : Z) (e : ScriptError) :
  keeps_fresh n (ret (ScriptAnalyzer.Return e)) (fun _ fl => no_fork fl).
Proof. now apply keeps_fresh_ret. Qed.

Lemma keeps_fresh_leaf_verify_if (n : Z) (cond : bool) (e : ScriptError) :
  keeps_fresh n (ScriptAnalyzer.verify_if cond e) (fun _ fl => no_fork fl).
Proof.
  unfold ScriptAnalyzer.verify_if. destruct cond; [|now apply keeps_fresh_ret].
  eapply keeps_fresh_bind; [apply keeps_fresh_verify|]. intros n' ok Hle _.
  destruct (negb ok); now apply keeps_fresh_ret.
Qed.

Ltac fresh_values :=
  solve [ repeat first
    [ assumption
    | exact I
    | reflexivity
    | eapply all_below_mono; [eassumption | lia]
    | eapply vars_below_weaken; [eassumption | lia]
    | apply vars_below_App
    | apply vars_below_at_index
    | apply all_below_nil
    | apply all_below_cons
    | apply all_below_app
    | apply all_below_slice_from
    | apply all_below_slice_to ] ].

Ltac fresh_primitive :=
  first
    [ apply keeps_fresh_get | apply keeps_fresh_takeElements
    | apply keeps_fresh_readElements
    | apply keeps_fresh_push; fresh_values
    | apply keeps_fresh_push_all; fresh_values
    | apply keeps_fresh_push_alt; fresh_values
    | apply keeps_fresh_push_condition; fresh_values
    | apply keeps_fresh_with_altstack; fresh_values
    | apply keeps_fresh_encode | apply keeps_fresh_verify
    | apply keeps_fresh_numFromStack
    | apply keeps_fresh_with_cs | apply keeps_fresh_splice
    | match goal with
      | |- keeps_fresh _ (if ?c then _ else _) _ =>
          destruct c;
          [ apply keeps_fresh_splice
          | apply (keeps_fresh_ret _ tt (fun _ _ => True)); exact I ]
      end ].

Ltac fresh_leaf :=
  apply keeps_fresh_no_fork;
    [ first [ apply keeps_fresh_leaf_break | apply keeps_fresh_leaf_return
            | apply keeps_fresh_leaf_verify_if ]
    | cbv beta; cbn [flow_fresh]; intros; exact I
    | cbv beta; cbn [flow_fresh]; intros; exact I ].

Ltac fresh_auto :=
  repeat first
    [ fresh_leaf
    | eapply keeps_fresh_bind; [fresh_primitive | intros ? ? ? ?]
    | match goal with
      | |- keeps_fresh _ (if ?c then _ else _) _ => destruct c
      | |- keeps_fresh _ (match ?x with _ => _ end) _ => destruct x
      end ].

Lemma keeps_fresh_exec_if (n : Z) (fExec : bool) (op : Z) :
  keeps_fresh n (ScriptAnalyzer.exec_if fExec op) (fun _ fl => flow_fresh n fl).
Proof.
  unfold ScriptAnalyzer.exec_if. destruct fExec; [|fresh_auto].
  eapply keeps_fresh_bind; [apply keeps_fresh_get|]. intros n0 this0 Hle0 _.
  eapply keeps_fresh_bind; [apply keeps_fresh_takeElements|]. intros n1 elems Hle1 Helems.
  eapply keeps_fresh_bind; [apply keeps_fresh_get|]. intros n2 this1 Hle2 (Hthis & Hn2).
  eapply keeps_fresh_bind; [apply keeps_fresh_with_cs|]. intros n3 _ Hle3 _.
  assert (Fork : forall e,
    vars_below n2 e = true ->
    flow_fresh n
      (ScriptAnalyzer.Break
         (Some (ScriptAnalyzer.fork_push_condition e
                  (ScriptAnalyzer.with_cs
                     (ConditionStack.push_back
                        (ScriptAnalyzer.cs (ScriptAnalyzer.fork_of this1))
                        (negb (op =? opcodes.OP_IF)))
                     (ScriptAnalyzer.fork_of this1)))))).
  { intros e He. cbn [flow_fresh]. split.
    - apply fresh_fork; [exact Hthis | now rewrite Hn2].
    - destruct this1. do 2 sa_unfold. lia. }
  destruct (_ || _).
  - eapply keeps_fresh_bind; [apply keeps_fresh_push_condition; fresh_values|].
    intros n4 _ Hle4 _. apply keeps_fresh_ret. intros. apply Fork. fresh_values.
  - eapply keeps_fresh_bind; [apply keeps_fresh_push_condition; fresh_values|].
    intros n4 _ Hle4 _. apply keeps_fresh_ret. intros. apply Fork. fresh_values.
Qed.

(** Every case of the [switch] keeps the variables below the counter, in
    the state and in the fork it may create. *)
Lemma keeps_fresh_execOp (n : Z) (fExec : bool) (op : Z) :
  keeps_fresh n (ScriptAnalyzer.execOp fExec op) (fun _ fl => flow_fresh n fl).
Proof.
  unfold ScriptAnalyzer.execOp.
  destruct (op =? opcodes.OP_0); [fresh_auto|].
  destruct (ScriptAnalyzer.is_one_of op _); [fresh_auto|].
  destruct (op =? opcodes.OP_NOP); [fresh_auto|].
  destruct (ScriptAnalyzer.is_one_of op [opcodes.OP_IF; opcodes.OP_NOTIF]);
    [apply keeps_fresh_exec_if|].
  destruct (op =? opcodes.OP_ELSE).
  { unfold ScriptAnalyzer.exec_else.
    eapply keeps_fresh_bind; [apply keeps_fresh_get|]. intros n0 this Hle0 _.
    destruct (ConditionStack.empty _); [fresh_auto|].
    destruct (ConditionStack.toggle_top _) as [ab|c]; [intros st Hst Hn; exact I|].
    eapply keeps_fresh_bind; [apply (keeps_fresh_with_cs _ (fun _ => c))|].
    intros n1 _ Hle1 _. fresh_auto. }
  destruct (op =? opcodes.OP_ENDIF).
  { unfold ScriptAnalyzer.exec_endif.
    eapply keeps_fresh_bind; [apply keeps_fresh_get|]. intros n0 this Hle0 _.
    destruct (ConditionStack.empty _); [fresh_auto|].
    destruct (ConditionStack.pop_back _) as [ab|c]; [intros st Hst Hn; exact I|].
    eapply keeps_fresh_bind; [apply (keeps_fresh_with_cs _ (fun _ => c))|].
    intros n1 _ Hle1 _. fresh_auto. }
  do 3 (match goal with
        | |- keeps_fresh _ (if ?c then _ else _) _ => destruct c; [fresh_auto|]
        end).
  destruct (op =? opcodes.OP_FROMALTSTACK).
  { eapply keeps_fresh_bind; [apply keeps_fresh_get|].
    intros n0 this Hle0 ((Hs & Hal & Hsc) & Hn0).
    destruct (JS.pop (ScriptAnalyzer.altstack this)) as [[x rest]|] eqn:Hpop; [|fresh_auto].
    apply pop_some_snoc in Hpop. rewrite Hpop, Hn0 in Hal.
    apply all_below_snoc_inv in Hal. destruct Hal as [Hrest Hx].
    fresh_auto. }
  do 6 (match goal with
        | |- keeps_fresh _ (if ?c then _ else _) _ => destruct c; [fresh_auto|]
        end).
  destruct (op =? opcodes.OP_IFDUP).
  { eapply keeps_fresh_bind; [apply keeps_fresh_readElements|]. intros n0 elems Hle0 Helems.
    eapply keeps_fresh_bind; [apply keeps_fresh_get|]. intros n1 this Hle1 (Hthis & Hn1).
    eapply keeps_fresh_bind; [apply keeps_fresh_push_condition; fresh_values|].
    intros n2 _ Hle2 _.
    eapply keeps_fresh_bind; [apply keeps_fresh_push; fresh_values|].
    intros n3 _ Hle3 _.
    apply keeps_fresh_ret. intros. cbn [flow_fresh]. split.
    - apply fresh_fork_plain; [exact Hthis|]. rewrite Hn1. fresh_values.
    - destruct this. do 2 sa_unfold. lia. }
  do 5 (match goal with
        | |- keeps_fresh _ (if ?c then _ else _) _ => destruct c; [fresh_auto|]
        end).
  destruct (ScriptAnalyzer.is_one_of op [opcodes.OP_PICK; opcodes.OP_ROLL]).
  { unfold ScriptAnalyzer.exec_pick_roll. fresh_auto. }
  do 11 (match goal with
         | |- keeps_fresh _ (if ?c then _ else _) _ => destruct c; [fresh_auto|]
         end).
  destruct (ScriptAnalyzer.is_one_of op
              [opcodes.OP_CHECKMULTISIG; opcodes.OP_CHECKMULTISIGVERIFY]).
  { unfold ScriptAnalyzer.exec_checkmultisig. fresh_auto. }
  fresh_auto.
Qed.

Lemma keeps_fresh_execItem (n : Z) (fExec : bool) (item : Item) :
  keeps_fresh n (ScriptAnalyzer.execItem fExec item) (fun _ fl => flow_fresh n fl).
Proof.
  destruct item as [data|op]; cbn [ScriptAnalyzer.execItem];
    [fresh_auto | apply keeps_fresh_execOp].
Qed.

Lemma keeps_fresh_at_end_of_script (n : Z) :
  keeps_fresh n ScriptAnalyzer.at_end_of_script (fun _ _ => True).
Proof.
  unfold ScriptAnalyzer.at_end_of_script.
  eapply keeps_fresh_bind; [apply keeps_fresh_get|]. intros n0 this Hle0 _.
  destruct (negb _); [now apply keeps_fresh_ret|].
  destruct (_ <? _)%nat; [now apply keeps_fresh_ret|].
  eapply keeps_fresh_bind; [apply keeps_fresh_verify|]. intros n1 ok Hle1 _.
  destruct (negb ok); now apply keeps_fresh_ret.
Qed.

Lemma analyze_from_fresh (items : list Item) : forall a r a' fs,
  fresh_state a ->
  ScriptAnalyzer.analyze_from items a = ScriptAnalyzer.Finished r a' fs ->
  fresh_state a' /\
  ScriptAnalyzer.varCounter a <= ScriptAnalyzer.varCounter a' /\
  Forall (fun f => fresh_state f /\
                   ScriptAnalyzer.varCounter a <= ScriptAnalyzer.varCounter f) fs.
Proof.
  induction items as [|item items IH]; intros a r a' fs Ha; cbn [ScriptAnalyzer.analyze_from].
  - pose proof (keeps_fresh_at_end_of_script _ a Ha eq_refl) as K.
    destruct (ScriptAnalyzer.at_end_of_script a) as [ab|[r1 a1]]; [discriminate|].
    intros H. injection H as <- <- <-. destruct K as (K1 & K2 & _).
    split; [exact K1 | split; [exact K2 | constructor]].
  - set (a1 := ScriptAnalyzer.with_scriptOffset (ScriptAnalyzer.scriptOffset a + 1) a).
    assert (Ha1 : fresh_state a1) by (destruct a; exact Ha).
    assert (Hn1 : ScriptAnalyzer.varCounter a1 = ScriptAnalyzer.varCounter a)
      by (destruct a; reflexivity).
    rewrite <- Hn1.
    destruct (_ && _); [now apply IH|].
    pose proof (keeps_fresh_execItem _ (ConditionStack.all_true (ScriptAnalyzer.cs a1))
                  item a1 Ha1 eq_refl) as K.
    destruct (ScriptAnalyzer.execItem _ item a1) as [ab|[fl a2]]; [discriminate|].
    destruct K as (Ha2 & Hle2 & Hfl).
    destruct fl as [fork|e].
    + assert (Tail : forall forks,
        Forall (fun f => fresh_state f /\
                         ScriptAnalyzer.varCounter a1 <= ScriptAnalyzer.varCounter f) forks ->
        (if (1000 <? length (ScriptAnalyzer.stack a2) + length (ScriptAnalyzer.altstack a2))%nat
         then ScriptAnalyzer.Finished (Some SCRIPT_ERR_STACK_SIZE) a2 forks
         else match ScriptAnalyzer.analyze_from items a2 with
              | ScriptAnalyzer.Finished r this'' fs0 =>
                  ScriptAnalyzer.Finished r this'' (forks ++ fs0)
              | ScriptAnalyzer.Aborted ab => ScriptAnalyzer.Aborted ab
              end) = ScriptAnalyzer.Finished r a' fs ->
        fresh_state a' /\
        ScriptAnalyzer.varCounter a1 <= ScriptAnalyzer.varCounter a' /\
        Forall (fun f => fresh_state f /\
                         ScriptAnalyzer.varCounter a1 <= ScriptAnalyzer.varCounter f) fs).
      { intros forks Hforks. destruct (_ <? _)%nat.
        - intros H. injection H as <- <- <-. auto.
        - destruct (ScriptAnalyzer.analyze_from items a2) as [r2 a3 fs2|ab] eqn:Rec;
            [|discriminate].
          intros H. injection H as <- <- <-.
          destruct (IH _ _ _ _ Ha2 Rec) as (H1 & H2 & H3).
          split; [exact H1 | split; [lia|]].
          apply Forall_app. split; [exact Hforks|].
          eapply Forall_impl; [|exact H3]. cbv beta. intros f [Hf1 Hf2]. split; [exact Hf1 | lia]. }
      destruct fork as [f|]; [|apply Tail; constructor].
      cbn [flow_fresh] in Hfl. destruct Hfl as [Hf Hfn].
      destruct (ScriptAnalyzer.analyze_from items f) as [rf f' fsf|ab] eqn:Fork;
        [|discriminate].
      apply Tail. destruct (IH _ _ _ _ Hf Fork) as (H1 & H2 & H3).
      constructor; [split; [exact H1 | lia]|].
      eapply Forall_impl; [|exact H3]. cbv beta. intros g [Hg1 Hg2]. split; [exact Hg1 | lia].
    + intros H. injection H as <- <- <-. split; [exact Ha2 | split; [exact Hle2 | constructor]].
Qed.

(** X21. The variables are fresh.  If every variable on the stack, on the
    altstack and in the spending conditions has an index below [varCounter]
    when [analyze] is called (as in a new analyzer), the same holds when it
    returns, for the analyzer and for every fork registered meanwhile, and
    no counter is below the one the analysis started with: a variable drawn
    by [takeElements] or [readElements] never coincides with one already in
    use on that path. *)
Theorem X21_variables_fresh :
  (forall script a r a' fs,
     fresh_state a ->
     ScriptAnalyzer.analyze script a = ScriptAnalyzer.Finished r a' fs ->
     fresh_state a' /\
     ScriptAnalyzer.varCounter a <= ScriptAnalyzer.varCounter a' /\
     Forall (fun f => fresh_state f /\
                      ScriptAnalyzer.varCounter a <= ScriptAnalyzer.varCounter f) fs) /\
  (forall v ru script r a' fs,
     ScriptAnalyzer.analyzeScript v ru script = inr (ScriptAnalyzer.Finished r a' fs) ->
     fresh_state a' /\ 0 <= ScriptAnalyzer.varCounter a' /\
     Forall (fun f => fresh_state f /\ 0 <= ScriptAnalyzer.varCounter f) fs).
Proof.
  split.
  - intros script a r a' fs Ha H. exact (analyze_from_fresh _ a r a' fs Ha H).
  - intros v ru script r a' fs. unfold ScriptAnalyzer.analyzeScript.
    destruct (existsb _ script); [discriminate|].
    intros H. injection H as H.
    assert (Hnew : fresh_state (ScriptAnalyzer.new v ru))
      by (unfold fresh_state; cbn; repeat split; constructor).
    exact (analyze_from_fresh _ (ScriptAnalyzer.new v ru) r a' fs Hnew H).
Qed.

Lemma X21_variables_fresh_witness :
  exists a' f,
    ScriptAnalyzer.analyze [Op opcodes.OP_ADD; Op opcodes.OP_IFDUP; Op opcodes.OP_VERIFY]
      (ScriptAnalyzer.mk LEGACY ALL [Var 0] [] [] 1 0 0 ConditionStack.new)
    = ScriptAnalyzer.Finished None a' [f] /\
    fresh_state a' /\ fresh_state f /\ ScriptAnalyzer.varCounter f = 3.
Proof.
  eexists _, _. split; [vm_compute; reflexivity|].
  pose proof (proj1 X21_variables_fresh
                [Op opcodes.OP_ADD; Op opcodes.OP_IFDUP; Op opcodes.OP_VERIFY]
                (ScriptAnalyzer.mk LEGACY ALL [Var 0] [] [] 1 0 0 ConditionStack.new)
                None _ _
                ltac:(unfold fresh_state; cbn; repeat split; repeat constructor)
                ltac:(vm_compute; reflexivity)) as (H1 & _ & H3).
  split; [exact H1|]. split; [|reflexivity].
  inversion H3 as [|f0 fs0 [Hf _] _]. exact Hf.
Defined.

(** ** The opcodes the switch implements *)






(** ** The classification of opcodes and the switch *)

Lemma Z_range_forallb (P : Z -> bool) (lo : Z) (n : nat) :
  forallb P (map (fun k => lo + Z.of_nat k) (seq 0 n)) = true ->
  forall z, lo <= z < lo + Z.of_nat n -> P z = true.
Proof.
  intros H z Hz. rewrite forallb_forall in H. apply H.
  apply in_map_iff. exists (Z.to_nat (z - lo)). split; [lia|]. apply in_seq. lia.
Qed.

Ltac opcode_values :=
  unfold opcodes.OP_CAT, opcodes.OP_SUBSTR, opcodes.OP_LEFT, opcodes.OP_RIGHT,
    opcodes.OP_INVERT, opcodes.OP_AND, opcodes.OP_OR, opcodes.OP_XOR, opcodes.OP_2MUL,
    opcodes.OP_2DIV, opcodes.OP_MUL, opcodes.OP_DIV, opcodes.OP_MOD, opcodes.OP_LSHIFT,
    opcodes.OP_RSHIFT, opcodes.OP_VER, opcodes.OP_VERIF, opcodes.OP_VERNOTIF,
    opcodes.OP_PUSHDATA4, opcodes.OP_NOP, opcodes.OP_RETURN, opcodes.OP_TOALTSTACK,
    opcodes.OP_TUCK, opcodes.OP_SIZE, opcodes.OP_EQUALVERIFY, opcodes.OP_1ADD,
    opcodes.OP_WITHIN, opcodes.OP_RIPEMD160, opcodes.OP_CHECKMULTISIGVERIFY,
    opcodes.OP_CHECKSIGADD, opcodes.OP_CHECKLOCKTIMEVERIFY,
    opcodes.OP_CHECKSEQUENCEVERIFY in *.

Lemma opcodeType_outside (op : Z) : op < 0 \/ 0xba < op -> opcodeType op = INVALID.
Proof.
  intros H. unfold opcodeType.
  cbv beta iota delta [ScriptAnalyzer.is_one_of existsb ScriptAnalyzer.disabledOpcodes].
  opcode_values.
  repeat match goal with
         | |- context [op =? ?v] => destruct (Z.eqb_spec op v); [lia|]
         end.
  cbn [orb]. rewrite !Z.geb_leb.
  repeat match goal with
         | |- context [(?lo <=? op) && (op <=? ?hi)] =>
             replace ((lo <=? op) && (op <=? hi)) with false
               by (symmetry; apply andb_false_iff;
                   destruct H; [left | right]; apply Z.leb_gt; lia)
         end.
  reflexivity.
Qed.

Lemma opcodeType_disabled (op : Z) :
  opcodeType op = DISABLED <-> In op ScriptAnalyzer.disabledOpcodes.
Proof.
  assert (Hin : ScriptAnalyzer.is_one_of op ScriptAnalyzer.disabledOpcodes = true
                <-> In op ScriptAnalyzer.disabledOpcodes).
  { unfold ScriptAnalyzer.is_one_of. rewrite existsb_exists. split.
    - intros (x & Hx & Heq). apply Z.eqb_eq in Heq. now subst.
    - intros Hx. exists op. split; [exact Hx | apply Z.eqb_refl]. }
  rewrite <- Hin. unfold opcodeType.
  destruct (ScriptAnalyzer.is_one_of op ScriptAnalyzer.disabledOpcodes); [tauto|].
  repeat match goal with
         | |- context [if ?c then _ else _] => destruct c
         end; split; discriminate.
Qed.

Lemma opcodeType_never_data (op : Z) : opcodeType op <> DATA /\ opcodeType op <> NUMBER.
Proof.
  unfold opcodeType.
  repeat match goal with
         | |- context [if ?c then _ else _] => destruct c
         end; split; discriminate.
Qed.

(** X23. [opcodeType] against the switch of [analyze].  It answers
    DISABLED exactly on the fifteen disabled opcodes, none of which is a
    case of the switch, and never DATA or NUMBER.  Every opcode it puts in
    FLOW, STACK, SPLICE, BITWISE, ARITHMETIC, CRYPTO or LOCKTIME is a case of
    the switch.  The converse fails: OP_1 to OP_16 (with OP_1NEGATE and
    OP_RESERVED, the numbers 0x4f to 0x60) and OP_NOP1, OP_NOP4 to OP_NOP10
    fall in no range and are answered INVALID, although the switch executes
    OP_1 to OP_16 and the NOPs. *)
Theorem X23_opcodeType_and_switch (op : Z) :
  (opcodeType op = DISABLED <-> In op ScriptAnalyzer.disabledOpcodes) /\
  (In op ScriptAnalyzer.disabledOpcodes ->
   ScriptAnalyzer.is_one_of op switch_cases = false) /\
  opcodeType op <> DATA /\ opcodeType op <> NUMBER /\
  (is_operation_type (opcodeType op) = true ->
   ScriptAnalyzer.is_one_of op switch_cases = true) /\
  (0x4f <= op <= 0x60 \/ op = opcodes.OP_NOP1
   \/ opcodes.OP_NOP4 <= op <= opcodes.OP_NOP10 ->
   opcodeType op = INVALID).
Proof.
  split; [apply opcodeType_disabled|]. split.
  { intros Hin. cbn in Hin.
    repeat (destruct Hin as [<- | Hin]; [reflexivity|]). contradiction. }
  split; [apply opcodeType_never_data|]. split; [apply opcodeType_never_data|].
  assert (Inside : 0 <= op < 0 + Z.of_nat 187 \/ (op < 0 \/ 0xba < op)) by lia.
  split.
  - destruct Inside as [Hin | Hout].
    + intros H.
      pose proof (Z_range_forallb
                    (fun z => implb (is_operation_type (opcodeType z))
                                (ScriptAnalyzer.is_one_of z switch_cases))
                    0 187 ltac:(vm_compute; reflexivity) op Hin) as K.
      cbv beta in K. rewrite H in K. exact K.
    + rewrite (opcodeType_outside op Hout). discriminate.
  - intros H. destruct Inside as [Hin | Hout]; [|now apply opcodeType_outside].
    assert (Hrange : (0x4f <=? op) && (op <=? 0x60) || (op =? 0xb0)
                     || (0xb3 <=? op) && (op <=? 0xb9) = true).
    { unfold opcodes.OP_NOP1, opcodes.OP_NOP4, opcodes.OP_NOP10 in H.
      destruct H as [H | [H | H]].
      - replace (0x4f <=? op) with true by (symmetry; apply Z.leb_le; lia).
        replace (op <=? 0x60) with true by (symmetry; apply Z.leb_le; lia). reflexivity.
      - subst op. reflexivity.
      - replace (0xb3 <=? op) with true by (symmetry; apply Z.leb_le; lia).
        replace (op <=? 0xb9) with true by (symmetry; apply Z.leb_le; lia).
        apply orb_true_r. }
    pose proof (Z_range_forallb
                  (fun z => implb ((0x4f <=? z) && (z <=? 0x60) || (z =? 0xb0)
                                   || (0xb3 <=? z) && (z <=? 0xb9))
                              match opcodeType z with INVALID => true | _ => false end)
                  0 187 ltac:(vm_compute; reflexivity) op Hin) as K.
    cbv beta in K. rewrite Hrange in K. cbn [implb] in K.
    destruct (opcodeType op); try discriminate. reflexivity.
Qed.

Lemma X23_opcodeType_and_switch_witness :
  opcodeType opcodes.OP_7 = INVALID /\
  ScriptAnalyzer.is_one_of opcodes.OP_CHECKSIGADD switch_cases = true /\
  ScriptAnalyzer.is_one_of opcodes.OP_CAT switch_cases = false.
Proof.
  split; [|split].
  - apply (proj2 (proj2 (proj2 (proj2 (proj2 (X23_opcodeType_and_switch opcodes.OP_7)))))).
    left. unfold opcodes.OP_7. lia.
  - exact (proj1 (proj2 (proj2 (proj2 (proj2
             (X23_opcodeType_and_switch opcodes.OP_CHECKSIGADD))))) eq_refl).
  - apply (proj1 (proj2 (X23_opcodeType_and_switch opcodes.OP_CAT))).
    cbn. tauto.
Defined.

(** ** Operators, constants and no-ops *)

Lemma is_one_of_In (op : Z) (cases : list Z) :
  ScriptAnalyzer.is_one_of op cases = true <-> In op cases.
Proof.
  unfold ScriptAnalyzer.is_one_of. rewrite existsb_exists. split.
  - intros (x & Hx & Heq). apply Z.eqb_eq in Heq. now subst.
  - intros Hx. exists op. split; [exact Hx | apply Z.eqb_refl].
Qed.

Lemma execOp_takes (fExec : bool) (op : Z) (a : ScriptAnalyzer.t) (bottom tops : list Expr)
  (k : list Expr -> M ScriptAnalyzer.t ScriptAnalyzer.Flow) :
  ScriptAnalyzer.stack a = bottom ++ tops ->
  ScriptAnalyzer.execOp fExec op
    = bind (ScriptAnalyzer.takeElements (Z.of_nat (length tops))) k ->
  ScriptAnalyzer.execOp fExec op a = k tops (ScriptAnalyzer.with_stack bottom a).
Proof.
  intros Hs ->. now rewrite (bind_inr _ _ _ _ (takeElements_deep a _ tops Hs)).
Qed.

Lemma takeElements_two_empty (a : ScriptAnalyzer.t) :
  ScriptAnalyzer.stack a = [] ->
  ScriptAnalyzer.takeElements 2 a
  = inr ([Var (ScriptAnalyzer.varCounter a + 1); Var (ScriptAnalyzer.varCounter a)],
         ScriptAnalyzer.with_varCounter (ScriptAnalyzer.varCounter a + 2) a).
Proof.
  intros Hs. unfold ScriptAnalyzer.takeElements. change (Z.to_nat 2) with 2%nat.
  destruct a as [v r s al sc vc so p c]. cbn [ScriptAnalyzer.stack] in Hs. subst s.
  cbn [ScriptAnalyzer.takeElements_loop ScriptAnalyzer.stack ScriptAnalyzer.varCounter].
  rewrite pop_nil. sa_unfold. rewrite pop_nil. sa_unfold.
  replace (vc + 1 + 1) with (vc + 2) by lia. reflexivity.
Qed.

(** X24. The operators build symbolic applications.  On a stack that is
    deep enough a unary operator (arithmetic or hash) replaces the top [x]
    by [op(x)], a binary one (OP_EQUAL, arithmetic, comparison, OP_CHECKSIG)
    replaces the two top elements by [op(x1, x2)] with [x2] the former top,
    and OP_WITHIN the three top elements by [OP_WITHIN(x1, x2, x3)]; nothing
    is evaluated, even between constants.  On an empty stack a binary
    operator is applied to two fresh variables, the one drawn first in the
    second place. *)
Theorem X24_symbolic_operators (fExec : bool) (a : ScriptAnalyzer.t) (op : Z)
  (bottom : list Expr) (x1 x2 x3 : Expr) :
  let leaves s := inr (ScriptAnalyzer.Break None, ScriptAnalyzer.with_stack s a) in
  (In op unary_ops -> ScriptAnalyzer.stack a = bottom ++ [x1] ->
   ScriptAnalyzer.execOp fExec op a = leaves (bottom ++ [App op [x1] None])) /\
  (In op binary_ops -> ScriptAnalyzer.stack a = bottom ++ [x1; x2] ->
   ScriptAnalyzer.execOp fExec op a = leaves (bottom ++ [App op [x1; x2] None])) /\
  (ScriptAnalyzer.stack a = bottom ++ [x1; x2; x3] ->
   ScriptAnalyzer.execOp fExec opcodes.OP_WITHIN a
   = leaves (bottom ++ [App opcodes.OP_WITHIN [x1; x2; x3] None])) /\
  (In op binary_ops -> ScriptAnalyzer.stack a = [] ->
   ScriptAnalyzer.execOp fExec op a
   = inr (ScriptAnalyzer.Break None,
          ScriptAnalyzer.with_stack
            [App op [Var (ScriptAnalyzer.varCounter a + 1);
                     Var (ScriptAnalyzer.varCounter a)] None]
            (ScriptAnalyzer.with_varCounter (ScriptAnalyzer.varCounter a + 2) a))).
Proof.
  cbv zeta. split; [|split; [|split]].
  - intros Hop Hs. cbn in Hop.
    repeat (destruct Hop as [<- | Hop];
            [match goal with
             | |- ScriptAnalyzer.execOp _ ?o _ = _ =>
                 rewrite (execOp_takes fExec o a bottom [x1] _ Hs eq_refl)
             end; run_method; destruct a; reflexivity|]).
    contradiction.
  - intros Hop Hs. cbn in Hop.
    repeat (destruct Hop as [<- | Hop];
            [match goal with
             | |- ScriptAnalyzer.execOp _ ?o _ = _ =>
                 rewrite (execOp_takes fExec o a bottom [x1; x2] _ Hs eq_refl)
             end; run_method; destruct a; reflexivity|]).
    contradiction.
  - intros Hs.
    rewrite (execOp_takes fExec opcodes.OP_WITHIN a bottom [x1; x2; x3] _ Hs eq_refl).
    run_method. destruct a; reflexivity.
  - intros Hop Hs. cbn in Hop.
    assert (T : forall o k,
      ScriptAnalyzer.execOp fExec o = bind (ScriptAnalyzer.takeElements 2) k ->
      ScriptAnalyzer.execOp fExec o a
      = k [Var (ScriptAnalyzer.varCounter a + 1); Var (ScriptAnalyzer.varCounter a)]
          (ScriptAnalyzer.with_varCounter (ScriptAnalyzer.varCounter a + 2) a)).
    { intros o k ->. now rewrite (bind_inr _ _ _ _ (takeElements_two_empty a Hs)). }
    repeat (destruct Hop as [<- | Hop];
            [match goal with
             | |- ScriptAnalyzer.execOp _ ?o _ = _ => rewrite (T o _ eq_refl)
             end; run_method; destruct a; sa_unfold;
             cbn [ScriptAnalyzer.stack] in Hs; subst; reflexivity|]).
    contradiction.
Qed.

Lemma X24_symbolic_operators_witness :
  let a := ScriptAnalyzer.mk LEGACY ALL [Bytes [2]; Bytes [3]] [] [] 0 2 0 ConditionStack.new in
  ScriptAnalyzer.execOp true opcodes.OP_ADD a
  = inr (ScriptAnalyzer.Break None,
         ScriptAnalyzer.with_stack ([] ++ [App opcodes.OP_ADD [Bytes [2]; Bytes [3]] None]) a).
Proof.
  exact (proj1 (proj2
           (X24_symbolic_operators true
              (ScriptAnalyzer.mk LEGACY ALL [Bytes [2]; Bytes [3]] [] [] 0 2 0
                 ConditionStack.new)
              opcodes.OP_ADD [] (Bytes [2]) (Bytes [3]) (Bytes [])))
           ltac:(cbn; tauto) eq_refl).
Defined.

(** X25. Constants and no-ops.  A data push pushes its bytes and OP_0 the
    empty byte string; OP_1 to OP_16 (0x50 + n) push the one-byte string
    [n], which [Int.decode] reads back as [n] and [Bool.decode] as true.
    OP_NOP, OP_CODESEPARATOR, OP_NOP1 and OP_NOP4 to OP_NOP10 change nothing;
    OP_RETURN returns OP_RETURN. *)
Theorem X25_constants_and_nops (fExec : bool) (a : ScriptAnalyzer.t) :
  let leaves s := inr (ScriptAnalyzer.Break None, ScriptAnalyzer.with_stack s a) in
  (forall data,
     ScriptAnalyzer.execItem fExec (Push data) a
     = leaves (ScriptAnalyzer.stack a ++ [Bytes data])) /\
  ScriptAnalyzer.execOp fExec opcodes.OP_0 a = leaves (ScriptAnalyzer.stack a ++ [Bytes []]) /\
  (forall n, 1 <= n <= 16 ->
     ScriptAnalyzer.execOp fExec (0x50 + n) a = leaves (ScriptAnalyzer.stack a ++ [Bytes [n]]) /\
     ScriptConv.Int.decode [n] = n /\ ScriptConv.Bool.decode [n] = true) /\
  (forall op,
     In op [opcodes.OP_NOP; opcodes.OP_CODESEPARATOR; opcodes.OP_NOP1; opcodes.OP_NOP4;
            opcodes.OP_NOP5; opcodes.OP_NOP6; opcodes.OP_NOP7; opcodes.OP_NOP8;
            opcodes.OP_NOP9; opcodes.OP_NOP10] ->
     ScriptAnalyzer.execOp fExec op a = inr (ScriptAnalyzer.Break None, a)) /\
  ScriptAnalyzer.execOp fExec opcodes.OP_RETURN a
  = inr (ScriptAnalyzer.Return SCRIPT_ERR_OP_RETURN, a).
Proof.
  cbv zeta. split; [|split; [|split; [|split]]].
  - intros data. reflexivity.
  - reflexivity.
  - intros n Hn.
    assert (Hcases : In n (map Z.of_nat (seq 1 16))).
    { apply in_map_iff. exists (Z.to_nat n). split; [lia | apply in_seq; lia]. }
    cbn in Hcases.
    repeat (destruct Hcases as [<- | Hcases]; [repeat split; reflexivity|]).
    contradiction.
  - intros op Hop. cbn in Hop.
    repeat (destruct Hop as [<- | Hop]; [reflexivity|]). contradiction.
  - reflexivity.
Qed.

Lemma X25_constants_and_nops_witness :
  ScriptAnalyzer.execOp true (0x50 + 16) (ScriptAnalyzer.new LEGACY ALL)
  = inr (ScriptAnalyzer.Break None,
         ScriptAnalyzer.with_stack [Bytes [16]] (ScriptAnalyzer.new LEGACY ALL)) /\
  ScriptConv.Int.decode [16] = 16.
Proof.
  destruct (proj1 (proj2 (proj2 (X25_constants_and_nops true (ScriptAnalyzer.new LEGACY ALL))))
              16 ltac:(lia)) as (H1 & H2 & _).
  split; [exact H1 | exact H2].
Defined.

(** X26. The lock-time opcodes and OP_CHECKSIGADD.  OP_CHECKLOCKTIMEVERIFY
    and OP_CHECKSEQUENCEVERIFY leave the top [x] of the stack in place and
    append [op(x)] to the spending conditions; on an empty stack the
    argument is a fresh variable, which stays on the stack.  Under SegwitV1
    OP_CHECKSIGADD replaces [sig; n; pk] by
    [OP_ADD(n, OP_CHECKSIG(sig, pk))]. *)
Theorem X26_locktime_and_checksigadd (fExec : bool) (a : ScriptAnalyzer.t) (op : Z)
  (bottom : list Expr) (x sig n pk : Expr) :
  (op = opcodes.OP_CHECKLOCKTIMEVERIFY \/ op = opcodes.OP_CHECKSEQUENCEVERIFY ->
   (ScriptAnalyzer.stack a = bottom ++ [x] ->
    ScriptAnalyzer.execOp fExec op a
    = inr (ScriptAnalyzer.Break None,
           ScriptAnalyzer.with_spendingConditions
             (ScriptAnalyzer.spendingConditions a ++ [App op [x] None]) a)) /\
   (ScriptAnalyzer.stack a = [] ->
    ScriptAnalyzer.execOp fExec op a
    = inr (ScriptAnalyzer.Break None,
           ScriptAnalyzer.with_spendingConditions
             (ScriptAnalyzer.spendingConditions a
                ++ [App op [Var (ScriptAnalyzer.varCounter a)] None])
             (ScriptAnalyzer.with_varCounter (ScriptAnalyzer.varCounter a + 1)
                (ScriptAnalyzer.with_stack [Var (ScriptAnalyzer.varCounter a)] a))))) /\
  (ScriptAnalyzer.version a = SEGWITV1 ->
   ScriptAnalyzer.stack a = bottom ++ [sig; n; pk] ->
   ScriptAnalyzer.execOp fExec opcodes.OP_CHECKSIGADD a
   = inr (ScriptAnalyzer.Break None,
          ScriptAnalyzer.with_stack
            (bottom ++ [App opcodes.OP_ADD [n; App opcodes.OP_CHECKSIG [sig; pk] None] None])
            a)).
Proof.
  split.
  - intros Hop.
    assert (D : ScriptAnalyzer.execOp fExec op
                = (elems <- ScriptAnalyzer.readElements 1 ;;
                   ScriptAnalyzer.push_condition (App op elems None) ;;
                   ScriptAnalyzer.break))
      by (destruct Hop as [-> | ->]; reflexivity).
    rewrite D. split; intros Hs.
    + rewrite (bind_inr _ _ _ _ (readElements_deep a bottom [x] Hs)).
      cbn [fst snd]. run_method. reflexivity.
    + run_method. change (Z.to_nat 1) with 1%nat.
      destruct a as [v r s al sc vc so p c]. cbn [ScriptAnalyzer.stack] in Hs. subst s.
      cbn [ScriptAnalyzer.readElements_pad ScriptAnalyzer.stack length].
      change (Z.of_nat 0 <? 1) with true. cbv iota zeta. sa_unfold. reflexivity.
  - intros Hv Hs.
    change (ScriptAnalyzer.execOp fExec opcodes.OP_CHECKSIGADD)
      with (this <- get ;;
            if ScriptVersion_value (ScriptAnalyzer.version this)
               <? ScriptVersion_value SEGWITV1
            then ret (ScriptAnalyzer.Return SCRIPT_ERR_BAD_OPCODE)
            else
              elems <- ScriptAnalyzer.takeElements 3 ;;
              ScriptAnalyzer.push
                (App opcodes.OP_ADD
                   [ScriptAnalyzer.at_index elems 1;
                    App opcodes.OP_CHECKSIG
                      [ScriptAnalyzer.at_index elems 0; ScriptAnalyzer.at_index elems 2] None]
                   None) ;;
              ScriptAnalyzer.break).
    unfold bind at 1. unfold get at 1. cbv iota beta. rewrite Hv.
    change (ScriptVersion_value SEGWITV1 <? ScriptVersion_value SEGWITV1) with false.
    cbv iota.
    rewrite (bind_inr _ _ _ _ (takeElements_deep a bottom [sig; n; pk] Hs)).
    cbn [fst snd]. run_method. destruct a; reflexivity.
Qed.

Lemma X26_locktime_and_checksigadd_witness :
  let a := ScriptAnalyzer.mk SEGWITV1 ALL [Var 0; Bytes [0]; Var 1] [] [] 2 3 0
             ConditionStack.new in
  ScriptAnalyzer.execOp true opcodes.OP_CHECKSIGADD a
  = inr (ScriptAnalyzer.Break None,
         ScriptAnalyzer.with_stack
           ([] ++ [App opcodes.OP_ADD
                     [Bytes [0]; App opcodes.OP_CHECKSIG [Var 0; Var 1] None] None]) a).
Proof.
  exact (proj2
           (X26_locktime_and_checksigadd true
              (ScriptAnalyzer.mk SEGWITV1 ALL [Var 0; Bytes [0]; Var 1] [] [] 2 3 0
                 ConditionStack.new)
              opcodes.OP_CHECKSIGADD [] (Var 0) (Var 0) (Bytes [0]) (Var 1))
           eq_refl eq_refl).
Defined.

(** ** The number of forks *)

Lemma execItem_no_fork (fExec : bool) (item : Item) (a : ScriptAnalyzer.t) :
  forking item = false ->
  match ScriptAnalyzer.execItem fExec item a with
  | inr (fl, _) => no_fork fl
  | inl _ => True
  end.
Proof.
  intros Hitem.
  assert (H : holds (fun _ => True) (fun _ => True)
                (ScriptAnalyzer.execItem fExec item) no_fork).
  { apply holds_execItem; cbv beta; cbn [no_fork]; auto.
    - intros _ [-> | ->]; discriminate.
    - intros ->. discriminate. }
  specialize (H a I).
  destruct (ScriptAnalyzer.execItem fExec item a) as [ab|[fl a']]; [exact I | apply H].
Qed.

Lemma analyze_from_forks (items : list Item) : forall a r a' fs,
  ScriptAnalyzer.analyze_from items a = ScriptAnalyzer.Finished r a' fs ->
  (S (length fs) <= 2 ^ length (filter forking items))%nat.
Proof.
  induction items as [|item items IH]; intros a r a' fs; cbn [ScriptAnalyzer.analyze_from].
  - destruct (ScriptAnalyzer.at_end_of_script a) as [ab|[r1 a1]]; [discriminate|].
    intros H. injection H as <- <- <-. cbn. lia.
  - assert (Mono : (2 ^ length (filter forking items)
                    <= 2 ^ length (filter forking (item :: items)))%nat).
    { cbn [filter]. destruct (forking item); [|lia].
      cbn [length]. rewrite Nat.pow_succ_r'. lia. }
    pose proof (Nat.pow_nonzero 2 (length (filter forking items)) ltac:(lia)) as Pos.
    destruct (_ && _).
    { intros H. apply IH in H. lia. }
    pose proof (execItem_no_fork
                  (ConditionStack.all_true
                     (ScriptAnalyzer.cs
                        (ScriptAnalyzer.with_scriptOffset (ScriptAnalyzer.scriptOffset a + 1) a)))
                  item
                  (ScriptAnalyzer.with_scriptOffset (ScriptAnalyzer.scriptOffset a + 1) a)) as K.
    destruct (ScriptAnalyzer.execItem _ item _) as [ab|[fl a1]]; [discriminate|].
    destruct fl as [[f|]|e].
    + destruct (forking item) eqn:Hitem; [|now contradiction (K eq_refl)].
      cbn [filter]. rewrite Hitem. cbn [length]. rewrite Nat.pow_succ_r'.
      destruct (ScriptAnalyzer.analyze_from items f) as [rf f' fsf|ab] eqn:Fork;
        [|discriminate].
      apply IH in Fork.
      destruct (_ <? _)%nat.
      * intros H. injection H as <- <- <-. cbn [length]. lia.
      * destruct (ScriptAnalyzer.analyze_from items a1) as [r2 a2 fs2|ab] eqn:Rec;
          [|discriminate].
        apply IH in Rec. intros H. injection H as <- <- <-.
        cbn [length app]. rewrite length_app. lia.
    + destruct (_ <? _)%nat.
      * intros H. injection H as <- <- <-. cbn [length]. lia.
      * destruct (ScriptAnalyzer.analyze_from items a1) as [r2 a2 fs2|ab] eqn:Rec;
          [|discriminate].
        apply IH in Rec. intros H. injection H as <- <- <-. cbn [app]. lia.
    + intros H. injection H as <- <- <-. cbn [length]. lia.
Qed.

Lemma filter_skipn_length {A} (f : A -> bool) (n : nat) (l : list A) :
  (length (filter f (skipn n l)) <= length (filter f l))%nat.
Proof.
  rewrite <- (firstn_skipn n l) at 2. rewrite filter_app, length_app. lia.
Qed.

(** X27. The number of paths.  With [k] occurrences of OP_IF, OP_NOTIF and
    OP_IFDUP in the script, an analysis registers at most 2^k - 1 forks,
    whatever the state it starts from; a script without these opcodes
    registers none. *)
Theorem X27_fork_bound (script : list Item) (a a' : ScriptAnalyzer.t)
  (r : option ScriptError) (fs : list ScriptAnalyzer.t) :
  ScriptAnalyzer.analyze script a = ScriptAnalyzer.Finished r a' fs ->
  (S (length fs) <= 2 ^ length (filter forking script))%nat /\
  (forallb (fun item => negb (forking item)) script = true -> fs = []).
Proof.
  intros H. unfold ScriptAnalyzer.analyze in H. apply analyze_from_forks in H.
  assert (Hle : (S (length fs) <= 2 ^ length (filter forking script))%nat).
  { eapply Nat.le_trans; [exact H|]. apply Nat.pow_le_mono_r; [lia|].
    apply filter_skipn_length. }
  split; [exact Hle|].
  intros Hnone.
  assert (Hk : filter forking script = []).
  { clear -Hnone. induction script as [|item script IH]; [reflexivity|].
    cbn [forallb] in Hnone. apply andb_true_iff in Hnone. destruct Hnone as [H1 H2].
    cbn [filter]. destruct (forking item); [discriminate | now apply IH]. }
  rewrite Hk in Hle. cbn in Hle. destruct fs; [reflexivity | cbn in Hle; lia].
Qed.

Lemma X27_fork_bound_witness :
  exists a' fs,
    ScriptAnalyzer.analyze
      [Op opcodes.OP_IF; Op opcodes.OP_ENDIF; Op opcodes.OP_IFDUP; Op opcodes.OP_DROP]
      (ScriptAnalyzer.new LEGACY ALL)
    = ScriptAnalyzer.Finished None a' fs /\
    (S (length fs) <= 2 ^ 2)%nat /\ length fs = 3%nat.
Proof.
  eexists _, _. split; [vm_compute; reflexivity|].
  split; [|reflexivity].
  exact (proj1 (X27_fork_bound
                  [Op opcodes.OP_IF; Op opcodes.OP_ENDIF; Op opcodes.OP_IFDUP;
                   Op opcodes.OP_DROP]
                  (ScriptAnalyzer.new LEGACY ALL) _ None _
                  ltac:(vm_compute; reflexivity))).
Defined.

(** ** The scan for disabled opcodes *)

(** X28. [analyzeScript] answers DISABLED_OPCODE, and analyses nothing, as
    soon as one of the fifteen disabled opcodes occurs anywhere in the
    script, be it in a branch that would not be executed or behind an
    OP_RETURN; the bytes of a data push are not looked at.  It answers no
    other error of its own: without a disabled opcode the outcome is that of
    [analyze] on a new analyzer. *)
Theorem X28_disabled_scan (v : ScriptVersion) (r : ScriptRules) (script : list Item) :
  ((exists op, In (Op op) script /\ In op ScriptAnalyzer.disabledOpcodes) ->
   ScriptAnalyzer.analyzeScript v r script = inl SCRIPT_ERR_DISABLED_OPCODE) /\
  ((forall op, In (Op op) script -> ~ In op ScriptAnalyzer.disabledOpcodes) ->
   ScriptAnalyzer.analyzeScript v r script
   = inr (ScriptAnalyzer.analyze script (ScriptAnalyzer.new v r))) /\
  (forall e, ScriptAnalyzer.analyzeScript v r script = inl e ->
             e = SCRIPT_ERR_DISABLED_OPCODE).
Proof.
  unfold ScriptAnalyzer.analyzeScript.
  destruct (existsb _ script) eqn:Hscan.
  - split; [reflexivity|]. split; [|intros e H; now injection H as <-].
    intros Hnone. exfalso. apply existsb_exists in Hscan.
    destruct Hscan as ([data|op] & Hin & Hop); [discriminate|].
    apply is_one_of_In in Hop. exact (Hnone op Hin Hop).
  - split; [|split; [reflexivity | discriminate]].
    intros (op & Hin & Hop). exfalso.
    assert (Hscan' : existsb (fun item => match item with
                                          | Op op => ScriptAnalyzer.is_one_of op
                                                       ScriptAnalyzer.disabledOpcodes
                                          | Push _ => false
                                          end) script = true).
    { apply existsb_exists. exists (Op op). split; [exact Hin | now apply is_one_of_In]. }
    congruence.
Qed.

Lemma X28_disabled_scan_witness :
  ScriptAnalyzer.analyzeScript LEGACY ALL
    [Op opcodes.OP_RETURN; Push [0x7e]; Op opcodes.OP_0; Op opcodes.OP_IF;
     Op opcodes.OP_CAT; Op opcodes.OP_ENDIF]
  = inl SCRIPT_ERR_DISABLED_OPCODE.
Proof.
  apply (proj1 (X28_disabled_scan LEGACY ALL
                  [Op opcodes.OP_RETURN; Push [0x7e]; Op opcodes.OP_0; Op opcodes.OP_IF;
                   Op opcodes.OP_CAT; Op opcodes.OP_ENDIF])).
  exists opcodes.OP_CAT. split; cbn; tauto.
Defined.

(** ** Overlapping lists *)

Lemma overlap_spec (list1 list2 : list Z) :
  Util.overlap list1 list2 = true <-> exists e, In e list1 /\ In e list2.
Proof.
  induction list1 as [|x rest IH]; cbn [Util.overlap].
  - split; [discriminate | intros (e & [] & _)].
  - destruct (existsb (Z.eqb x) list2) eqn:Hx.
    + split; [|reflexivity]. intros _.
      apply existsb_exists in Hx. destruct Hx as (y & Hy & Heq).
      apply Z.eqb_eq in Heq. subst y. exists x. split; [now left | exact Hy].
    + rewrite IH. split.
      * intros (e & H1 & H2). exists e. split; [now right | exact H2].
      * intros (e & [<- | H1] & H2); [|now exists e].
        exfalso. assert (existsb (Z.eqb x) list2 = true); [|congruence].
        apply existsb_exists. exists x. split; [exact H2 | apply Z.eqb_refl].
Qed.

(** X29. [Util.overlap] on lists of numbers is true exactly when some
    number occurs in both lists, so it is symmetric in its arguments and
    false as soon as one list is empty. *)
Theorem X29_overlap (list1 list2 : list Z) :
  (Util.overlap list1 list2 = true <-> exists e, In e list1 /\ In e list2) /\
  Util.overlap list1 list2 = Util.overlap list2 list1 /\
  Util.overlap list1 [] = false.
Proof.
  split; [apply overlap_spec|]. split.
  - destruct (Util.overlap list1 list2) eqn:H12, (Util.overlap list2 list1) eqn:H21;
      try reflexivity; exfalso.
    + apply overlap_spec in H12. destruct H12 as (e & H1 & H2).
      assert (Util.overlap list2 list1 = true) by (apply overlap_spec; eauto). congruence.
    + apply overlap_spec in H21. destruct H21 as (e & H1 & H2).
      assert (Util.overlap list1 list2 = true) by (apply overlap_spec; eauto). congruence.
  - destruct (Util.overlap list1 []) eqn:H; [|reflexivity].
    apply overlap_spec in H. destruct H as (e & _ & []).
Qed.

(** ** OP_IFDUP and OP_DEPTH *)

Lemma decode_encode_nonneg (n : Z) :
  0 <= n < 2 ^ 31 ->
  exists buf, ScriptConv.Int.encode n = Some buf /\ ScriptConv.Int.decode buf = n.
Proof.
  intros Hn.
  destruct (Z.eq_dec n 0) as [->|Hnz]; [exists []; split; reflexivity|].
  unfold ScriptConv.Int.encode, ScriptConv.Int.encode_fuel.
  destruct (encode_loop_spec 4 6 (Z.abs n) [])
    as (bs & E & Hv & Hb & Hl); [change (2 ^ (8 * Z.of_nat 4)) with (2 ^ 32); lia | lia | lia |].
  rewrite E. cbn [app]. eexists; split; [reflexivity|].
  destruct (exists_last (l:=bs)) as (init & L & ->).
  { intros ->. simpl in Hv. lia. }
  pose proof Hb as Hb'. apply Forall_app in Hb'. destruct Hb' as [Hinit HL].
  inversion HL as [|? ? HLb _]; subst. unfold is_byte in HLb.
  pose proof Hv as Hv'.
  rewrite le_value_app in Hv'. cbn [le_value] in Hv'. rewrite Z.mul_0_r, Z.add_0_r in Hv'.
  pose proof (le_value_nonneg init Hinit) as Hinit0.
  rewrite length_app in Hl. cbn [length] in Hl.
  assert (Hfour : length init = 3%nat -> L < 128).
  { intros E3. rewrite E3 in Hv'. change (256 ^ Z.of_nat 3) with 16777216 in Hv'. lia. }
  unfold ScriptConv.Int.encode_sign. rewrite last_elem_snoc, and_0x80 by exact HLb.
  destruct (Z.ltb_spec n 0) as [Hneg|Hpos]; [lia|].
  destruct (Z.ltb_spec L 128) as [Hlow|Hhigh]; cbn [Z.eqb negb].
  - rewrite Uint8Array_bytes by exact Hb.
    unfold ScriptConv.Int.decode. rewrite last_elem_snoc, and_0x80 by lia.
    destruct (Z.ltb_spec L 128); [|lia]. cbn [Z.eqb].
    rewrite decode_loop_snoc by (try assumption; lia). lia.
  - assert (Hlen3 : (length init <= 2)%nat).
    { destruct (Nat.eq_dec (length init) 3) as [E3|]; [specialize (Hfour E3); lia | lia]. }
    assert (Hdec : ScriptConv.Int.decode_loop 0 ((init ++ [L]) ++ [0]) 0 = Z.abs n).
    { rewrite decode_loop_snoc; [| exact Hb | lia | rewrite length_app; cbn [length]; lia].
      rewrite le_value_app. cbn [le_value]. lia. }
    rewrite Uint8Array_bytes
      by (apply Forall_app; split; [exact Hb | constructor; [unfold is_byte; lia | constructor]]).
    unfold ScriptConv.Int.decode. rewrite last_elem_snoc.
    change (JS.and 0 128) with 0. cbn [Z.eqb].
    rewrite Hdec. lia.
Qed.

(** X30. OP_IFDUP and OP_DEPTH.  OP_IFDUP on a top element [x] splits the
    analysis: the analyzer assumes [x] (appended to its spending conditions)
    and duplicates it, the fork, one path level deeper, assumes
    [INTERNAL_NOT(x)] and keeps the stack as it was.  OP_DEPTH pushes the
    encoding of the number of elements on the stack, which [Int.decode]
    reads back as that number. *)
Theorem X30_ifdup_depth (fExec : bool) (a : ScriptAnalyzer.t) (bottom : list Expr) (x : Expr) :
  (ScriptAnalyzer.stack a = bottom ++ [x] ->
   ScriptAnalyzer.execOp fExec opcodes.OP_IFDUP a
   = inr (ScriptAnalyzer.Break
            (Some (ScriptAnalyzer.fork_push_condition
                     (App opcodes.INTERNAL_NOT [x] None) (ScriptAnalyzer.fork_of a))),
          ScriptAnalyzer.with_stack (bottom ++ [x; x])
            (ScriptAnalyzer.with_spendingConditions
               (ScriptAnalyzer.spendingConditions a ++ [x]) a)) /\
   ScriptAnalyzer.stack (ScriptAnalyzer.fork_of a) = bottom ++ [x] /\
   ScriptAnalyzer.path (ScriptAnalyzer.fork_of a) = ScriptAnalyzer.path a + 1) /\
  (Z.of_nat (length (ScriptAnalyzer.stack a)) < 2 ^ 31 ->
   exists buf,
     ScriptAnalyzer.execOp fExec opcodes.OP_DEPTH a
     = inr (ScriptAnalyzer.Break None,
            ScriptAnalyzer.with_stack (ScriptAnalyzer.stack a ++ [Bytes buf]) a) /\
     ScriptConv.Int.decode buf = Z.of_nat (length (ScriptAnalyzer.stack a))).
Proof.
  split.
  - intros Hs. split; [|split; [destruct a; exact Hs | destruct a; reflexivity]].
    change (ScriptAnalyzer.execOp fExec opcodes.OP_IFDUP)
      with (elems <- ScriptAnalyzer.readElements 1 ;;
            this <- get ;;
            ScriptAnalyzer.push_condition (ScriptAnalyzer.at_index elems 0) ;;
            ScriptAnalyzer.push (ScriptAnalyzer.at_index elems 0) ;;
            ret (ScriptAnalyzer.Break
                   (Some (ScriptAnalyzer.fork_push_condition
                            (App opcodes.INTERNAL_NOT [ScriptAnalyzer.at_index elems 0] None)
                            (ScriptAnalyzer.fork_of this))))).
    rewrite (bind_inr _ _ _ _ (readElements_deep a bottom [x] Hs)).
    cbn [fst snd ScriptAnalyzer.at_index nth]. run_method.
    destruct a as [v r s al sc vc so p c]. sa_unfold. subst s.
    rewrite <- app_assoc. reflexivity.
  - intros Hlen.
    destruct (decode_encode_nonneg (Z.of_nat (length (ScriptAnalyzer.stack a))))
      as (buf & Hbuf & Hdec); [lia|].
    exists buf. split; [|exact Hdec].
    change (ScriptAnalyzer.execOp fExec opcodes.OP_DEPTH)
      with (this <- get ;;
            buf <- ScriptAnalyzer.encode (Z.of_nat (length (ScriptAnalyzer.stack this))) ;;
            ScriptAnalyzer.push (Bytes buf) ;; ScriptAnalyzer.break).
    run_method. rewrite Hbuf. reflexivity.
Qed.

Lemma X30_ifdup_depth_witness :
  let a := ScriptAnalyzer.mk LEGACY ALL [Var 0; Var 1; Var 2] [] [] 3 1 0 ConditionStack.new in
  exists buf,
    ScriptAnalyzer.execOp true opcodes.OP_DEPTH a
    = inr (ScriptAnalyzer.Break None,
           ScriptAnalyzer.with_stack ([Var 0; Var 1; Var 2] ++ [Bytes buf]) a) /\
    ScriptConv.Int.decode buf = 3.
Proof.
  exact (proj2
           (X30_ifdup_depth true
              (ScriptAnalyzer.mk LEGACY ALL [Var 0; Var 1; Var 2] [] [] 3 1 0
                 ConditionStack.new)
              [] (Var 0))
           ltac:(cbn; lia)).
Defined.
